(** * project-structure.js: a shallow embedding and its checked properties

    The program walks the current directory, renders it as an ASCII tree
    and appends the content of every collected file.  It talks to the
    outside world through [fs.readdirSync], [fs.statSync],
    [fs.readFileSync], [fs.writeFileSync] and [console.log] only.

    Modelling choices.
    - A JavaScript string is a [string]: the bytes of its UTF-8 encoding,
      which is well formed.  Equality and containment are then the same
      on the bytes as on the UTF-16 code units; the order of the code
      units, which is the order [sort] uses, is read off the bytes by
      [JS.compare_units].
    - The filesystem is a finite tree, read as a snapshot: no symbolic
      link cycles, and nothing changes while the program runs.  What a
      call can do besides returning (throwing) is part of the tree.
    - [toLowerCase] is what the language says on strings of ASCII
      characters; on the others it is a parameter of the development.
    - A thrown exception is the [Throw] case of [result]; [err.message]
      is the string it carries. *)

From Stdlib Require Import String Ascii List ZArith Bool Arith Lia.
From Stdlib Require Import Sorting.Sorted Sorting.Permutation.
Import ListNotations.
Open Scope list_scope.
Open Scope string_scope.

(* ================================================================= *)
(** ** Exceptions *)

Inductive result (A : Type) : Type :=
| Ok (a : A)
| Throw (message : string).
Arguments Ok {A} a.
Arguments Throw {A} message.

Definition bind {A B : Type} (r : result A) (k : A -> result B) : result B :=
  match r with
  | Ok a => k a
  | Throw e => Throw e
  end.

Notation "x <- r ;; k" := (bind r (fun x => k))
  (at level 61, r at next level, right associativity).

(** [try { body } catch (err) { handler(err.message) }] where both
    branches produce a value. *)
Definition try_catch {A : Type} (body : result A) (handler : string -> A) : A :=
  match body with
  | Ok a => a
  | Throw e => handler e
  end.

(* ================================================================= *)
(** ** The JavaScript primitives the program uses *)

Module JS.

(** [Array.prototype.includes] on an array of strings. *)
Definition Array_includes (arr : list string) (x : string) : bool :=
  existsb (String.eqb x) arr.

(** [String.prototype.includes]: [sub] occurs somewhere in [s]. *)
Fixpoint String_includes (s sub : string) : bool :=
  prefix sub s ||
  match s with
  | EmptyString => false
  | String _ s' => String_includes s' sub
  end.

(** The string is made of ASCII characters: every byte is below 128. *)
Fixpoint is_ascii (s : string) : bool :=
  match s with
  | EmptyString => true
  | String c s' => (N_of_ascii c <? 128)%N && is_ascii s'
  end.

Definition lower_ascii (c : ascii) : ascii :=
  let n := nat_of_ascii c in
  if ((65 <=? n)%nat && (n <=? 90)%nat)%bool then ascii_of_nat (n + 32) else c.

Fixpoint fold_ascii (s : string) : string :=
  match s with
  | EmptyString => EmptyString
  | String c s' => String (lower_ascii c) (fold_ascii s')
  end.

(** [String.prototype.toLowerCase].  A string of ASCII characters has
    its letters [A] to [Z] replaced by [a] to [z].  Any other string is
    converted as the Unicode standard says, with tables that belong to
    the engine: what they give is [beyond_ascii], left open. *)
Definition toLowerCase (beyond_ascii : string -> string) (s : string) : string :=
  if is_ascii s then fold_ascii s else beyond_ascii s.

(** The order of two strings as [<] has it in JavaScript: the
    lexicographic order of their UTF-16 code units, read off the UTF-8
    bytes.  Two well-formed strings differ first inside one character of
    each.  When the bytes that differ are continuation bytes, or lead
    bytes of characters that both lie below U+10000 or both from U+10000
    on, the order of the bytes is the order of the code points and of
    the code units.  It is not when one character is in U+E000..U+FFFF
    (lead byte [0xEE] or [0xEF], one code unit from [0xE000] on) and the
    other from U+10000 on (lead byte [0xF0] to [0xF4], first code unit a
    surrogate in [0xD800..0xDBFF]): the surrogate is the smaller code
    unit.  So a byte is ranked by its value, the two lead bytes [0xEE]
    and [0xEF] above all the others. *)
Definition unit_rank (c : ascii) : N :=
  let n := N_of_ascii c in
  if ((n =? 238) || (n =? 239))%N then (n + 256)%N else n.

Fixpoint compare_units (s1 s2 : string) : comparison :=
  match s1, s2 with
  | EmptyString, EmptyString => Eq
  | EmptyString, String _ _ => Lt
  | String _ _, EmptyString => Gt
  | String c1 s1', String c2 s2' =>
      match N.compare (unit_rank c1) (unit_rank c2) with
      | Eq => compare_units s1' s2'
      | ne => ne
      end
  end.

(** [!(y < x)] on strings. *)
Definition units_leb (x y : string) : bool :=
  match compare_units x y with
  | Gt => false
  | _ => true
  end.

(** [Array.prototype.sort] without a comparator, on strings: the
    elements in ascending order of their code units.  Strings that
    compare equal are identical, so every sorting algorithm returns the
    same array. *)
Fixpoint insert_sorted (x : string) (l : list string) : list string :=
  match l with
  | [] => [x]
  | y :: l' => if units_leb x y then x :: l else y :: insert_sorted x l'
  end.

Definition Array_sort (l : list string) : list string :=
  fold_right insert_sorted [] l.

(** [arr.push(x)], as the array it leaves. *)
Definition push {A : Type} (arr : list A) (x : A) : list A :=
  (arr ++ [x])%list.

(** [Array.prototype.join]. *)
Definition Array_join (arr : list string) (sep : string) : string :=
  String.concat sep arr.

(** [arr.map((x, index) => f x index)], the index as JavaScript has it. *)
Fixpoint map_indexed {A B : Type} (f : A -> Z -> B) (from : Z) (arr : list A) : list B :=
  match arr with
  | [] => []
  | x :: arr' => f x from :: map_indexed f (from + 1) arr'
  end.

(** [arr.forEach((x, index) => ...)] whose body updates one local
    variable and may throw: the first exception ends the loop. *)
Fixpoint forEach {A S : Type} (body : S -> A -> Z -> result S)
         (from : Z) (arr : list A) (st : S) : result S :=
  match arr with
  | [] => Ok st
  | x :: arr' => st' <- body st x from ;; forEach body (from + 1) arr' st'
  end.

(** [arr.filter(pred)] with a predicate that may throw. *)
Fixpoint Array_filter {A : Type} (pred : A -> result bool) (arr : list A)
  : result (list A) :=
  match arr with
  | [] => Ok []
  | x :: arr' =>
      keep <- pred x ;;
      rest <- Array_filter pred arr' ;;
      Ok (if keep then x :: rest else rest)
  end.

End JS.

(* ================================================================= *)
(** ** Node's [path] module (POSIX flavour) *)

Module Path.

Definition slash : ascii := "/"%char.
Definition dot : ascii := "."%char.

(** The pieces of a path between its slashes. *)
Fixpoint split (p : string) : list string :=
  match p with
  | EmptyString => [EmptyString]
  | String c p' =>
      if Ascii.eqb c slash then EmptyString :: split p'
      else match split p' with
           | [] => [String c EmptyString]
           | seg :: segs => String c seg :: segs
           end
  end.

(** One step of [normalizeString]: [res] holds the segments kept so
    far, last one first. *)
Definition normalize_step (allowAboveRoot : bool) (res : list string) (seg : string)
  : list string :=
  if (seg =? "") || (seg =? ".") then res
  else if seg =? ".." then
    match res with
    | [] => if allowAboveRoot then [".."] else []
    | last :: res' =>
        if last =? ".." then (if allowAboveRoot then ".." :: res else res)
        else res'
    end
  else seg :: res.

Definition normalizeString (p : string) (allowAboveRoot : bool) : list string :=
  rev (fold_left (normalize_step allowAboveRoot) (split p) []).

Definition starts_with_slash (p : string) : bool :=
  match p with
  | String c _ => Ascii.eqb c slash
  | EmptyString => false
  end.

Fixpoint ends_with_slash (p : string) : bool :=
  match p with
  | EmptyString => false
  | String c EmptyString => Ascii.eqb c slash
  | String _ p' => ends_with_slash p'
  end.

(** [path.normalize]. *)
Definition normalize (p : string) : string :=
  if p =? "" then "."
  else
    let isAbsolute := starts_with_slash p in
    let trailingSeparator := ends_with_slash p in
    let body := String.concat "/" (normalizeString p (negb isAbsolute)) in
    if body =? "" then
      (if isAbsolute then "/" else if trailingSeparator then "./" else ".")
    else
      let body := if trailingSeparator then body ++ "/" else body in
      if isAbsolute then "/" ++ body else body.

(** [path.join(a, b)]. *)
Definition join (a b : string) : string :=
  match filter (fun s => negb (s =? "")) [a; b] with
  | [] => "."
  | parts => normalize (String.concat "/" parts)
  end.

(** [path.basename(p)]: the last non-empty piece, trailing slashes
    ignored. *)
Definition basename (p : string) : string :=
  last (filter (fun s => negb (s =? "")) (split p)) "".

(** The suffix of [s] that starts at its last dot. *)
Fixpoint from_last_dot (s : string) : option string :=
  match s with
  | EmptyString => None
  | String c s' =>
      match from_last_dot s' with
      | Some e => Some e
      | None => if Ascii.eqb c dot then Some s else None
      end
  end.

(** [path.extname(p)]: from the last dot of the last piece to its end;
    empty when there is no dot, when the only dot leads the piece, or
    when the piece is [..]. *)
Definition extname (p : string) : string :=
  let part := basename p in
  match from_last_dot part with
  | None => ""
  | Some e => if (e =? part) || (part =? "..") then "" else e
  end.

End Path.

(* ================================================================= *)
(** ** The filesystem *)

Module Fs.

(** What a path can lead to.
    - [File regular data]: anything [statSync] does not report as a
      directory; [regular] is [stat.isFile()], [data] is what
      [readFileSync(path, 'utf8')] does: it throws, or it returns the
      decoded string.  The bytes on the disk are not part of the model;
      where they are not UTF-8 the string has U+FFFD in their place.
    - [Dir entries]: a directory, its entries in enumeration order.
    - [DirUnreadable e]: a directory that [readdirSync] cannot list.
    - [Unstatable e]: an entry on which [statSync] throws. *)
#[local] Unset Elimination Schemes.
Inductive node : Type :=
| File (regular : bool) (data : result string)
| Dir (entries : list (string * node))
| DirUnreadable (message : string)
| Unstatable (message : string).
#[local] Set Elimination Schemes.

(** Induction over a tree: a directory's entries satisfy the property
    before the directory does. *)
Section node_induction.
Variable P : node -> Prop.
Hypothesis P_File : forall regular data, P (File regular data).
Hypothesis P_Dir :
  forall entries, Forall (fun e => P (snd e)) entries -> P (Dir entries).
Hypothesis P_DirUnreadable : forall e, P (DirUnreadable e).
Hypothesis P_Unstatable : forall e, P (Unstatable e).

Fixpoint node_ind (n : node) : P n :=
  match n with
  | File regular data => P_File regular data
  | Dir entries =>
      P_Dir entries
        ((fix all (es : list (string * node)) : Forall (fun e => P (snd e)) es :=
            match es with
            | [] => Forall_nil _
            | e :: es' => Forall_cons e (node_ind (snd e)) (all es')
            end) entries)
  | DirUnreadable e => P_DirUnreadable e
  | Unstatable e => P_Unstatable e
  end.
End node_induction.

Record Stats : Type := mkStats { isDirectory : bool; isFile : bool }.

(** [fs.statSync] on the path that leads to [n]. *)
Definition statSync (n : node) : result Stats :=
  match n with
  | File regular _ => Ok (mkStats false regular)
  | Dir _ => Ok (mkStats true false)
  | DirUnreadable _ => Ok (mkStats true false)
  | Unstatable e => Throw e
  end.

(** [fs.readdirSync] on the path that leads to [n].  The program lists
    the working directory and what [statSync] reports as a directory,
    so the message for a file is never thrown; it is given without the
    path, as are the messages of [at_entry], [in_dir], [walk] and
    [segments] below for names that are not there. *)
Definition readdirSync (n : node) : result (list string) :=
  match n with
  | Dir entries => Ok (map fst entries)
  | DirUnreadable e => Throw e
  | File _ _ => Throw "ENOTDIR: not a directory, scandir"
  | Unstatable e => Throw e
  end.

(** The entry called [name]. *)
Fixpoint lookup (name : string) (entries : list (string * node)) : option node :=
  match entries with
  | [] => None
  | (n, child) :: entries' => if n =? name then Some child else lookup name entries'
  end.

(** Run [k] on the entry called [name]; the system call underneath
    fails when there is none. *)
Definition at_entry {A : Type} (k : node -> result A) (name : string)
  : list (string * node) -> result A :=
  fix go (entries : list (string * node)) : result A :=
    match entries with
    | [] => Throw "ENOENT: no such file or directory"
    | (n, child) :: entries' => if n =? name then k child else go entries'
    end.

(** Run [k] on what [path.join(dir, name)] leads to, [n] being what
    [dir] leads to. *)
Definition in_dir {A : Type} (n : node) (name : string) (k : node -> result A)
  : result A :=
  match n with
  | Dir entries => at_entry k name entries
  | DirUnreadable _ => Throw "EACCES: permission denied"
  | File _ _ => Throw "ENOTDIR: not a directory"
  | Unstatable e => Throw e
  end.

(** Follow the pieces of a relative path down from [n]. *)
Fixpoint walk (n : node) (segs : list string) : result node :=
  match segs with
  | [] => Ok n
  | seg :: segs' =>
      match n with
      | Dir entries =>
          match lookup seg entries with
          | Some child => walk child segs'
          | None => Throw "ENOENT: no such file or directory"
          end
      | DirUnreadable _ =>
          Throw "EACCES: permission denied"
      | File _ _ => Throw "ENOTDIR: not a directory"
      | Unstatable e => Throw e
      end
  end.

(** The pieces of [p] below the working directory; paths that leave
    it are outside the model. *)
Definition segments (p : string) : result (list string) :=
  if Path.starts_with_slash p then Throw "ENOENT: no such file or directory"
  else
    let segs := Path.normalizeString p true in
    if existsb (String.eqb "..") segs then Throw "ENOENT: no such file or directory"
    else Ok segs.

(** [fs.readFileSync(p, 'utf8')] with working directory [cwd]. *)
Definition readFileSync (cwd : node) (p : string) : result string :=
  segs <- segments p ;;
  n <- walk cwd segs ;;
  match n with
  | File _ data => data
  | Dir _ | DirUnreadable _ => Throw "EISDIR: illegal operation on a directory, read"
  | Unstatable e => Throw e
  end.

End Fs.
Import Fs.

(* ================================================================= *)
(** ** project-structure.js *)

Record Config : Type := mkConfig {
  excludeDirs : list string;
  excludeFiles : list string;
  textExtensions : list string;
  outputFile : string
}.

Definition DEFAULT_CONFIG : Config := {|
  excludeDirs := ["node_modules"; ".git"; ".vscode"; ".idea"; ".venv"; "__pycache__"];
  excludeFiles := ["package-lock.json"; "yarn.lock"; ".env"];
  textExtensions := [".js"; ".html"; ".css"; ".json"; ".md"; ".txt"; ".sql"; ".ts";
                     ".jsx"; ".tsx"; ".yaml"; ".yml"; ".py"; ".env"; ".gitignore"; ".toml"];
  outputFile := "project-structure.txt"
|}.

(** The [options] argument: an object holding any subset of the four
    properties. *)
Record Options : Type := mkOptions {
  opt_excludeDirs : option (list string);
  opt_excludeFiles : option (list string);
  opt_textExtensions : option (list string);
  opt_outputFile : option string
}.

Definition no_options : Options := mkOptions None None None None.

Definition or_default {A : Type} (o : option A) (d : A) : A :=
  match o with
  | Some a => a
  | None => d
  end.

(** [{ ...base, ...options }]. *)
Definition spread (base : Config) (options : Options) : Config := {|
  excludeDirs := or_default (opt_excludeDirs options) (excludeDirs base);
  excludeFiles := or_default (opt_excludeFiles options) (excludeFiles base);
  textExtensions := or_default (opt_textExtensions options) (textExtensions base);
  outputFile := or_default (opt_outputFile options) (outputFile base)
|}.


(** The line feed the report is joined with. *)
Definition LF : string := String (ascii_of_nat 10) EmptyString.

(* ================================================================= *)
(** ** Sample filesystems and options *)

Module Sample.

(** Where the program is installed. *)
Definition script : string := "/srv/ctfobot2/project-structure.js".

(** Scenario A: a text file and an empty directory. *)
Definition scenario_a : node :=
  Dir [("a.txt", File true (Ok "hi")); ("sub", Dir [])].

(** The report of an earlier run is still in the working directory. *)
Definition with_old_report : node :=
  Dir [("project-structure.txt", File true (Ok "old report"))].

(** A copy of the program at the top and one in a subdirectory. *)
Definition with_copies : node :=
  Dir [("project-structure.js", File true (Ok "top"));
       ("lib", Dir [("project-structure.js", File true (Ok "copy"))])].

(** A copy of the program below [.github]. *)
Definition with_github_copy : node :=
  Dir [(".github", Dir [("project-structure.js", File true (Ok "copy"))])].

(** A project with ignore rules, an image, a file that cannot be
    read, dependencies and a directory that cannot be listed inside
    them. *)
Definition project_entries : list (string * node) :=
  [(".gitignore", File true (Ok "node_modules"));
   ("README.MD", File true (Ok ("# title" ++ LF)));
   ("logo.png", File true (Ok "PNG"));
   ("gone.txt", File true (Throw "ENOENT: no such file or directory, open 'gone.txt'"));
   ("z.txt", File true (Ok "last"));
   ("node_modules", Dir [("x.js", File true (Ok "x"));
                         ("locked", DirUnreadable "EACCES: permission denied")]);
   ("src", Dir [("main.js", File true (Ok "main"))])].

Definition project : node := Dir project_entries.

(** Its tree and the paths of its contents section. *)
Definition project_tree : list string :=
  ["├── .gitignore"; "├── README.MD"; "├── gone.txt"; "├── logo.png";
   "├── z.txt"; "└── src/"; "    └── main.js"].

Definition project_files : list string :=
  ["README.MD"; "gone.txt"; "logo.png"; "src/main.js"; "z.txt"].



(** An R script, whose extension is a capital letter, and options that
    add that extension to the text extensions. *)
Definition r_project : node :=
  Dir [("analysis.R", File true (Ok "x <- 1"))].

Definition r_options : Options :=
  mkOptions None None (Some [".js"; ".md"; ".R"]) None.

(** A makefile, which has no extension, and options that add the empty
    extension to the text extensions. *)
Definition make_project : node :=
  Dir [("Makefile", File true (Ok "all: report"))].

Definition make_options : Options :=
  mkOptions None None (Some [".js"; ".md"; ""]) None.

(** The engine beyond ASCII, for runs that lowercase strings of ASCII
    characters only. *)
Definition beyond_ascii (s : string) : string := s.


End Sample.

(** More sample runs. *)
Module More.

(** A working directory, and the same directory with its entries
    enumerated in another order at both levels. *)
Definition docs : list (string * node) :=
  [("usage.md", File true (Ok "usage")); ("api.md", File true (Ok "api"))].

Definition docs' : list (string * node) :=
  [("api.md", File true (Ok "api")); ("usage.md", File true (Ok "usage"))].

Definition listed : node :=
  Dir [("main.js", File true (Ok "main")); ("docs", Dir docs)].

Definition relisted : node :=
  Dir [("docs", Dir docs'); ("main.js", File true (Ok "main"))].

(** A lock file, and a file whose name has the name of an excluded
    file inside it. *)
Definition with_lockfile : node :=
  Dir [("package-lock.json", File true (Ok "{}"));
       ("index.js", File true (Ok "run()"));
       ("notes.env.md", File true (Ok "notes"))].

End More.

(* ================================================================= *)
(** ** project-structure.js: the functions *)

Section Program.

(** What [String.prototype.toLowerCase] returns for a string that is
    not made of ASCII characters alone.  Every property below holds
    whatever this is. *)
Variable toLowerCase_beyond_ascii : string -> string.

(** The body of [getAllFiles] once [fs.readdirSync(dir)] has returned
    [files].  [stat file] is [fs.statSync(path.join(dir, file))] and
    [recur file filePath fileList] is the recursive call
    [getAllFiles(filePath, fileList, config)]; [fileList] is the shared
    array the calls push to. *)
Definition getAllFiles_body
           (files : list string)
           (stat : string -> result Stats)
           (recur : string -> string -> list string -> result (list string))
           (dir : string) (fileList : list string) (config : Config)
  : result (list string) :=
  JS.forEach
    (fun fileList file _ =>
       let filePath := Path.join dir file in
       stat <- stat file ;;
       if isDirectory stat then
         if negb (JS.Array_includes (excludeDirs config) file)
         then recur file filePath fileList
         else Ok fileList
       else Ok (JS.push fileList filePath))
    0%Z files fileList.

(** [getAllFiles(dir, fileList, config)], [n] being what [dir] leads to. *)
Fixpoint getAllFiles (n : node) (dir : string) (fileList : list string)
         (config : Config) {struct n} : result (list string) :=
  files <- readdirSync n ;;
  getAllFiles_body files
    (fun file => in_dir n file statSync)
    (fun file filePath fileList =>
       in_dir n file (fun child => getAllFiles child filePath fileList config))
    dir fileList config.

Inductive FileType : Type := text | binary.

Definition getFileType (filePath : string) (config : Config) : FileType :=
  let ext := JS.toLowerCase toLowerCase_beyond_ascii (Path.extname filePath) in
  if JS.Array_includes (textExtensions config) ext then text else binary.

Definition branch (isLast : bool) : string :=
  if isLast then "└── " else "├── ".

Definition indent (isLast : bool) : string :=
  if isLast then "    " else "│   ".

(** The body of [generateTree] once [fs.readdirSync(dir)] has returned
    [files].  [stat f] is [fs.statSync(path.join(dir, f))] and
    [recur dirName prefix'] is the recursive call
    [generateTree(path.join(dir, dirName), prefix', config)]. *)
Definition generateTree_body
           (files : list string)
           (stat : string -> result Stats)
           (recur : string -> string -> result (list string))
           (prefix : string) (config : Config) (__filename : string)
  : result (list string) :=
  let lines : list string := [] in
  dirs <- JS.Array_filter
            (fun f =>
               stat <- stat f ;;
               Ok (isDirectory stat && negb (JS.Array_includes (excludeDirs config) f)))
            files ;;
  let dirs := JS.Array_sort dirs in
  fileNames <- JS.Array_filter
                 (fun f =>
                    stat <- stat f ;;
                    Ok (isFile stat
                        && negb (JS.Array_includes (excludeFiles config) f)
                        && negb (f =? Path.basename __filename)))
                 files ;;
  let fileNames := JS.Array_sort fileNames in
  lines <- JS.forEach
             (fun lines file index =>
                let isLast := ((index =? Z.of_nat (List.length fileNames) - 1)%Z
                               && (Z.of_nat (List.length dirs) =? 0)%Z)%bool in
                Ok (JS.push lines (prefix ++ branch isLast ++ file)))
             0%Z fileNames lines ;;
  lines <- JS.forEach
             (fun lines dirName index =>
                let isLast := (index =? Z.of_nat (List.length dirs) - 1)%Z in
                let lines := JS.push lines (prefix ++ branch isLast ++ dirName ++ "/") in
                sub <- recur dirName (prefix ++ indent isLast) ;;
                Ok (lines ++ sub)%list)
             0%Z dirs lines ;;
  Ok lines.

(** [generateTree(dir, prefix, config)], [n] being what [dir] leads to. *)
Fixpoint generateTree (n : node) (prefix : string) (config : Config)
         (__filename : string) {struct n} : result (list string) :=
  files <- readdirSync n ;;
  generateTree_body files
    (fun f => in_dir n f statSync)
    (fun dirName prefix' =>
       in_dir n dirName (fun child => generateTree child prefix' config __filename))
    prefix config __filename.

Definition separator : string := "----------------------------------------".

(** One pass of the loop over [files]: what it leaves in [output]. *)
Definition processFile (cwd : node) (config : Config)
           (output : list string) (filePath : string) : list string :=
  let output := JS.push output ("FILE: " ++ filePath) in
  let output := JS.push output separator in
  let output :=
    try_catch
      (match getFileType filePath config with
       | text =>
           content <- readFileSync cwd filePath ;;
           Ok (JS.push output content)
       | binary => Ok (JS.push output "[BINARY FILE - CONTENT NOT DISPLAYED]")
       end)
      (fun message => JS.push output ("[ERROR READING FILE: " ++ message ++ "]")) in
  let output := JS.push output "" in
  let output := JS.push output "" in
  output.

(** The paths [generateStructure] keeps, in the order it reports them. *)
Definition selectFiles (all : list string) (config : Config) (__filename : string)
  : list string :=
  JS.Array_sort
    (filter (fun file => negb (file =? Path.basename __filename))
       (filter (fun file =>
                  negb (existsb (fun exFile => JS.String_includes file exFile)
                          (excludeFiles config)))
          (filter (fun file =>
                     negb (existsb (fun dir => JS.String_includes file dir)
                             (excludeDirs config)))
             all))).

(** [generateStructure(options)] run in working directory [cwd]. *)
Definition generateStructure (cwd : node) (options : Options) (__filename : string)
  : result string :=
  let config := spread DEFAULT_CONFIG options in
  let output : list string := [] in
  let projectRoot := "." in
  let output := JS.push output "====================================" in
  let output := JS.push output "PROJECT STRUCTURE AND CONTENTS" in
  let output := JS.push output "====================================" in
  let output := JS.push output "" in
  let output := JS.push output "PROJECT STRUCTURE:" in
  let output := JS.push output "==================" in
  tree <- generateTree cwd "" config __filename ;;
  let output := (output ++ tree)%list in
  let output := JS.push output "" in
  let output := JS.push output "FILE CONTENTS:" in
  let output := JS.push output "==============" in
  let output := JS.push output "" in
  all <- getAllFiles cwd projectRoot [] config ;;
  let files := selectFiles all config __filename in
  let output := fold_left (processFile cwd config) files output in
  Ok (JS.Array_join output LF).



(* ================================================================= *)
(** ** Vocabulary of the properties *)

(** Drop the first [k] characters. *)
Fixpoint drop (k : nat) (s : string) : string :=
  match k, s with
  | O, _ => s
  | S k', String _ s' => drop k' s'
  | S _, EmptyString => EmptyString
  end.

(** Read a tree line back: skip the indentation units, then the branch
    glyph; what is left is the name the line displays. *)
Fixpoint line_name_from (fuel : nat) (l : string) : string :=
  match fuel with
  | O => l
  | S fuel' =>
      if prefix (indent true) l then line_name_from fuel' (drop (String.length (indent true)) l)
      else if prefix (indent false) l then line_name_from fuel' (drop (String.length (indent false)) l)
      else if prefix (branch true) l then drop (String.length (branch true)) l
      else if prefix (branch false) l then drop (String.length (branch false)) l
      else l
  end.

Definition line_name (l : string) : string := line_name_from (String.length l) l.

(** The prefix the renderer reaches below the top level: one
    indentation unit per level, outermost first. *)
Fixpoint indentation (levels : list bool) : string :=
  match levels with
  | [] => ""
  | isLast :: levels' => indent isLast ++ indentation levels'
  end.

(** [s] has a slash in it. *)
Fixpoint has_slash (s : string) : bool :=
  match s with
  | EmptyString => false
  | String c s' => Ascii.eqb c Path.slash || has_slash s'
  end.

(** A name a directory entry can have. *)
Definition valid_name (s : string) : Prop :=
  s <> "" /\ s <> "." /\ s <> ".." /\ has_slash s = false.

(** Every entry of the tree has such a name. *)
Fixpoint valid_names (n : node) : Prop :=
  match n with
  | Dir entries =>
      Forall valid_name (map fst entries)
      /\ (fix all (es : list (string * node)) : Prop :=
            match es with
            | [] => True
            | (_, child) :: es' => valid_names child /\ all es'
            end) entries
  | _ => True
  end.

(** [dir] is the path the collector has for the directory reached
    through the entries [ds] from the working directory. *)
Definition denotes (dir : string) (ds : list string) : Prop :=
  (dir = "." /\ ds = []) \/ (ds <> [] /\ dir = String.concat "/" ds).

(** The path [p] leads from [cwd] to something that is not a
    directory. *)
Definition leads_to_file (cwd : node) (p : string) : Prop :=
  exists segs regular data,
    segments p = Ok segs /\ walk cwd segs = Ok (File regular data).

(** A line the renderer can produce for a child that is not called as
    the program's own file: indentation, a glyph, the child's name. *)
Definition line_of_other (__filename l : string) : Prop :=
  exists levels isLast name,
    l = indentation levels ++ branch isLast ++ name
    /\ name <> Path.basename __filename.

(** The tree has a line for a file called [name]. *)
Definition displays_file (tree : list string) (name : string) : bool :=
  existsb (fun l => line_name l =? name) tree.

(** The lines of a report before its file blocks. *)
Definition preamble (tree : list string) : list string :=
  (["====================================";
    "PROJECT STRUCTURE AND CONTENTS";
    "====================================";
    "";
    "PROJECT STRUCTURE:";
    "=================="]
   ++ tree
   ++ [""; "FILE CONTENTS:"; "=============="; ""])%list.

(** The block of one file: what a pass of the loop adds. *)
Definition fileBlock (cwd : node) (config : Config) (filePath : string) : list string :=
  processFile cwd config [] filePath.

(** The five lines of a block whose middle line is [body]. *)
Definition block_lines (filePath body : string) : list string :=
  ["FILE: " ++ filePath; separator; body; ""; ""].

(** A report with tree [tree] and a block for each of [files]. *)
Definition report_of (cwd : node) (config : Config)
           (tree files : list string) : string :=
  JS.Array_join (preamble tree ++ flat_map (fileBlock cwd config) files)%list LF.

(** Drop the last [k] characters. *)
Definition drop_right (k : nat) (s : string) : string :=
  substring 0 (String.length s - k) s.

(** A block as it stands in the report, without its [FILE:] line, its
    separator line and its two closing blank lines. *)
Definition stripBlock (filePath block : string) : string :=
  drop_right (String.length (LF ++ LF))
    (drop (String.length ("FILE: " ++ filePath ++ LF ++ separator ++ LF)) block).

(** What a predicate answers, a thrown exception counting as a no. *)
Definition holds {A : Type} (pred : A -> result bool) (x : A) : bool :=
  match pred x with
  | Ok b => b
  | Throw _ => false
  end.




(** The entries [generateTree] keeps as files and as directories. *)
Definition eligible_file (n : node) (config : Config) (__filename f : string) : bool :=
  match in_dir n f statSync with
  | Ok stat => isFile stat
               && negb (JS.Array_includes (excludeFiles config) f)
               && negb (f =? Path.basename __filename)
  | Throw _ => false
  end.

Definition eligible_dir (n : node) (config : Config) (f : string) : bool :=
  match in_dir n f statSync with
  | Ok stat => isDirectory stat && negb (JS.Array_includes (excludeDirs config) f)
  | Throw _ => false
  end.

(** Run the parts in order and append what they return. *)
Fixpoint append_all {A : Type} (parts : list (result (list A))) : result (list A) :=
  match parts with
  | [] => Ok []
  | part :: parts' =>
      x <- part ;;
      rest <- append_all parts' ;;
      Ok (x ++ rest)%list
  end.


Definition is_directory (n : node) : bool :=
  match n with
  | Dir _ | DirUnreadable _ => true
  | File _ _ | Unstatable _ => false
  end.

(** What a read returns once the path has led to [n]. *)
Definition read_node (n : node) : result string :=
  match n with
  | File _ data => data
  | Dir _ | DirUnreadable _ => Throw "EISDIR: illegal operation on a directory, read"
  | Unstatable e => Throw e
  end.

(** An entry that is not an excluded directory: not a directory, or a
    directory whose name is not one of [excludeDirs]. *)
Definition kept (config : Config) (e : string * node) : bool :=
  negb (is_directory (snd e)
        && (if in_dec string_dec (fst e) (excludeDirs config) then true else false)).

(** The tree without its excluded directories. *)
Fixpoint prune (config : Config) (n : node) : node :=
  match n with
  | Dir entries =>
      Dir ((fix go (es : list (string * node)) : list (string * node) :=
              match es with
              | [] => []
              | (name, child) :: es' =>
                  if kept config (name, child)
                  then (name, prune config child) :: go es'
                  else go es'
              end) entries)
  | _ => n
  end.

(** [Enters config n segs m]: the names [segs] lead from the directory
    [n] down to the entry [m], and no directory on the way is called by
    a name of [excludeDirs]; nor is [m], when it is a directory. *)
Inductive Enters (config : Config) : node -> list string -> node -> Prop :=
| enters_entry : forall entries name child,
    lookup name entries = Some child ->
    (is_directory child = true -> ~ In name (excludeDirs config)) ->
    Enters config (Dir entries) [name] child
| enters_below : forall entries name child rest m,
    lookup name entries = Some child ->
    is_directory child = true ->
    ~ In name (excludeDirs config) ->
    Enters config child rest m ->
    Enters config (Dir entries) (name :: rest) m.

(** No directory lists a name twice. *)
Fixpoint unique_names (n : node) : Prop :=
  match n with
  | Dir entries =>
      NoDup (map fst entries)
      /\ (fix all (es : list (string * node)) : Prop :=
            match es with
            | [] => True
            | (_, child) :: es' => unique_names child /\ all es'
            end) entries
  | _ => True
  end.



(* ================================================================= *)
(** ** Vocabulary of the further properties *)

(** The call returned. *)
Definition is_ok {A : Type} (r : result A) : bool :=
  match r with
  | Ok _ => true
  | Throw _ => false
  end.

(** The entry called [name] can be examined and, when it is a directory
    whose name is not excluded, [below] holds of it. *)
Definition entry_passes (below : node -> bool) (config : Config) (name : string)
  : list (string * node) -> bool :=
  fix find (entries : list (string * node)) : bool :=
    match entries with
    | [] => false
    | (n, child) :: entries' =>
        if n =? name then
          match statSync child with
          | Ok stat =>
              if isDirectory stat && negb (JS.Array_includes (excludeDirs config) name)
              then below child
              else true
          | Throw _ => false
          end
        else find entries'
    end.

(** A traversal that starts at [n] and goes into the directories whose
    name is not excluded meets no failure: [n] can be listed, each of
    its entries can be examined, and the same holds of each directory
    the traversal goes into. *)
Fixpoint traversable (config : Config) (n : node) : bool :=
  match n with
  | Dir entries =>
      forallb (fun name => entry_passes (fun child => traversable config child)
                             config name entries)
        (map fst entries)
  | _ => false
  end.

(** The same for one entry, found by its name. *)
Definition entry_ok (config : Config) (entries : list (string * node)) (name : string)
  : bool :=
  match lookup name entries with
  | Some child =>
      match statSync child with
      | Ok stat =>
          if isDirectory stat && negb (JS.Array_includes (excludeDirs config) name)
          then traversable config child
          else true
      | Throw _ => false
      end
  | None => false
  end.

(** The names [segs] are a chain of entries that leads from [n], through
    directories whose names are not excluded, to an entry that is not a
    directory. *)
Fixpoint collectable (config : Config) (n : node) (segs : list string) : Prop :=
  match segs with
  | [] => False
  | name :: rest =>
      match n with
      | Dir entries =>
          match lookup name entries with
          | Some child =>
              match rest with
              | [] => exists regular data, child = File regular data
              | _ :: _ => is_directory child = true
                          /\ JS.Array_includes (excludeDirs config) name = false
                          /\ collectable config child rest
              end
          | None => False
          end
      | _ => False
      end
  end.

(** [displayed_in config __filename n prefix lines segs]: in [lines],
    the lines of the directory [n] under [prefix], the entry at the end
    of the chain [segs] has its line.  When the chain has one name, that
    is the line of the entry of [n] called by it.  Otherwise [lines]
    holds the line of the directory the chain starts with, followed at
    once by the lines of that directory under the extended prefix, in
    which the rest of the chain has its line. *)
Fixpoint displayed_in (config : Config) (__filename : string) (n : node)
         (prefix : string) (lines : list string) (segs : list string)
         {struct segs} : Prop :=
  match segs with
  | [] => False
  | name :: rest =>
      match rest with
      | [] =>
          exists isLast : bool,
            In (prefix ++ (if isLast then "└── " else "├── ") ++ name) lines
      | _ :: _ =>
          match n with
          | Dir entries =>
              match lookup name entries with
              | Some child =>
                  exists (isLast : bool) (before sub after : list string),
                    lines
                    = List.app before
                        ((prefix ++ (if isLast then "└── " else "├── ") ++ name ++ "/")
                           :: List.app sub after)
                    /\ generateTree child
                         (prefix ++ (if isLast then "    " else "│   "))
                         config __filename
                       = Ok sub
                    /\ displayed_in config __filename child
                         (prefix ++ (if isLast then "    " else "│   ")) sub rest
              | None => False
              end
          | _ => False
          end
      end
  end.

(** [s] has a dot in it. *)
Fixpoint has_dot (s : string) : bool :=
  match s with
  | EmptyString => false
  | String c s' => Ascii.eqb c Path.dot || has_dot s'
  end.

(** [n'] lists what [n] lists, directory by directory: the same names,
    each leading to the same content, in whatever order. *)
Inductive same_content : node -> node -> Prop :=
| same_node : forall n, same_content n n
| same_dir : forall entries entries',
    Permutation (map fst entries) (map fst entries') ->
    (forall name child child',
        lookup name entries = Some child ->
        lookup name entries' = Some child' ->
        same_content child child') ->
    same_content (Dir entries) (Dir entries').

(** A character from U+10000 on sorts before one in U+E000..U+FFFF, as
    its first code unit is a surrogate. *)
Example sort_code_units :
  JS.Array_sort ["ﬁ.txt"; "😀.txt"; "z.txt"; "é.txt"] = ["z.txt"; "é.txt"; "😀.txt"; "ﬁ.txt"].
Proof. reflexivity. Qed.

Example path_join_root : Path.join "." "a.txt" = "a.txt".
Proof. reflexivity. Qed.
Example path_join_sub : Path.join "sub/x" "a.txt" = "sub/x/a.txt".
Proof. reflexivity. Qed.
Example extname_1 : map Path.extname ["index.html"; "index.coffee.md"; "index."; "index"; ".index"; ".index.md"; ".."; "a/b.d/c"; "a/x.TXT/"; "..."]
   = [".html"; ".md"; "."; ""; ""; ".md"; ""; ""; ".TXT"; "."].
Proof. reflexivity. Qed.
Example basename_1 : map Path.basename ["/foo/bar/baz/asdf/quux.html"; "/"; "a//"; ""] = ["quux.html"; ""; "a"; ""].
Proof. reflexivity. Qed.
Example sort_1 : JS.Array_sort ["b"; "a"; "B"; "ab"; ""] = [""; "B"; "a"; "ab"; "b"].
Proof. reflexivity. Qed.
Example normalize_1 : map Path.normalize ["/foo/bar//baz/asdf/quux/.."; "a/../../b"; "./"; "a/./b/"; "../.."; "/.."] = ["/foo/bar/baz/asdf"; "../b"; "./"; "a/b/"; "../.."; "/"].
Proof. reflexivity. Qed.

Example line_name_1 :
  map line_name ["├── a.txt"; "│       └── sub/"; "    │   ├──     x"; "plain"]
  = ["a.txt"; "sub/"; "    x"; "plain"].
Proof. reflexivity. Qed.

(* ================================================================= *)
(** ** Exceptions and loops *)

Lemma bind_Ok {A B : Type} (r : result A) (k : A -> result B) (b : B) :
  bind r k = Ok b -> exists a, r = Ok a /\ k a = Ok b.
Proof.
  destruct r as [a | e]; simpl; intros H; [ eauto | discriminate ].
Qed.

Lemma Array_filter_Ok {A : Type} (pred : A -> result bool) (arr kept : list A) :
  JS.Array_filter pred arr = Ok kept -> kept = filter (holds pred) arr.
Proof.
  revert kept. induction arr as [| x arr IH]; simpl; intros kept H.
  - now inversion H.
  - unfold holds at 1. destruct (pred x) as [b | e]; simpl in H; [| discriminate].
    destruct (JS.Array_filter pred arr) as [rest | e]; simpl in H; [| discriminate].
    inversion H; subst. rewrite (IH rest eq_refl). reflexivity.
Qed.

Lemma filter_ext_in' {A : Type} (p q : A -> bool) (l : list A) :
  (forall x, In x l -> p x = q x) -> filter p l = filter q l.
Proof.
  induction l as [| x l IH]; simpl; intros H; [reflexivity |].
  rewrite (H x (or_introl eq_refl)), IH; auto.
Qed.

Lemma forEach_ext {A S : Type} (f g : S -> A -> Z -> result S) (arr : list A) :
  (forall st x i, In x arr -> f st x i = g st x i) ->
  forall from st, JS.forEach f from arr st = JS.forEach g from arr st.
Proof.
  induction arr as [| x arr IH]; simpl; intros H from st; [reflexivity |].
  rewrite H by now left. destruct (g st x from); simpl; auto.
Qed.




(* ================================================================= *)
(** ** Sorting *)

Lemma unit_rank_injective (a b : ascii) : JS.unit_rank a = JS.unit_rank b -> a = b.
Proof.
  unfold JS.unit_rank. cbv zeta. intros H.
  rewrite <- (ascii_N_embedding a), <- (ascii_N_embedding b). f_equal.
  pose proof (N_ascii_bounded a) as Ha. pose proof (N_ascii_bounded b) as Hb.
  destruct ((N_of_ascii a =? 238) || (N_of_ascii a =? 239))%N eqn:Ea;
    destruct ((N_of_ascii b =? 238) || (N_of_ascii b =? 239))%N eqn:Eb; lia.
Qed.

Lemma compare_units_flip (a b : string) :
  JS.compare_units a b = CompOpp (JS.compare_units b a).
Proof.
  revert b. induction a as [| x a IH]; intros [| y b]; cbn [JS.compare_units];
    try reflexivity.
  rewrite (N.compare_antisym (JS.unit_rank x) (JS.unit_rank y)).
  destruct (N.compare (JS.unit_rank x) (JS.unit_rank y)); cbn [CompOpp];
    [apply IH | reflexivity | reflexivity].
Qed.

Lemma compare_units_Eq (a b : string) : JS.compare_units a b = Eq -> a = b.
Proof.
  revert b. induction a as [| x a IH]; intros [| y b]; cbn [JS.compare_units];
    try discriminate; [reflexivity |].
  destruct (N.compare (JS.unit_rank x) (JS.unit_rank y)) eqn:E; try discriminate.
  intros H. apply N.compare_eq_iff, unit_rank_injective in E. subst y.
  now rewrite (IH b H).
Qed.

Lemma units_leb_total (a b : string) :
  JS.units_leb a b = true \/ JS.units_leb b a = true.
Proof.
  unfold JS.units_leb. rewrite (compare_units_flip b a).
  destruct (JS.compare_units a b); cbn [CompOpp]; auto.
Qed.

Lemma units_leb_antisym (a b : string) :
  JS.units_leb a b = true -> JS.units_leb b a = true -> a = b.
Proof.
  unfold JS.units_leb. rewrite (compare_units_flip b a).
  destruct (JS.compare_units a b) eqn:E; cbn [CompOpp]; try discriminate.
  intros _ _. now apply compare_units_Eq.
Qed.

Lemma units_leb_trans (a b c : string) :
  JS.units_leb a b = true -> JS.units_leb b c = true -> JS.units_leb a c = true.
Proof.
  unfold JS.units_leb. revert b c.
  induction a as [| x a IH]; intros [| y b] [| z c]; cbn [JS.compare_units];
    try (intros; reflexivity); try (intros; discriminate).
  destruct (N.compare (JS.unit_rank x) (JS.unit_rank y)) eqn:Exy;
    destruct (N.compare (JS.unit_rank y) (JS.unit_rank z)) eqn:Eyz;
    try (intros; discriminate).
  - apply N.compare_eq_iff in Exy, Eyz. rewrite Exy, Eyz, N.compare_refl. apply IH.
  - apply N.compare_eq_iff in Exy. now rewrite Exy, Eyz.
  - apply N.compare_eq_iff in Eyz. now rewrite <- Eyz, Exy.
  - rewrite N.compare_lt_iff in Exy, Eyz.
    assert (E : N.compare (JS.unit_rank x) (JS.unit_rank z) = Lt)
      by (apply N.compare_lt_iff; lia).
    now rewrite E.
Qed.

Lemma insert_sorted_perm (x : string) (l : list string) :
  Permutation (JS.insert_sorted x l) (x :: l).
Proof.
  induction l as [| y l IH]; simpl; [reflexivity |].
  destruct (JS.units_leb x y); [reflexivity |].
  rewrite IH. apply perm_swap.
Qed.

Lemma Array_sort_perm (l : list string) : Permutation (JS.Array_sort l) l.
Proof.
  induction l as [| x l IH]; simpl; [reflexivity |].
  rewrite insert_sorted_perm. now constructor.
Qed.




Lemma Array_sort_In (l : list string) (x : string) :
  In x (JS.Array_sort l) <-> In x l.
Proof.
  split; apply Permutation_in; [| symmetry]; apply Array_sort_perm.
Qed.

(* ================================================================= *)
(** ** The tree renderer *)

Lemma forEach_push {A B : Type} (f : A -> Z -> B) (arr : list A) :
  forall from st,
    JS.forEach (fun st x i => Ok (JS.push st (f x i))) from arr st
    = Ok (st ++ JS.map_indexed f from arr)%list.
Proof.
  induction arr as [| x arr IH]; simpl; intros from st.
  - now rewrite app_nil_r.
  - rewrite IH. unfold JS.push. now rewrite <- app_assoc.
Qed.

Lemma forEach_push_sub {A B : Type} (h : A -> Z -> B) (r : A -> Z -> result (list B))
      (arr : list A) :
  forall from st,
    JS.forEach (fun st x i =>
                  let st := JS.push st (h x i) in
                  sub <- r x i ;; Ok (st ++ sub)%list) from arr st
    = (rest <- append_all
                 (JS.map_indexed (fun x i => sub <- r x i ;; Ok (h x i :: sub)) from arr) ;;
       Ok (st ++ rest)%list).
Proof.
  induction arr as [| x arr IH]; simpl; intros from st.
  - now rewrite app_nil_r.
  - destruct (r x from) as [sub | e]; simpl; [| reflexivity].
    rewrite IH.
    destruct (append_all _) as [rest | e]; simpl; [| reflexivity].
    unfold JS.push. now rewrite <- !app_assoc.
Qed.


Lemma generateTree_Dir (entries : list (string * node)) (prefix : string)
      (config : Config) (__filename : string) :
  generateTree (Dir entries) prefix config __filename
  = generateTree_body (map fst entries)
      (fun f => in_dir (Dir entries) f statSync)
      (fun dirName prefix' =>
         in_dir (Dir entries) dirName
           (fun child => generateTree child prefix' config __filename))
      prefix config __filename.
Proof. reflexivity. Qed.

Lemma holds_eligible_dir (n : node) (config : Config) (f : string) :
  holds (fun f => stat <- in_dir n f statSync ;;
                  Ok (isDirectory stat && negb (JS.Array_includes (excludeDirs config) f)))
        f
  = eligible_dir n config f.
Proof.
  unfold holds, eligible_dir. destruct (in_dir n f statSync); reflexivity.
Qed.

Lemma holds_eligible_file (n : node) (config : Config) (__filename f : string) :
  holds (fun f => stat <- in_dir n f statSync ;;
                  Ok (isFile stat
                      && negb (JS.Array_includes (excludeFiles config) f)
                      && negb (f =? Path.basename __filename)))
        f
  = eligible_file n config __filename f.
Proof.
  unfold holds, eligible_file. destruct (in_dir n f statSync); reflexivity.
Qed.

(** The renderer on a directory, loops unrolled: the kept files, then
    the kept directories, each followed by its own tree. *)
Lemma generateTree_Dir_Ok (entries : list (string * node)) (prefix : string)
      (config : Config) (__filename : string) (lines : list string) :
  generateTree (Dir entries) prefix config __filename = Ok lines ->
  let n := Dir entries in
  let fileNames :=
    JS.Array_sort (filter (eligible_file n config __filename) (map fst entries)) in
  let dirs := JS.Array_sort (filter (eligible_dir n config) (map fst entries)) in
  exists below,
    append_all
      (JS.map_indexed
         (fun dirName index =>
            let isLast := (index =? Z.of_nat (List.length dirs) - 1)%Z in
            sub <- in_dir n dirName
                     (fun child =>
                        generateTree child (prefix ++ indent isLast) config __filename) ;;
            Ok ((prefix ++ branch isLast ++ dirName ++ "/") :: sub))
         0%Z dirs) = Ok below
    /\ lines =
       List.app
         (JS.map_indexed
            (fun file index =>
               prefix ++ branch ((index =? Z.of_nat (List.length fileNames) - 1)%Z
                                 && (Z.of_nat (List.length dirs) =? 0)%Z) ++ file)
            0%Z fileNames)
         below.
Proof.
  intros H n fileNames dirs. rewrite generateTree_Dir in H.
  unfold generateTree_body in H.
  apply bind_Ok in H. destruct H as (dirs0 & Hd & H).
  apply bind_Ok in H. destruct H as (files0 & Hf & H).
  apply Array_filter_Ok in Hd, Hf.
  rewrite (filter_ext_in' _ _ _ (fun f _ => holds_eligible_dir (Dir entries) config f)) in Hd.
  rewrite (filter_ext_in' _ _ _
             (fun f _ => holds_eligible_file (Dir entries) config __filename f)) in Hf.
  subst dirs0 files0. fold n in H. fold fileNames in H. fold dirs in H.
  rewrite forEach_push in H. simpl in H.
  rewrite forEach_push_sub in H.
  apply bind_Ok in H. destruct H as (lines2 & H & E). inversion E; subst lines2; clear E.
  apply bind_Ok in H. destruct H as (below & Hb & E). inversion E; subst lines; clear E.
  exists below. split; [exact Hb | reflexivity].
Qed.



(* ================================================================= *)
(** ** Strings *)

Lemma append_empty_r (s : string) : s ++ "" = s.
Proof. induction s as [| c s IH]; simpl; [reflexivity | now rewrite IH]. Qed.

Lemma append_associative (s t u : string) : (s ++ t) ++ u = s ++ (t ++ u).
Proof. induction s as [| c s IH]; simpl; [reflexivity | now rewrite IH]. Qed.

Lemma length_append (s t : string) :
  String.length (s ++ t) = String.length s + String.length t.
Proof. induction s as [| c s IH]; simpl; [reflexivity | now rewrite IH]. Qed.

Lemma prefix_empty (s : string) : prefix "" s = true.
Proof. destruct s; reflexivity. Qed.

Lemma prefix_append (u s : string) : prefix u (u ++ s) = true.
Proof.
  induction u as [| c u IH]; simpl; [apply prefix_empty |].
  destruct (ascii_dec c c) as [_ | N]; [exact IH | now elim N].
Qed.

Lemma drop_append (u s : string) : drop (String.length u) (u ++ s) = s.
Proof. induction u as [| c u IH]; simpl; [reflexivity | exact IH]. Qed.

Lemma substring_append (s t : string) : substring 0 (String.length s) (s ++ t) = s.
Proof.
  induction s as [| c s IH]; simpl; [now destruct t | now rewrite IH].
Qed.

Lemma drop_right_append (s t : string) : drop_right (String.length t) (s ++ t) = s.
Proof.
  unfold drop_right. rewrite length_append.
  replace (String.length s + String.length t - String.length t) with (String.length s)
    by lia.
  apply substring_append.
Qed.

Lemma String_includes_prefix (s sub : string) :
  prefix sub s = true -> JS.String_includes s sub = true.
Proof. intros H. destruct s; cbn [JS.String_includes]; now rewrite H. Qed.

Lemma String_includes_append (pre sub post : string) :
  JS.String_includes (pre ++ sub ++ post) sub = true.
Proof.
  induction pre as [| c pre IH].
  - apply String_includes_prefix. apply (prefix_append sub post).
  - change (JS.String_includes (String c (pre ++ sub ++ post)) sub = true).
    cbn [JS.String_includes]. rewrite IH. apply orb_true_r.
Qed.

(** Joining lines keeps every run of lines in one piece. *)
Lemma concat_keeps_front (sep : string) (block rest : list string) :
  exists after, String.concat sep (block ++ rest) = String.concat sep block ++ after.
Proof.
  induction block as [| x block IH]; simpl.
  - now exists (String.concat sep rest).
  - destruct IH as (after & IH). destruct block as [| y block]; simpl in *.
    + destruct rest as [| z rest].
      * exists "". now rewrite append_empty_r.
      * now exists (sep ++ String.concat sep (z :: rest)).
    + exists after. rewrite IH. now rewrite !append_associative.
Qed.

Lemma concat_keeps (sep : string) (front block rest : list string) :
  exists before after,
    String.concat sep (front ++ block ++ rest)
    = before ++ String.concat sep block ++ after.
Proof.
  induction front as [| x front IH]; simpl.
  - destruct (concat_keeps_front sep block rest) as (after & E).
    exists "", after. exact E.
  - destruct IH as (before & after & IH).
    destruct (front ++ block ++ rest)%list as [| y l] eqn:E.
    + apply app_eq_nil in E. destruct E as (_ & E). apply app_eq_nil in E.
      destruct E as (-> & _). exists x, "". simpl. now rewrite append_empty_r.
    + exists (x ++ sep ++ before), after. rewrite IH. now rewrite !append_associative.
Qed.

(* ================================================================= *)
(** ** The report assembler *)

Lemma processFile_block (cwd : node) (config : Config) (output : list string)
      (filePath : string) :
  processFile cwd config output filePath
  = (output ++ fileBlock cwd config filePath)%list.
Proof.
  unfold fileBlock, processFile, JS.push.
  destruct (getFileType filePath config); simpl.
  - destruct (readFileSync cwd filePath); simpl; now rewrite <- !app_assoc.
  - now rewrite <- !app_assoc.
Qed.

Lemma fold_processFile (cwd : node) (config : Config) (files output : list string) :
  fold_left (processFile cwd config) files output
  = (output ++ flat_map (fileBlock cwd config) files)%list.
Proof.
  revert output. induction files as [| f files IH]; simpl; intros output.
  - now rewrite app_nil_r.
  - rewrite IH, processFile_block. now rewrite <- app_assoc.
Qed.

(** The assembler, loops unrolled. *)
Lemma generateStructure_unrolled (cwd : node) (options : Options) (__filename : string) :
  generateStructure cwd options __filename
  = (let config := spread DEFAULT_CONFIG options in
     tree <- generateTree cwd "" config __filename ;;
     all <- getAllFiles cwd "." [] config ;;
     Ok (report_of cwd config tree (selectFiles all config __filename))).
Proof.
  unfold generateStructure. cbv zeta.
  destruct (generateTree cwd "" _ __filename) as [tree | e]; simpl; [| reflexivity].
  destruct (getAllFiles cwd "." [] _) as [all | e]; simpl; [| reflexivity].
  rewrite fold_processFile. unfold report_of, preamble, JS.push. simpl.
  now rewrite <- !app_assoc.
Qed.

Lemma generateStructure_Ok (cwd : node) (options : Options) (__filename report : string) :
  generateStructure cwd options __filename = Ok report ->
  let config := spread DEFAULT_CONFIG options in
  exists tree all,
    generateTree cwd "" config __filename = Ok tree
    /\ getAllFiles cwd "." [] config = Ok all
    /\ report = report_of cwd config tree (selectFiles all config __filename).
Proof.
  rewrite generateStructure_unrolled. cbv zeta. intros H.
  apply bind_Ok in H. destruct H as (tree & Ht & H).
  apply bind_Ok in H. destruct H as (all & Ha & H).
  inversion H. now exists tree, all.
Qed.

(** Take a returned report apart: its tree, its collected files. *)
Tactic Notation "report_parts" hyp(H) "as" ident(tree) ident(all) ident(Ht) ident(Ha) :=
  apply generateStructure_Ok in H; cbv zeta in H;
  destruct H as (tree & all & Ht & Ha & ->).


Lemma fileBlock_text (cwd : node) (config : Config) (filePath content : string) :
  getFileType filePath config = text ->
  readFileSync cwd filePath = Ok content ->
  fileBlock cwd config filePath = block_lines filePath content.
Proof. unfold fileBlock, processFile. now intros -> ->. Qed.

Lemma fileBlock_error (cwd : node) (config : Config) (filePath message : string) :
  getFileType filePath config = text ->
  readFileSync cwd filePath = Throw message ->
  fileBlock cwd config filePath
  = block_lines filePath ("[ERROR READING FILE: " ++ message ++ "]").
Proof. unfold fileBlock, processFile. now intros -> ->. Qed.

Lemma Array_includes_In (arr : list string) (x : string) :
  JS.Array_includes arr x = true <-> In x arr.
Proof.
  unfold JS.Array_includes. rewrite existsb_exists. split.
  - intros (y & Hy & E). apply String.eqb_eq in E. now subst.
  - intros H. exists x. split; [exact H | apply String.eqb_refl].
Qed.

Lemma not_includes_In (arr : list string) (x : string) :
  JS.Array_includes arr x = false <-> ~ In x arr.
Proof.
  rewrite <- Array_includes_In. now destruct (JS.Array_includes arr x).
Qed.

Lemma stripBlock_block (filePath content : string) :
  stripBlock filePath (JS.Array_join (block_lines filePath content) LF) = content.
Proof.
  unfold stripBlock, JS.Array_join, block_lines. cbn [String.concat].
  replace (("FILE: " ++ filePath) ++ LF ++ separator ++ LF ++ content ++ LF ++ "" ++ LF ++ "")
    with (("FILE: " ++ filePath ++ LF ++ separator ++ LF) ++ content ++ (LF ++ LF)).
  - rewrite drop_append. apply drop_right_append.
  - rewrite !append_associative. reflexivity.
Qed.




Lemma report_keeps_block (cwd : node) (config : Config) (tree files : list string)
      (filePath : string) :
  In filePath files ->
  exists before after,
    report_of cwd config tree files
    = before ++ JS.Array_join (fileBlock cwd config filePath) LF ++ after.
Proof.
  intros Hin. apply in_split in Hin. destruct Hin as (l1 & l2 & ->).
  unfold report_of, JS.Array_join.
  rewrite flat_map_app. cbn [flat_map].
  rewrite (app_assoc (preamble tree)).
  apply concat_keeps.
Qed.

(* ================================================================= *)
(** ** Reading tree lines back *)

Lemma indentation_app (levels : list bool) (isLast : bool) :
  indentation (levels ++ [isLast]) = indentation levels ++ indent isLast.
Proof.
  induction levels as [| b levels IH]; simpl.
  - apply append_empty_r.
  - now rewrite IH, append_associative.
Qed.

Lemma prefix_indent_branch (i b : bool) (s : string) :
  prefix (indent i) (branch b ++ s) = false.
Proof. destruct i, b; reflexivity. Qed.

Lemma prefix_indent_other (s : string) : prefix (indent true) (indent false ++ s) = false.
Proof. reflexivity. Qed.

Lemma prefix_branch_other (s : string) : prefix (branch true) (branch false ++ s) = false.
Proof. reflexivity. Qed.

Lemma line_name_from_line (levels : list bool) (isLast : bool) (name : string) :
  forall fuel,
    List.length levels < fuel ->
    line_name_from fuel (indentation levels ++ branch isLast ++ name) = name.
Proof.
  induction levels as [| b levels IH]; intros fuel Hfuel;
    (destruct fuel as [| fuel]; [inversion Hfuel |]); cbn [line_name_from indentation].
  - change ("" ++ branch isLast ++ name) with (branch isLast ++ name).
    rewrite !prefix_indent_branch.
    destruct isLast.
    + rewrite prefix_append. apply drop_append.
    + rewrite prefix_branch_other, prefix_append. apply drop_append.
  - rewrite append_associative. simpl List.length in Hfuel.
    destruct b.
    + rewrite prefix_append, drop_append. apply IH. lia.
    + rewrite prefix_indent_other, prefix_append, drop_append. apply IH. lia.
Qed.

Lemma indentation_length (levels : list bool) :
  List.length levels <= String.length (indentation levels).
Proof.
  induction levels as [| b levels IH]; simpl; [lia |].
  rewrite length_append. destruct b; simpl; lia.
Qed.

Lemma line_name_line (levels : list bool) (isLast : bool) (name : string) :
  line_name (indentation levels ++ branch isLast ++ name) = name.
Proof.
  unfold line_name. apply line_name_from_line.
  rewrite !length_append. pose proof (indentation_length levels).
  destruct isLast; simpl; lia.
Qed.

(* ================================================================= *)
(** ** Paths *)

Lemma split_no_slash (p : string) :
  Forall (fun seg => has_slash seg = false) (Path.split p).
Proof.
  induction p as [| c p IH]; simpl.
  - repeat constructor.
  - destruct (Ascii.eqb c Path.slash) eqn:E.
    + constructor; [reflexivity | exact IH].
    + destruct (Path.split p) as [| seg segs].
      * constructor; [simpl; now rewrite E | constructor].
      * inversion IH; subst. constructor; [simpl; now rewrite E | assumption].
Qed.

Lemma last_Forall {A : Type} (P : A -> Prop) (l : list A) (d : A) :
  Forall P l -> P d -> P (last l d).
Proof.
  induction 1 as [| x l Hx Hl IH]; intros Hd; [exact Hd |].
  simpl. destruct l; [exact Hx | now apply IH].
Qed.

Lemma Forall_filter_keep {A : Type} (P : A -> Prop) (f : A -> bool) (l : list A) :
  Forall P l -> Forall P (filter f l).
Proof.
  induction 1 as [| x l Hx Hl IH]; simpl; [constructor |].
  destruct (f x); [now constructor | exact IH].
Qed.

Lemma basename_no_slash (p : string) : has_slash (Path.basename p) = false.
Proof.
  unfold Path.basename.
  apply (last_Forall (fun seg => has_slash seg = false)); [| reflexivity].
  apply Forall_filter_keep, split_no_slash.
Qed.

Lemma has_slash_append (s t : string) : has_slash (s ++ t) = has_slash s || has_slash t.
Proof.
  induction s as [| c s IH]; simpl; [reflexivity |].
  now rewrite IH, orb_assoc.
Qed.

Lemma basename_not_dir_label (p dirName : string) : dirName ++ "/" <> Path.basename p.
Proof.
  intros E. pose proof (basename_no_slash p) as H.
  rewrite <- E, has_slash_append in H. simpl in H.
  rewrite orb_true_r in H. discriminate.
Qed.

(* ================================================================= *)
(** ** Which lines the renderer produces *)

Lemma at_entry_lookup {A : Type} (k : node -> result A) (name : string)
      (entries : list (string * node)) :
  at_entry k name entries
  = match lookup name entries with
    | Some child => k child
    | None => Throw "ENOENT: no such file or directory"
    end.
Proof.
  induction entries as [| [n child] entries IH]; simpl; [reflexivity |].
  destruct (n =? name); [reflexivity | exact IH].
Qed.

Lemma lookup_In (name : string) (entries : list (string * node)) (child : node) :
  lookup name entries = Some child -> In (name, child) entries.
Proof.
  induction entries as [| [n c] entries IH]; simpl; [discriminate |].
  destruct (String.eqb_spec n name) as [-> | _]; intros H.
  - inversion H. now left.
  - right. now apply IH.
Qed.

Lemma in_dir_Ok {A : Type} (entries : list (string * node)) (name : string)
      (k : node -> result A) (a : A) :
  in_dir (Dir entries) name k = Ok a ->
  exists child, lookup name entries = Some child /\ k child = Ok a.
Proof.
  simpl. rewrite at_entry_lookup.
  destruct (lookup name entries) as [child |]; [eauto | discriminate].
Qed.

Lemma In_map_indexed {A B : Type} (f : A -> Z -> B) (arr : list A) (y : B) :
  forall from,
    In y (JS.map_indexed f from arr) -> exists x i, In x arr /\ y = f x i.
Proof.
  induction arr as [| x arr IH]; simpl; intros from H; [contradiction |].
  destruct H as [<- | H]; [now exists x, from; auto |].
  destruct (IH _ H) as (x' & i & Hin & ->). exists x', i. auto.
Qed.

Lemma map_indexed_In {A B : Type} (f : A -> Z -> B) (arr : list A) (x : A) :
  forall from, In x arr -> exists i, In (f x i) (JS.map_indexed f from arr).
Proof.
  induction arr as [| y arr IH]; simpl; intros from H; [contradiction |].
  destruct H as [-> | H]; [exists from; now left |].
  destruct (IH (from + 1)%Z H) as (i & Hi). exists i. now right.
Qed.

Lemma append_all_In {A : Type} (parts : list (result (list A))) (all : list A) (y : A) :
  append_all parts = Ok all -> In y all ->
  exists part, In (Ok part) parts /\ In y part.
Proof.
  revert all. induction parts as [| p parts IH]; simpl; intros all H Hy.
  - inversion H; subst. contradiction.
  - apply bind_Ok in H. destruct H as (x & -> & H).
    apply bind_Ok in H. destruct H as (rest & Hrest & H).
    inversion H; subst. apply in_app_or in Hy. destruct Hy as [Hy | Hy].
    + exists x. auto.
    + destruct (IH rest Hrest Hy) as (part & Hp & Hin). exists part. auto.
Qed.

Lemma eligible_file_not_self (n : node) (config : Config) (__filename f : string) :
  eligible_file n config __filename f = true -> f <> Path.basename __filename.
Proof.
  unfold eligible_file. destruct (in_dir n f statSync); [| discriminate].
  intros H. apply andb_true_iff in H. destruct H as (_ & H).
  apply negb_true_iff, String.eqb_neq in H. exact H.
Qed.

(** Every line of a tree is the line of a child that is not called as
    the program's own file. *)
Lemma generateTree_lines (config : Config) (__filename : string) (n : node) :
  forall levels lines,
    generateTree n (indentation levels) config __filename = Ok lines ->
    Forall (line_of_other __filename) lines.
Proof.
  induction n as [regular data | entries IH | e | e] using node_ind;
    intros levels lines H; try discriminate.
  apply generateTree_Dir_Ok in H. cbv zeta in H.
  destruct H as (below & Hb & ->).
  apply Forall_app. split; apply Forall_forall; intros l Hl.
  - apply In_map_indexed in Hl. destruct Hl as (file & i & Hin & ->).
    apply Array_sort_In, filter_In in Hin. destruct Hin as (_ & Hel).
    eexists levels, _, file. split; [reflexivity |].
    now apply eligible_file_not_self in Hel.
  - destruct (append_all_In _ _ _ Hb Hl) as (part & Hp & Hin).
    apply In_map_indexed in Hp. destruct Hp as (dirName & i & _ & Hp).
    symmetry in Hp. apply bind_Ok in Hp. destruct Hp as (sub & Hsub & Hp).
    inversion Hp; subst part; clear Hp.
    destruct Hin as [<- | Hin].
    + eexists levels, _, (dirName ++ "/"). split; [reflexivity |].
      apply basename_not_dir_label.
    + apply in_dir_Ok in Hsub. destruct Hsub as (child & Hc & Hsub).
      apply lookup_In in Hc. rewrite Forall_forall in IH.
      specialize (IH _ Hc). simpl in IH.
      rewrite <- indentation_app in Hsub.
      specialize (IH _ _ Hsub). rewrite Forall_forall in IH. now apply IH.
Qed.

Lemma generateTree_never_self (config : Config) (__filename : string) (n : node)
      (tree : list string) :
  generateTree n "" config __filename = Ok tree ->
  forall l, In l tree -> line_name l <> Path.basename __filename.
Proof.
  intros H l Hl. apply (generateTree_lines config __filename n []) in H.
  rewrite Forall_forall in H. destruct (H l Hl) as (levels & isLast & name & -> & Hn).
  now rewrite line_name_line.
Qed.

(* ================================================================= *)
(** ** The collector and the selection of files *)

Lemma getAllFiles_Dir (entries : list (string * node)) (dir : string)
      (fileList : list string) (config : Config) :
  getAllFiles (Dir entries) dir fileList config
  = getAllFiles_body (map fst entries)
      (fun file => in_dir (Dir entries) file statSync)
      (fun file filePath fileList =>
         in_dir (Dir entries) file
           (fun child => getAllFiles child filePath fileList config))
      dir fileList config.
Proof. reflexivity. Qed.

(** What every pass of a loop preserves, the loop preserves. *)
Lemma forEach_preserves {A S : Type} (R : S -> S -> Prop)
      (body : S -> A -> Z -> result S) (arr : list A) :
  (forall st, R st st) ->
  (forall a b c, R a b -> R b c -> R a c) ->
  (forall st x i st', In x arr -> body st x i = Ok st' -> R st st') ->
  forall from st st', JS.forEach body from arr st = Ok st' -> R st st'.
Proof.
  intros Hrefl Htrans. induction arr as [| x arr IH]; simpl; intros Hstep from st st' H.
  - inversion H. apply Hrefl.
  - apply bind_Ok in H. destruct H as (st1 & H1 & H).
    apply (Htrans _ st1).
    + apply (Hstep st x from); auto.
    + apply (IH (fun st y i st' Hy => Hstep st y i st' (or_intror Hy)) _ _ _ H).
Qed.

(** A loop that returns has made the pass of each of its elements. *)
Lemma forEach_pass {A S : Type} (R : S -> S -> Prop)
      (body : S -> A -> Z -> result S) (arr : list A) (x : A) :
  (forall st, R st st) ->
  (forall a b c, R a b -> R b c -> R a c) ->
  (forall st y i st', In y arr -> body st y i = Ok st' -> R st st') ->
  In x arr ->
  forall from st st',
    JS.forEach body from arr st = Ok st' ->
    exists st1 i st2, body st1 x i = Ok st2 /\ R st2 st'.
Proof.
  intros Hrefl Htrans. induction arr as [| y arr IH]; intros Hstep Hin from st st' H;
    [contradiction |].
  simpl in H. apply bind_Ok in H. destruct H as (st1 & H1 & H).
  assert (Hstep' : forall st z i st', In z arr -> body st z i = Ok st' -> R st st')
    by (intros; eapply Hstep; [right |]; eauto).
  destruct Hin as [-> | Hin].
  - exists st, from, st1. split; [exact H1 |].
    apply (forEach_preserves R body arr Hrefl Htrans Hstep' _ _ _ H).
  - apply (IH Hstep' Hin _ _ _ H).
Qed.

(** The collector only adds to the array it is given. *)
Lemma getAllFiles_grows (config : Config) (n : node) :
  forall dir fileList out,
    getAllFiles n dir fileList config = Ok out -> incl fileList out.
Proof.
  induction n as [regular data | entries IH | e | e] using node_ind;
    intros dir fileList out H; try discriminate.
  rewrite getAllFiles_Dir in H. unfold getAllFiles_body in H.
  revert H. apply forEach_preserves.
  - apply incl_refl.
  - intros a b c. apply incl_tran.
  - intros st file i st' Hin H.
    apply bind_Ok in H. destruct H as (stat & _ & H).
    destruct (isDirectory stat).
    + destruct (negb _).
      * apply in_dir_Ok in H. destruct H as (child & Hc & H).
        apply lookup_In in Hc. rewrite Forall_forall in IH.
        apply (IH _ Hc _ _ _ H).
      * inversion H. apply incl_refl.
    + inversion H. unfold JS.push. apply incl_appl, incl_refl.
Qed.

Lemma selectFiles_In (all : list string) (config : Config) (__filename p : string) :
  In p (selectFiles all config __filename)
  <-> In p all
      /\ p <> Path.basename __filename
      /\ existsb (fun dir => JS.String_includes p dir) (excludeDirs config) = false
      /\ existsb (fun exFile => JS.String_includes p exFile) (excludeFiles config) = false.
Proof.
  unfold selectFiles. rewrite Array_sort_In, !filter_In, !negb_true_iff, String.eqb_neq.
  tauto.
Qed.

Lemma displays_file_false (tree : list string) (name : string) :
  (forall l, In l tree -> line_name l <> name) -> displays_file tree name = false.
Proof.
  intros H. unfold displays_file.
  destruct (existsb _ tree) eqn:E; [| reflexivity].
  apply existsb_exists in E. destruct E as (l & Hl & E).
  apply String.eqb_eq in E. now elim (H l Hl).
Qed.

Lemma collector_pass_grows (config : Config) (entries : list (string * node))
      (dir file : string) (st st' : list string) :
  (stat <- in_dir (Dir entries) file statSync ;;
   if isDirectory stat then
     if negb (JS.Array_includes (excludeDirs config) file)
     then in_dir (Dir entries) file
            (fun child => getAllFiles child (Path.join dir file) st config)
     else Ok st
   else Ok (JS.push st (Path.join dir file))) = Ok st' ->
  incl st st'.
Proof.
  intros H. apply bind_Ok in H. destruct H as (stat & _ & H).
  destruct (isDirectory stat).
  - destruct (negb _).
    + apply in_dir_Ok in H. destruct H as (child & _ & H).
      now apply getAllFiles_grows in H.
    + inversion H. apply incl_refl.
  - inversion H. unfold JS.push. apply incl_appl, incl_refl.
Qed.

Lemma lookup_name_In (name : string) (entries : list (string * node)) (child : node) :
  lookup name entries = Some child -> In name (map fst entries).
Proof.
  intros H. apply lookup_In in H. now apply (in_map fst) in H.
Qed.

(* ================================================================= *)
(** ** Failures of the filesystem *)




Lemma statSync_directory (n : node) :
  is_directory n = true -> statSync n = Ok (mkStats true false).
Proof. destruct n; simpl; intros H; (reflexivity || discriminate). Qed.



(* ================================================================= *)
(** ** The program's own name *)

Lemma in_dir_ext {A : Type} (entries : list (string * node)) (name : string)
      (k k' : node -> result A) :
  (forall child, In (name, child) entries -> k child = k' child) ->
  in_dir (Dir entries) name k = in_dir (Dir entries) name k'.
Proof.
  intros H. simpl. rewrite !at_entry_lookup.
  destruct (lookup name entries) as [child |] eqn:E; [| reflexivity].
  now apply H, lookup_In.
Qed.

Lemma generateTree_body_ext (files : list string) (stat : string -> result Stats)
      (recur recur' : string -> string -> result (list string))
      (prefix : string) (config : Config) (__filename : string) :
  (forall dirName prefix', In dirName files -> recur dirName prefix' = recur' dirName prefix') ->
  generateTree_body files stat recur prefix config __filename
  = generateTree_body files stat recur' prefix config __filename.
Proof.
  intros H. unfold generateTree_body.
  destruct (JS.Array_filter _ files) as [dirs |] eqn:Hd; simpl; [| reflexivity].
  destruct (JS.Array_filter _ files) as [fileNames |] eqn:Hf in |- *; simpl; [| reflexivity].
  rewrite forEach_push. simpl. f_equal.
  apply forEach_ext. intros st dirName i Hin.
  apply Array_filter_Ok in Hd. subst dirs.
  apply Array_sort_In, filter_In in Hin. destruct Hin as (Hin & _).
  cbv zeta. now rewrite H.
Qed.

(** Only the last piece of [__filename] matters to the renderer. *)
Lemma generateTree_basename (config : Config) (a b : string) (n : node) :
  Path.basename a = Path.basename b ->
  forall prefix, generateTree n prefix config a = generateTree n prefix config b.
Proof.
  intros E. induction n as [regular data | entries IH | e | e] using node_ind;
    intros prefix; try reflexivity.
  rewrite !generateTree_Dir.
  transitivity
    (generateTree_body (map fst entries) (fun f => in_dir (Dir entries) f statSync)
       (fun dirName prefix' =>
          in_dir (Dir entries) dirName (fun child => generateTree child prefix' config b))
       prefix config a).
  - apply generateTree_body_ext. intros dirName prefix' _.
    apply in_dir_ext. intros child Hc. rewrite Forall_forall in IH.
    apply (IH _ Hc).
  - unfold generateTree_body. now rewrite E.
Qed.

Lemma generateStructure_basename (cwd : node) (options : Options) (a b : string) :
  Path.basename a = Path.basename b ->
  generateStructure cwd options a = generateStructure cwd options b.
Proof.
  intros E. rewrite !generateStructure_unrolled. cbv zeta.
  rewrite (generateTree_basename _ a b cwd E). unfold selectFiles. now rewrite E.
Qed.

(* ================================================================= *)
(** ** Excluded directories *)

(** The program's test of a name against [excludeDirs] decides what is
    kept. *)
Lemma kept_includes (config : Config) (e : string * node) :
  kept config e
  = negb (is_directory (snd e) && JS.Array_includes (excludeDirs config) (fst e)).
Proof.
  unfold kept. destruct (in_dec string_dec (fst e) (excludeDirs config)) as [Hin | Hout].
  - apply Array_includes_In in Hin. now rewrite Hin.
  - apply not_includes_In in Hout. now rewrite Hout.
Qed.

Lemma prune_Dir (config : Config) (entries : list (string * node)) :
  prune config (Dir entries)
  = Dir (map (fun e => (fst e, prune config (snd e))) (filter (kept config) entries)).
Proof.
  cbn [prune]. f_equal.
  induction entries as [| [name child] entries IH]; [reflexivity |].
  cbn [filter]. destruct (kept config (name, child)); [cbn [map fst snd] |]; now rewrite IH.
Qed.

Lemma unique_names_Dir (entries : list (string * node)) :
  unique_names (Dir entries)
  <-> NoDup (map fst entries) /\ Forall (fun e => unique_names (snd e)) entries.
Proof.
  cbn [unique_names].
  assert (E : forall es,
             (fix all (es : list (string * node)) : Prop :=
                match es with
                | [] => True
                | (_, child) :: es' => unique_names child /\ all es'
                end) es
             <-> Forall (fun e => unique_names (snd e)) es).
  { induction es as [| [name child] es IH]; [now split |].
    rewrite IH. split.
    - intros (H1 & H2). now constructor.
    - intros H. inversion H; subst. now split. }
  now rewrite E.
Qed.

Lemma lookup_absent (name : string) (entries : list (string * node)) :
  ~ In name (map fst entries) -> lookup name entries = None.
Proof.
  induction entries as [| [n c] entries IH]; simpl; intros H; [reflexivity |].
  destruct (String.eqb_spec n name) as [-> | _]; [elim H; now left | apply IH; tauto].
Qed.

Lemma lookup_unique (name : string) (child : node) (entries : list (string * node)) :
  NoDup (map fst entries) -> In (name, child) entries -> lookup name entries = Some child.
Proof.
  induction entries as [| [n c] entries IH]; simpl; intros Hnd Hin; [contradiction |].
  inversion Hnd as [| ? ? Hn Hnd']; subst.
  destruct Hin as [E | Hin].
  - inversion E; subst. now rewrite String.eqb_refl.
  - destruct (String.eqb_spec n name) as [-> | _]; [| now apply IH].
    elim Hn. now apply (in_map fst) in Hin.
Qed.

Lemma in_dir_entry {A : Type} (entries : list (string * node)) (name : string)
      (child : node) (k : node -> result A) :
  NoDup (map fst entries) -> In (name, child) entries ->
  in_dir (Dir entries) name k = k child.
Proof.
  intros Hnd Hin. cbn [in_dir]. now rewrite at_entry_lookup, (lookup_unique _ _ _ Hnd Hin).
Qed.

Lemma NoDup_pruned (config : Config) (entries : list (string * node)) :
  NoDup (map fst entries) ->
  NoDup (map fst (map (fun e => (fst e, prune config (snd e)))
                    (filter (kept config) entries))).
Proof.
  rewrite map_map. cbn [fst].
  induction entries as [| [n c] entries IH]; simpl; intros H; [constructor |].
  inversion H as [| ? ? Hn H']; subst.
  destruct (kept config (n, c)); [| now apply IH].
  simpl. constructor; [| now apply IH].
  intros Hin. apply Hn. apply in_map_iff in Hin. destruct Hin as (e & <- & He).
  apply filter_In in He. destruct He as (He & _). now apply in_map.
Qed.

Lemma in_dir_pruned {A : Type} (config : Config) (entries : list (string * node))
      (name : string) (child : node) (k : node -> result A) :
  NoDup (map fst entries) -> In (name, child) entries ->
  kept config (name, child) = true ->
  in_dir (prune config (Dir entries)) name k = k (prune config child).
Proof.
  intros Hnd Hin Hk. rewrite prune_Dir.
  apply in_dir_entry; [now apply NoDup_pruned |].
  apply in_map_iff. exists (name, child). split; [reflexivity |].
  apply filter_In. now split.
Qed.

Lemma statSync_prune (config : Config) (n : node) :
  statSync (prune config n) = statSync n.
Proof. destruct n; reflexivity. Qed.

Lemma pruned_names (config : Config) (entries : list (string * node)) :
  map fst (map (fun e => (fst e, prune config (snd e))) (filter (kept config) entries))
  = map fst (filter (kept config) entries).
Proof. rewrite map_map. reflexivity. Qed.

Lemma not_kept (config : Config) (name : string) (child : node) :
  kept config (name, child) = false ->
  statSync child = Ok (mkStats true false)
  /\ JS.Array_includes (excludeDirs config) name = true.
Proof.
  rewrite kept_includes. cbn [fst snd]. intros H.
  apply negb_false_iff, andb_true_iff in H. destruct H as (Hd & He).
  split; [now apply statSync_directory | exact He].
Qed.

(** Leaving out elements on which the predicate says no changes nothing. *)
Lemma Array_filter_sub (f : string * node -> bool) (p p' : string -> result bool)
      (l : list (string * node)) :
  (forall e, In e l -> f e = true -> p' (fst e) = p (fst e)) ->
  (forall e, In e l -> f e = false -> p (fst e) = Ok false) ->
  JS.Array_filter p' (map fst (filter f l)) = JS.Array_filter p (map fst l).
Proof.
  induction l as [| e l IH]; intros Hk Hn; [reflexivity |].
  cbn [filter map JS.Array_filter].
  assert (IH' : JS.Array_filter p' (map fst (filter f l)) = JS.Array_filter p (map fst l)).
  { apply IH; intros e' He'; [apply Hk | apply Hn]; now right. }
  destruct (f e) eqn:E.
  - cbn [map JS.Array_filter]. rewrite (Hk e (or_introl eq_refl) E), IH'. reflexivity.
  - rewrite (Hn e (or_introl eq_refl) E), IH'. cbn [bind].
    destruct (JS.Array_filter p (map fst l)); reflexivity.
Qed.

(** Leaving out elements whose pass does nothing changes nothing. *)
Lemma forEach_sub {S : Type} (f : string * node -> bool)
      (body body' : S -> string -> Z -> result S) (l : list (string * node)) :
  (forall e, In e l -> f e = true ->
             forall st i j, body' st (fst e) i = body st (fst e) j) ->
  (forall e, In e l -> f e = false -> forall st i, body st (fst e) i = Ok st) ->
  forall from from' st,
    JS.forEach body' from' (map fst (filter f l)) st = JS.forEach body from (map fst l) st.
Proof.
  induction l as [| e l IH]; intros Hk Hn from from' st; [reflexivity |].
  cbn [filter map JS.forEach].
  assert (IH' : forall from from' st,
             JS.forEach body' from' (map fst (filter f l)) st
             = JS.forEach body from (map fst l) st).
  { apply IH; intros e' He'; [apply Hk | apply Hn]; now right. }
  destruct (f e) eqn:E.
  - cbn [map JS.forEach]. rewrite (Hk e (or_introl eq_refl) E st from' from).
    destruct (body st (fst e) from); cbn [bind]; [apply IH' | reflexivity].
  - rewrite (Hn e (or_introl eq_refl) E). cbn [bind]. apply IH'.
Qed.

Lemma eligible_dir_child (entries : list (string * node)) (config : Config)
      (dirName : string) :
  eligible_dir (Dir entries) config dirName = true ->
  exists child,
    lookup dirName entries = Some child /\ kept config (dirName, child) = true.
Proof.
  unfold eligible_dir. cbn [in_dir]. rewrite at_entry_lookup.
  destruct (lookup dirName entries) as [child |]; [| discriminate].
  intros H. exists child. split; [reflexivity |].
  destruct (statSync child) as [stat |]; [| discriminate].
  apply andb_true_iff in H. destruct H as (_ & H).
  rewrite kept_includes. cbn [fst snd]. apply negb_true_iff in H. rewrite H.
  now rewrite andb_false_r.
Qed.

(** The renderer does not see what excluded directories hold, nor that
    they are there. *)
Lemma generateTree_prune (config : Config) (__filename : string) (n : node) :
  unique_names n ->
  forall prefix,
    generateTree (prune config n) prefix config __filename
    = generateTree n prefix config __filename.
Proof.
  induction n as [regular data | entries IH | e | e] using node_ind;
    intros Hu prefix; try reflexivity.
  apply unique_names_Dir in Hu. destruct Hu as (Hnd & Hu).
  rewrite Forall_forall in IH, Hu.
  assert (Hstat : forall e, In e entries -> kept config e = true ->
                  in_dir (prune config (Dir entries)) (fst e) statSync
                  = in_dir (Dir entries) (fst e) statSync).
  { intros [name child] He Hk. cbn [fst].
    rewrite (in_dir_pruned _ _ _ _ _ Hnd He Hk), (in_dir_entry _ _ _ _ Hnd He).
    apply statSync_prune. }
  assert (Hgone : forall e, In e entries -> kept config e = false ->
                  in_dir (Dir entries) (fst e) statSync = Ok (mkStats true false)
                  /\ JS.Array_includes (excludeDirs config) (fst e) = true).
  { intros [name child] He Hk. cbn [fst]. rewrite (in_dir_entry _ _ _ _ Hnd He).
    now apply not_kept. }
  rewrite generateTree_Dir.
  pattern (prune config (Dir entries)) at 1. rewrite prune_Dir.
  rewrite generateTree_Dir, pruned_names, <- prune_Dir.
  unfold generateTree_body.
  rewrite (Array_filter_sub (kept config)
             (fun f => stat <- in_dir (Dir entries) f statSync ;;
                       Ok (isDirectory stat
                           && negb (JS.Array_includes (excludeDirs config) f)))).
  2: { intros e He Hk. now rewrite (Hstat e He Hk). }
  2: { intros e He Hk. destruct (Hgone e He Hk) as (-> & ->). reflexivity. }
  rewrite (Array_filter_sub (kept config)
             (fun f => stat <- in_dir (Dir entries) f statSync ;;
                       Ok (isFile stat
                           && negb (JS.Array_includes (excludeFiles config) f)
                           && negb (f =? Path.basename __filename)))).
  2: { intros e He Hk. now rewrite (Hstat e He Hk). }
  2: { intros e He Hk. destruct (Hgone e He Hk) as (-> & _). reflexivity. }
  destruct (JS.Array_filter _ (map fst entries)) as [dirs |] eqn:Hd; cbn [bind];
    [| reflexivity].
  destruct (JS.Array_filter _ (map fst entries)) as [fileNames |] eqn:Hf in |- *;
    cbn [bind]; [| reflexivity].
  rewrite forEach_push. cbn [bind]. f_equal.
  apply forEach_ext. intros st dirName i Hin. cbv zeta.
  apply Array_filter_Ok in Hd. subst dirs.
  apply Array_sort_In, filter_In in Hin. destruct Hin as (_ & Hel).
  rewrite holds_eligible_dir in Hel.
  apply eligible_dir_child in Hel. destruct Hel as (child & Hc & Hk).
  apply lookup_In in Hc.
  rewrite (in_dir_pruned _ _ _ _ _ Hnd Hc Hk), (in_dir_entry _ _ _ _ Hnd Hc).
  rewrite (IH _ Hc (Hu _ Hc)). reflexivity.
Qed.

(** Nor does the collector. *)
Lemma getAllFiles_prune (config : Config) (n : node) :
  unique_names n ->
  forall dir fileList,
    getAllFiles (prune config n) dir fileList config
    = getAllFiles n dir fileList config.
Proof.
  induction n as [regular data | entries IH | e | e] using node_ind;
    intros Hu dir fileList; try reflexivity.
  apply unique_names_Dir in Hu. destruct Hu as (Hnd & Hu).
  rewrite Forall_forall in IH, Hu.
  rewrite getAllFiles_Dir.
  pattern (prune config (Dir entries)) at 1. rewrite prune_Dir.
  rewrite getAllFiles_Dir, pruned_names, <- prune_Dir.
  unfold getAllFiles_body. apply forEach_sub.
  - intros [name child] He Hk st i j. cbn [fst].
    rewrite !(in_dir_pruned _ _ _ _ _ Hnd He Hk), !(in_dir_entry _ _ _ _ Hnd He).
    rewrite statSync_prune, (IH _ He (Hu _ He)). reflexivity.
  - intros [name child] He Hk st i. cbn [fst].
    rewrite !(in_dir_entry _ _ _ _ Hnd He).
    apply not_kept in Hk. destruct Hk as (-> & ->). reflexivity.
Qed.

Lemma split_head (p : string) :
  exists first rest after, Path.split p = first :: rest /\ p = first ++ after.
Proof.
  induction p as [| c p (first & rest & after & E & Hp)].
  - now exists "", [], "".
  - cbn [Path.split]. destruct (Ascii.eqb c Path.slash).
    + now exists "", (Path.split p), (String c p).
    + rewrite E. exists (String c first), rest, after. split; [reflexivity |].
      cbn [append]. now rewrite <- Hp.
Qed.

(** A piece of a path is a substring of the path. *)
Lemma split_pieces (p seg : string) :
  In seg (Path.split p) -> exists before after, p = before ++ seg ++ after.
Proof.
  revert seg. induction p as [| c p IH]; intros seg H.
  - destruct H as [<- | []]. now exists "", "".
  - cbn [Path.split] in H. destruct (Ascii.eqb c Path.slash).
    + destruct H as [<- | H].
      * now exists "", (String c p).
      * destruct (IH _ H) as (before & after & ->). now exists (String c before), after.
    + destruct (split_head p) as (first & rest & after & E & Hp). rewrite E in H, IH.
      destruct H as [<- | H].
      * exists "", after. cbn [append]. now rewrite <- Hp.
      * destruct (IH seg (or_intror H)) as (before & after' & ->).
        now exists (String c before), after'.
Qed.

Lemma normalize_step_keeps (allowAboveRoot : bool) (segs kept_so_far : list string)
      (seg : string) :
  In seg (fold_left (Path.normalize_step allowAboveRoot) segs kept_so_far) ->
  In seg segs \/ In seg kept_so_far.
Proof.
  revert kept_so_far. induction segs as [| s segs IH]; intros acc H; [now right |].
  cbn [fold_left] in H. apply IH in H. destruct H as [H | H]; [left; now right |].
  unfold Path.normalize_step in H.
  destruct ((s =? "") || (s =? "."))%bool; [now right |].
  destruct (String.eqb_spec s "..") as [-> | _].
  - destruct acc as [| last acc'].
    + destruct allowAboveRoot; [| now right].
      destruct H as [<- | []]. left. now left.
    + destruct (last =? "..").
      * destruct allowAboveRoot; [| now right].
        destruct H as [<- | H]; [left; now left | now right].
      * right. now right.
  - destruct H as [<- | H]; [left; now left | now right].
Qed.

Lemma segments_pieces (p : string) (segs : list string) (seg : string) :
  segments p = Ok segs -> In seg segs -> JS.String_includes p seg = true.
Proof.
  unfold segments. destruct (Path.starts_with_slash p); [discriminate |].
  destruct (existsb _ _); [discriminate |].
  intros H Hin. inversion H; subst segs; clear H.
  unfold Path.normalizeString in Hin. apply in_rev in Hin.
  apply normalize_step_keeps in Hin. destruct Hin as [Hin | []].
  apply split_pieces in Hin. destruct Hin as (before & after & ->).
  apply String_includes_append.
Qed.

Lemma lookup_pruned (config : Config) (entries : list (string * node)) (name : string) :
  NoDup (map fst entries) ->
  JS.Array_includes (excludeDirs config) name = false ->
  lookup name (map (fun e => (fst e, prune config (snd e))) (filter (kept config) entries))
  = option_map (prune config) (lookup name entries).
Proof.
  intros Hnd Hname. destruct (lookup name entries) as [child |] eqn:E; cbn [option_map].
  - apply lookup_unique; [now apply NoDup_pruned |].
    apply in_map_iff. exists (name, child). split; [reflexivity |].
    apply filter_In. split; [now apply lookup_In |].
    rewrite kept_includes. cbn [fst snd]. rewrite Hname. now rewrite andb_false_r.
  - apply lookup_absent. rewrite pruned_names. intros Hin.
    apply in_map_iff in Hin. destruct Hin as ([n c] & Hn & He). cbn [fst] in Hn. subst n.
    apply filter_In in He. destruct He as (He & _).
    destruct (in_split _ _ He) as (l1 & l2 & ->).
    clear -E. induction l1 as [| [n1 c1] l1 IH]; cbn [app lookup] in E.
    + now rewrite String.eqb_refl in E.
    + destruct (n1 =? name); [discriminate | now apply IH].
Qed.

Lemma read_node_prune (config : Config) (n : node) :
  read_node (prune config n) = read_node n.
Proof. destruct n; reflexivity. Qed.

Lemma walk_prune (config : Config) (segs : list string) :
  forall n,
    unique_names n ->
    (forall seg, In seg segs -> JS.Array_includes (excludeDirs config) seg = false) ->
    bind (walk (prune config n) segs) read_node = bind (walk n segs) read_node.
Proof.
  induction segs as [| seg segs IH]; intros n Hu Hsegs.
  - cbn [walk bind]. apply read_node_prune.
  - destruct n as [regular data | entries | e | e]; try reflexivity.
    rewrite prune_Dir. cbn [walk].
    apply unique_names_Dir in Hu. destruct Hu as (Hnd & Hu).
    rewrite (lookup_pruned _ _ _ Hnd (Hsegs seg (or_introl eq_refl))).
    destruct (lookup seg entries) as [child |] eqn:E; cbn [option_map]; [| reflexivity].
    apply IH.
    + rewrite Forall_forall in Hu. apply (Hu _ (lookup_In _ _ _ E)).
    + intros s Hs. apply Hsegs. now right.
Qed.

Lemma readFileSync_walk (cwd : node) (p : string) :
  readFileSync cwd p = (segs <- segments p ;; bind (walk cwd segs) read_node).
Proof.
  unfold readFileSync. destruct (segments p) as [segs |]; cbn [bind]; [| reflexivity].
  destruct (walk cwd segs) as [n |]; cbn [bind]; [| reflexivity].
  destruct n; reflexivity.
Qed.

(** A path that holds no excluded directory name reads the same with
    the excluded directories gone. *)
Lemma readFileSync_prune (config : Config) (cwd : node) (p : string) :
  unique_names cwd ->
  existsb (fun dir => JS.String_includes p dir) (excludeDirs config) = false ->
  readFileSync (prune config cwd) p = readFileSync cwd p.
Proof.
  intros Hu Hp. rewrite !readFileSync_walk.
  destruct (segments p) as [segs |] eqn:E; cbn [bind]; [| reflexivity].
  apply walk_prune; [exact Hu |].
  intros seg Hseg. destruct (JS.Array_includes (excludeDirs config) seg) eqn:Hin;
    [| reflexivity].
  apply Array_includes_In in Hin.
  assert (Hex : existsb (fun dir => JS.String_includes p dir) (excludeDirs config) = true).
  { apply existsb_exists. exists seg. split; [exact Hin |].
    now apply (segments_pieces p segs). }
  congruence.
Qed.

Lemma fileBlock_prune (config : Config) (cwd : node) (p : string) :
  unique_names cwd ->
  existsb (fun dir => JS.String_includes p dir) (excludeDirs config) = false ->
  fileBlock (prune config cwd) config p = fileBlock cwd config p.
Proof.
  intros Hu Hp. unfold fileBlock, processFile.
  now rewrite (readFileSync_prune _ _ _ Hu Hp).
Qed.

Lemma flat_map_ext_in {A B : Type} (f g : A -> list B) (l : list A) :
  (forall x, In x l -> f x = g x) -> flat_map f l = flat_map g l.
Proof.
  induction l as [| x l IH]; intros H; [reflexivity |].
  cbn [flat_map]. rewrite (H x (or_introl eq_refl)), IH; [reflexivity |].
  intros y Hy. apply H. now right.
Qed.

(** The whole report is the report of the filesystem without its
    excluded directories. *)
Lemma generateStructure_prune (cwd : node) (options : Options) (__filename : string) :
  unique_names cwd ->
  generateStructure (prune (spread DEFAULT_CONFIG options) cwd) options __filename
  = generateStructure cwd options __filename.
Proof.
  intros Hu. rewrite !generateStructure_unrolled. cbv zeta.
  set (config := spread DEFAULT_CONFIG options).
  rewrite (generateTree_prune config __filename cwd Hu).
  rewrite (getAllFiles_prune config cwd Hu).
  destruct (generateTree cwd "" config __filename) as [tree |]; cbn [bind]; [| reflexivity].
  destruct (getAllFiles cwd "." [] config) as [all |]; cbn [bind]; [| reflexivity].
  unfold report_of. do 3 f_equal.
  apply flat_map_ext_in. intros p Hp.
  apply selectFiles_In in Hp. destruct Hp as (_ & _ & Hd & _).
  now apply fileBlock_prune.
Qed.

(* ================================================================= *)
(** ** Where the collected paths lead *)

Lemma split_one (s : string) : has_slash s = false -> Path.split s = [s].
Proof.
  induction s as [| c s IH]; [reflexivity |].
  cbn [has_slash Path.split]. intros H. apply orb_false_iff in H. destruct H as (Hc & Hs).
  rewrite Hc, (IH Hs). reflexivity.
Qed.

Lemma split_joined (a b : string) :
  has_slash a = false -> Path.split (a ++ "/" ++ b) = a :: Path.split b.
Proof.
  induction a as [| c a IH]; [reflexivity |].
  cbn [has_slash]. intros H. apply orb_false_iff in H. destruct H as (Hc & Ha).
  change (String c a ++ "/" ++ b) with (String c (a ++ "/" ++ b)).
  cbn [Path.split]. rewrite Hc, (IH Ha). reflexivity.
Qed.

Lemma split_concat (l : list string) :
  l <> [] -> Forall valid_name l -> Path.split (String.concat "/" l) = l.
Proof.
  induction l as [| x l IH]; intros Hne Hv; [now elim Hne |].
  inversion Hv as [| ? ? (_ & _ & _ & Hx) Hl]; subst.
  destruct l as [| y l].
  - now apply split_one.
  - change (String.concat "/" (x :: y :: l)) with (x ++ "/" ++ String.concat "/" (y :: l)).
    rewrite (split_joined _ _ Hx), IH; [reflexivity | discriminate | exact Hl].
Qed.

Lemma normalize_valid (allowAboveRoot : bool) (l acc : list string) :
  Forall valid_name l ->
  fold_left (Path.normalize_step allowAboveRoot) l acc = (rev l ++ acc)%list.
Proof.
  revert acc. induction l as [| x l IH]; intros acc Hv; [reflexivity |].
  inversion Hv as [| ? ? (H1 & H2 & H3 & _) Hl]; subst.
  cbn [fold_left rev]. unfold Path.normalize_step at 2.
  apply String.eqb_neq in H1, H2, H3. rewrite H1, H2, H3. cbn [orb].
  rewrite (IH _ Hl), <- app_assoc. reflexivity.
Qed.

Lemma valid_no_leading_slash (x rest : string) :
  valid_name x -> Path.starts_with_slash (x ++ rest) = false.
Proof.
  intros (Hne & _ & _ & Hs). destruct x as [| c x]; [now elim Hne |].
  cbn [has_slash] in Hs. apply orb_false_iff in Hs. destruct Hs as (Hc & _).
  cbn [append Path.starts_with_slash]. exact Hc.
Qed.

Lemma ends_with_slash_append (a b : string) :
  b <> "" -> Path.ends_with_slash (a ++ b) = Path.ends_with_slash b.
Proof.
  intros Hb. induction a as [| c a IH]; [reflexivity |].
  cbn [append Path.ends_with_slash]. rewrite IH.
  destruct (a ++ b) eqn:E; [| reflexivity].
  destruct a; [cbn in E; now elim Hb | discriminate E].
Qed.

Lemma valid_no_trailing_slash (x : string) :
  has_slash x = false -> Path.ends_with_slash x = false.
Proof.
  induction x as [| c x IH]; [reflexivity |].
  cbn [has_slash]. intros H. apply orb_false_iff in H. destruct H as (Hc & Hx).
  cbn [Path.ends_with_slash]. destruct x; [exact Hc | now apply IH].
Qed.

Lemma concat_last (l : list string) (name : string) :
  l <> [] ->
  String.concat "/" (l ++ [name]) = String.concat "/" l ++ "/" ++ name.
Proof.
  induction l as [| x l IH]; intros Hne; [now elim Hne |].
  destruct l as [| y l]; [reflexivity |].
  change (String.concat "/" ((x :: y :: l) ++ [name]))
    with (x ++ "/" ++ String.concat "/" ((y :: l) ++ [name])).
  rewrite IH by discriminate.
  change (String.concat "/" (x :: y :: l)) with (x ++ "/" ++ String.concat "/" (y :: l)).
  now rewrite !append_associative.
Qed.

Lemma concat_nonempty (l : list string) :
  l <> [] -> Forall valid_name l -> String.concat "/" l <> "".
Proof.
  destruct l as [| x l]; intros Hne Hv; [now elim Hne |].
  inversion Hv as [| ? ? (Hx & _) _]; subst.
  destruct x as [| c x]; [now elim Hx |].
  destruct l; discriminate.
Qed.

Lemma concat_no_leading_slash (l : list string) :
  l <> [] -> Forall valid_name l ->
  Path.starts_with_slash (String.concat "/" l) = false.
Proof.
  intros Hne Hv. destruct l as [| x l]; [now elim Hne |]. inversion Hv; subst.
  destruct l; [rewrite <- (append_empty_r x) |]; now apply valid_no_leading_slash.
Qed.

Lemma normalizeString_concat (l : list string) (allowAboveRoot : bool) :
  l <> [] -> Forall valid_name l ->
  Path.normalizeString (String.concat "/" l) allowAboveRoot = l.
Proof.
  intros Hne Hv. unfold Path.normalizeString.
  rewrite (split_concat l Hne Hv), (normalize_valid _ _ _ Hv), app_nil_r.
  apply rev_involutive.
Qed.

Lemma normalize_concat (l : list string) :
  l <> [] -> Forall valid_name l ->
  Path.normalize (String.concat "/" l) = String.concat "/" l.
Proof.
  intros Hne Hv. unfold Path.normalize.
  pose proof (concat_nonempty l Hne Hv) as Hp. apply String.eqb_neq in Hp. rewrite Hp.
  pose proof (concat_no_leading_slash l Hne Hv) as Hstart.
  assert (Hend : Path.ends_with_slash (String.concat "/" l) = false).
  { destruct (exists_last Hne) as (front & name & ->).
    apply Forall_app in Hv. destruct Hv as (_ & Hname).
    inversion Hname as [| ? ? (Hn & _ & _ & Hs) _]; subst.
    destruct front as [| x front]; [now apply valid_no_trailing_slash |].
    rewrite concat_last by discriminate.
    rewrite ends_with_slash_append by discriminate.
    change ("/" ++ name) with (String "/"%char name).
    cbn [Path.ends_with_slash]. destruct name; [now elim Hn |].
    now apply valid_no_trailing_slash. }
  rewrite Hstart, Hend. cbn [negb].
  rewrite (normalizeString_concat l true Hne Hv), Hp. reflexivity.
Qed.

(** [path.join] of a directory's path and an entry's name is the path
    of the entry. *)
Lemma join_denotes (dir name : string) (ds : list string) :
  denotes dir ds -> Forall valid_name ds -> valid_name name ->
  denotes (Path.join dir name) (ds ++ [name]).
Proof.
  intros Hd Hv Hname. right. split; [now destruct ds |].
  pose proof Hname as (Hn & _ & _ & Hs). apply String.eqb_neq in Hn.
  destruct Hd as [(-> & ->) | (Hne & ->)].
  - unfold Path.join. cbn [filter]. rewrite Hn.
    change (negb ("." =? "")) with true. cbn [negb app].
    change (String.concat "/" ["."; name]) with ("." ++ "/" ++ name).
    unfold Path.normalize.
    change ("." ++ "/" ++ name =? "") with false.
    change (Path.starts_with_slash ("." ++ "/" ++ name)) with false. cbn [negb].
    assert (Hend : Path.ends_with_slash ("." ++ "/" ++ name) = false).
    { change ("." ++ "/" ++ name) with (String "."%char (String "/"%char name)).
      cbn [Path.ends_with_slash]. destruct name; [discriminate Hn |].
      now apply valid_no_trailing_slash. }
    rewrite Hend. unfold Path.normalizeString.
    rewrite (split_joined "." name eq_refl), (split_one name Hs).
    cbn [fold_left]. change (Path.normalize_step true [] ".") with (@nil string).
    unfold Path.normalize_step.
    destruct Hname as (H1 & H2 & H3 & _). apply String.eqb_neq in H1, H2, H3.
    rewrite H1, H2, H3. cbn [orb rev app String.concat]. rewrite H1. reflexivity.
  - assert (Hall : Forall valid_name (ds ++ [name])) by (apply Forall_app; auto).
    assert (Hne' : (ds ++ [name])%list <> []) by now destruct ds.
    unfold Path.join. cbn [filter]. rewrite Hn.
    pose proof (concat_nonempty ds Hne Hv) as Hp. apply String.eqb_neq in Hp. rewrite Hp.
    cbn [negb].
    change (String.concat "/" [String.concat "/" ds; name])
      with (String.concat "/" ds ++ "/" ++ name).
    rewrite <- concat_last by exact Hne.
    now apply normalize_concat.
Qed.

Lemma segments_denotes (p : string) (ds : list string) :
  ds <> [] -> denotes p ds -> Forall valid_name ds -> segments p = Ok ds.
Proof.
  intros Hne [(_ & ->) | (_ & ->)] Hv; [now elim Hne |].
  unfold segments.
  pose proof (concat_no_leading_slash ds Hne Hv) as Hstart.
  rewrite Hstart, (normalizeString_concat ds true Hne Hv).
  assert (Hdots : existsb (String.eqb "..") ds = false).
  { clear -Hv. induction Hv as [| x l (_ & _ & Hx & _) _ IH]; [reflexivity |].
    cbn [existsb]. rewrite IH. apply not_eq_sym, String.eqb_neq in Hx. now rewrite Hx. }
  now rewrite Hdots.
Qed.

(** In the working directory, the path of an entry is its name. *)
Lemma join_dot (name : string) : valid_name name -> Path.join "." name = name.
Proof.
  intros Hv.
  destruct (join_denotes "." name [] (or_introl (conj eq_refl eq_refl))
              (Forall_nil _) Hv) as [(_ & E) | (_ & E)]; [discriminate E | exact E].
Qed.

Lemma valid_names_Dir (entries : list (string * node)) :
  valid_names (Dir entries)
  <-> Forall valid_name (map fst entries) /\ Forall (fun e => valid_names (snd e)) entries.
Proof.
  cbn [valid_names].
  assert (E : forall es,
             (fix all (es : list (string * node)) : Prop :=
                match es with
                | [] => True
                | (_, child) :: es' => valid_names child /\ all es'
                end) es
             <-> Forall (fun e => valid_names (snd e)) es).
  { induction es as [| [name child] es IH]; [now split |].
    rewrite IH. split.
    - intros (H1 & H2). now constructor.
    - intros H. inversion H; subst. now split. }
  now rewrite E.
Qed.

Lemma walk_app (ds more : list string) :
  forall cwd, walk cwd (ds ++ more) = (n <- walk cwd ds ;; walk n more).
Proof.
  induction ds as [| seg ds IH]; intros cwd; [reflexivity |].
  cbn [app walk]. destruct cwd as [regular data | entries | e | e]; try reflexivity.
  destruct (lookup seg entries) as [child |]; [apply IH | reflexivity].
Qed.

Lemma forEach_invariant {A S : Type} (P : S -> Prop)
      (body : S -> A -> Z -> result S) (arr : list A) :
  (forall st x i st', In x arr -> P st -> body st x i = Ok st' -> P st') ->
  forall from st st', P st -> JS.forEach body from arr st = Ok st' -> P st'.
Proof.
  induction arr as [| x arr IH]; intros Hstep from st st' Hst H.
  - inversion H; now subst.
  - cbn [JS.forEach] in H. apply bind_Ok in H. destruct H as (st1 & H1 & H).
    apply (IH (fun st y i st' Hy => Hstep st y i st' (or_intror Hy)) (from + 1)%Z st1 st');
      [| exact H].
    apply (Hstep st x from); auto. now left.
Qed.

Lemma leads_to_file_read (cwd : node) (p : string) :
  leads_to_file cwd p ->
  exists segs regular data,
    segments p = Ok segs /\ walk cwd segs = Ok (File regular data)
    /\ readFileSync cwd p = data.
Proof.
  intros (segs & regular & data & Hs & Hw). exists segs, regular, data.
  split; [exact Hs |]. split; [exact Hw |].
  unfold readFileSync. rewrite Hs. cbn [bind]. rewrite Hw. reflexivity.
Qed.

(** The collector adds paths that lead to what it found there. *)
Lemma getAllFiles_leads (cwd : node) (config : Config) (n : node) :
  forall ds dir fileList out,
    valid_names n -> denotes dir ds -> Forall valid_name ds ->
    walk cwd ds = Ok n ->
    getAllFiles n dir fileList config = Ok out ->
    Forall (leads_to_file cwd) fileList -> Forall (leads_to_file cwd) out.
Proof.
  induction n as [regular data | entries IH | e | e] using node_ind;
    intros ds dir fileList out Hvn Hd Hds Hw H Hfl; try discriminate.
  apply valid_names_Dir in Hvn. destruct Hvn as (Hnames & Hchildren).
  rewrite Forall_forall in IH, Hnames, Hchildren.
  rewrite getAllFiles_Dir in H. unfold getAllFiles_body in H.
  eapply (forEach_invariant (Forall (leads_to_file cwd))); [| exact Hfl | exact H].
  clear fileList out H Hfl.
  intros st file i st' Hfile Hst H.
  apply bind_Ok in H. destruct H as (stat & Hstat & H).
  apply in_dir_Ok in Hstat. destruct Hstat as (child & Hc & Hstat).
  assert (Hwalk : walk cwd (ds ++ [file]) = Ok child).
  { rewrite walk_app, Hw. cbn [bind walk]. now rewrite Hc. }
  pose proof (join_denotes dir file ds Hd Hds (Hnames _ Hfile)) as Hjoin.
  assert (Hall : Forall valid_name (ds ++ [file])).
  { apply Forall_app. split; [exact Hds |]. constructor; [now apply Hnames | constructor]. }
  destruct (isDirectory stat) eqn:Hdir.
  - destruct (negb _).
    + apply in_dir_Ok in H. destruct H as (child' & Hc' & H).
      rewrite Hc in Hc'. inversion Hc'; subst child'.
      apply lookup_In in Hc.
      apply (IH _ Hc (ds ++ [file])%list (Path.join dir file) st st'); auto.
    + inversion H; now subst.
  - inversion H; subst st'. unfold JS.push. apply Forall_app. split; [exact Hst |].
    constructor; [| constructor].
    destruct child as [regular data | es | e | e]; cbn [statSync] in Hstat;
      inversion Hstat; subst stat; try discriminate Hdir.
    exists (ds ++ [file])%list, regular, data. split; [| exact Hwalk].
    apply segments_denotes; [now destruct ds | exact Hjoin | exact Hall].
Qed.

(** Every collected path, read from the working directory, leads to a
    node of the tree that is not a directory. *)
Lemma collected_paths_lead_to_files (cwd : node) (config : Config) (all : list string) :
  valid_names cwd ->
  getAllFiles cwd "." [] config = Ok all ->
  forall p, In p all -> leads_to_file cwd p.
Proof.
  intros Hv H. apply Forall_forall.
  apply (getAllFiles_leads cwd config cwd [] "." [] all); auto.
  now left.
Qed.

(* ================================================================= *)
(** ** How the calls compose *)

(** A loop whose passes append to the array does the same from an
    empty array, up to what the array held. *)
Lemma forEach_appends {A B : Type} (body : list B -> A -> Z -> result (list B))
      (arr : list A) :
  (forall st x i, In x arr ->
                  body st x i = (added <- body [] x i ;; Ok (st ++ added)%list)) ->
  forall from st,
    JS.forEach body from arr st
    = (added <- JS.forEach body from arr [] ;; Ok (st ++ added)%list).
Proof.
  induction arr as [| x arr IH]; intros Hbody from st.
  - cbn [JS.forEach bind]. now rewrite app_nil_r.
  - assert (IH' : forall from st,
               JS.forEach body from arr st
               = (added <- JS.forEach body from arr [] ;; Ok (st ++ added)%list)).
    { apply IH. intros st' y i Hy. apply Hbody. now right. }
    cbn [JS.forEach]. rewrite (Hbody st x from (or_introl eq_refl)).
    destruct (body [] x from) as [a |]; cbn [bind]; [| reflexivity].
    rewrite (IH' _ (st ++ a)%list), (IH' _ ([] ++ a)%list).
    destruct (JS.forEach body (from + 1) arr []); cbn [bind]; [| reflexivity].
    now rewrite app_assoc.
Qed.

Lemma getAllFiles_appends_from_empty (config : Config) (n : node) :
  forall dir fileList,
    getAllFiles n dir fileList config
    = (added <- getAllFiles n dir [] config ;; Ok (fileList ++ added)%list).
Proof.
  induction n as [regular data | entries IH | e | e] using node_ind;
    intros dir fileList; try reflexivity.
  rewrite !getAllFiles_Dir. unfold getAllFiles_body.
  apply forEach_appends. intros st file i Hfile.
  destruct (in_dir (Dir entries) file statSync) as [stat |]; cbn [bind]; [| reflexivity].
  destruct (isDirectory stat); [| reflexivity].
  destruct (negb _); [| cbn [bind]; now rewrite app_nil_r].
  cbn [in_dir]. rewrite !at_entry_lookup.
  destruct (lookup file entries) as [child |] eqn:E; [| reflexivity].
  rewrite Forall_forall in IH. apply (IH _ (lookup_In _ _ _ E)).
Qed.

(** A loop over lines that are all extended by [f] is the loop over
    the lines, extended by [f] afterwards. *)
Lemma forEach_mapped {A B : Type} (f : B -> B)
      (body body' : list B -> A -> Z -> result (list B)) (arr : list A) :
  (forall st x i, In x arr ->
                  body' (map f st) x i = (r <- body st x i ;; Ok (map f r))) ->
  forall from st,
    JS.forEach body' from arr (map f st)
    = (r <- JS.forEach body from arr st ;; Ok (map f r)).
Proof.
  induction arr as [| x arr IH]; intros Hbody from st; [reflexivity |].
  cbn [JS.forEach]. rewrite (Hbody st x from (or_introl eq_refl)).
  destruct (body st x from) as [st1 |]; cbn [bind]; [| reflexivity].
  apply IH. intros st' y i Hy. apply Hbody. now right.
Qed.

Lemma generateTree_under_prefix (config : Config) (__filename : string) (n : node) :
  forall outer prefix,
    generateTree n (outer ++ prefix) config __filename
    = (lines <- generateTree n prefix config __filename ;;
       Ok (map (append outer) lines)).
Proof.
  induction n as [regular data | entries IH | e | e] using node_ind;
    intros outer prefix; try reflexivity.
  rewrite !generateTree_Dir. unfold generateTree_body.
  destruct (JS.Array_filter _ (map fst entries)) as [dirs |]; cbn [bind]; [| reflexivity].
  destruct (JS.Array_filter _ (map fst entries)) as [fileNames |]; cbn [bind];
    [| reflexivity].
  change (@nil string) with (map (append outer) []) at 1.
  rewrite (forEach_mapped (append outer)
             (fun lines file index =>
                Ok (JS.push lines
                      (prefix
                       ++ branch ((index =? Z.of_nat (List.length (JS.Array_sort fileNames)) - 1)%Z
                                  && (Z.of_nat (List.length (JS.Array_sort dirs)) =? 0)%Z)
                       ++ file)))).
  2: { intros st file i _. cbn [bind]. unfold JS.push.
       now rewrite map_app, append_associative. }
  destruct (JS.forEach _ 0%Z (JS.Array_sort fileNames) []) as [lines1 |]; cbn [bind];
    [| reflexivity].
  rewrite (forEach_mapped (append outer)
             (fun lines dirName index =>
                let isLast := (index =? Z.of_nat (List.length (JS.Array_sort dirs)) - 1)%Z in
                let lines := JS.push lines (prefix ++ branch isLast ++ dirName ++ "/") in
                sub <- in_dir (Dir entries) dirName
                         (fun child =>
                            generateTree child (prefix ++ indent isLast) config __filename) ;;
                Ok (lines ++ sub)%list)).
  2: { intros st dirName i _. cbv zeta. cbn [in_dir]. rewrite !at_entry_lookup.
       destruct (lookup dirName entries) as [child |] eqn:E; [| reflexivity].
       rewrite Forall_forall in IH. rewrite append_associative.
       rewrite (IH _ (lookup_In _ _ _ E)). cbn [snd].
       destruct (generateTree child _ config __filename); cbn [bind]; [| reflexivity].
       unfold JS.push. now rewrite !map_app, append_associative. }
  destruct (JS.forEach _ 0%Z (JS.Array_sort dirs) lines1); reflexivity.
Qed.

(* ================================================================= *)
(** ** When a run returns *)

Lemma forallb_pointwise {A : Type} (f g : A -> bool) (l : list A) :
  (forall x, f x = g x) -> forallb f l = forallb g l.
Proof.
  intros H. induction l as [| x l IH]; [reflexivity |].
  cbn [forallb]. now rewrite H, IH.
Qed.

Lemma traversable_Dir (config : Config) (entries : list (string * node)) :
  traversable config (Dir entries) = forallb (entry_ok config entries) (map fst entries).
Proof.
  cbn [traversable]. apply forallb_pointwise. intros name. unfold entry_ok.
  induction entries as [| [n child] entries IH]; [reflexivity |].
  cbn [entry_passes lookup]. destruct (n =? name); [reflexivity | exact IH].
Qed.

Lemma Array_filter_is_ok {A : Type} (pred : A -> result bool) (arr : list A) :
  is_ok (JS.Array_filter pred arr) = forallb (fun x => is_ok (pred x)) arr.
Proof.
  induction arr as [| x arr IH]; [reflexivity |].
  cbn [JS.Array_filter forallb]. rewrite <- IH.
  destruct (pred x); cbn [bind is_ok andb]; [| reflexivity].
  now destruct (JS.Array_filter pred arr).
Qed.

(** A loop returns when each of its passes does, a pass returning or
    not whatever the array holds. *)
Lemma forEach_is_ok {A S : Type} (body : S -> A -> Z -> result S) (ok : A -> bool)
      (arr : list A) :
  (forall st x i, In x arr -> is_ok (body st x i) = ok x) ->
  forall from st, is_ok (JS.forEach body from arr st) = forallb ok arr.
Proof.
  induction arr as [| x arr IH]; intros Hbody from st; [reflexivity |].
  cbn [JS.forEach forallb]. rewrite <- (Hbody st x from (or_introl eq_refl)).
  destruct (body st x from) as [st1 |]; cbn [bind is_ok andb]; [| reflexivity].
  apply IH. intros st' y i Hy. apply Hbody. now right.
Qed.

Lemma entry_ok_stat (config : Config) (entries : list (string * node)) (name : string) :
  entry_ok config entries name = true ->
  exists stat, in_dir (Dir entries) name statSync = Ok stat.
Proof.
  unfold entry_ok. cbn [in_dir]. rewrite at_entry_lookup.
  destruct (lookup name entries) as [child |]; [| discriminate].
  destruct (statSync child) as [stat |]; [eauto | discriminate].
Qed.

Lemma getAllFiles_is_ok (config : Config) (n : node) :
  forall dir fileList,
    is_ok (getAllFiles n dir fileList config) = traversable config n.
Proof.
  induction n as [regular data | entries IH | e | e] using node_ind;
    intros dir fileList; try reflexivity.
  rewrite getAllFiles_Dir, traversable_Dir. unfold getAllFiles_body.
  apply forEach_is_ok. intros st file i Hfile.
  unfold entry_ok. cbn [in_dir]. rewrite !at_entry_lookup.
  destruct (lookup file entries) as [child |] eqn:E; [| reflexivity].
  destruct (statSync child) as [stat |]; cbn [bind]; [| reflexivity].
  destruct (isDirectory stat); cbn [andb]; [| reflexivity].
  destruct (negb _); [| reflexivity].
  rewrite Forall_forall in IH. apply (IH _ (lookup_In _ _ _ E)).
Qed.

Lemma generateTree_is_ok (config : Config) (__filename : string) (n : node) :
  forall prefix,
    is_ok (generateTree n prefix config __filename) = traversable config n.
Proof.
  induction n as [regular data | entries IH | e | e] using node_ind;
    intros prefix; try reflexivity.
  rewrite Forall_forall in IH.
  rewrite generateTree_Dir, traversable_Dir. unfold generateTree_body.
  destruct (forallb (fun f => is_ok (in_dir (Dir entries) f statSync)) (map fst entries))
    eqn:Hstat.
  - (* every entry can be stat'ed *)
    destruct (JS.Array_filter _ (map fst entries)) as [dirs |] eqn:Hd.
    2: { apply (f_equal is_ok) in Hd. rewrite Array_filter_is_ok in Hd.
         rewrite (forallb_pointwise _ (fun f => is_ok (in_dir (Dir entries) f statSync)))
           in Hd; [cbn [is_ok] in Hd; congruence |].
         intros x. now destruct (in_dir (Dir entries) x statSync). }
    cbn [bind].
    destruct (JS.Array_filter _ (map fst entries)) as [fileNames |] eqn:Hf in |- *.
    2: { apply (f_equal is_ok) in Hf. rewrite Array_filter_is_ok in Hf.
         rewrite (forallb_pointwise _ (fun f => is_ok (in_dir (Dir entries) f statSync)))
           in Hf; [cbn [is_ok] in Hf; congruence |].
         intros x. now destruct (in_dir (Dir entries) x statSync). }
    cbn [bind]. rewrite forEach_push. cbn [bind].
    apply Array_filter_Ok in Hd. subst dirs.
    match goal with
    | |- is_ok (bind ?loop _) = _ =>
        replace (is_ok (bind loop (fun lines => Ok lines))) with (is_ok loop)
          by (destruct loop; reflexivity)
    end.
    rewrite (forEach_is_ok _ (fun dirName =>
                                match lookup dirName entries with
                                | Some child => traversable config child
                                | None => false
                                end)).
    2: { intros st dirName i _. cbv zeta. cbn [in_dir]. rewrite at_entry_lookup.
         destruct (lookup dirName entries) as [child |] eqn:E; [| reflexivity].
         pose proof (IH _ (lookup_In _ _ _ E)) as Hc. cbn [snd] in Hc.
         match goal with
         | |- is_ok (bind (generateTree child ?p _ _) _) = _ =>
             rewrite <- (Hc p); now destruct (generateTree child p config __filename)
         end. }
    apply Bool.eq_iff_eq_true. rewrite !forallb_forall. split.
    + intros H name Hname. unfold entry_ok.
      rewrite forallb_forall in Hstat. specialize (Hstat name Hname).
      cbn [in_dir] in Hstat. rewrite at_entry_lookup in Hstat.
      destruct (lookup name entries) as [child |] eqn:E; [| discriminate].
      destruct (statSync child) as [stat |] eqn:Es; [| discriminate].
      destruct (isDirectory stat && negb _)%bool eqn:El; [| reflexivity].
      assert (Hin : In name (JS.Array_sort
                               (filter (holds (fun f =>
                                  stat <- in_dir (Dir entries) f statSync ;;
                                  Ok (isDirectory stat
                                      && negb (JS.Array_includes (excludeDirs config) f))))
                                  (map fst entries)))).
      { apply Array_sort_In, filter_In. split; [exact Hname |].
        unfold holds. cbn [in_dir]. now rewrite at_entry_lookup, E, Es. }
      specialize (H name Hin). now rewrite E in H.
    + intros H dirName Hin. apply Array_sort_In, filter_In in Hin.
      destruct Hin as (Hname & Hel). specialize (H dirName Hname).
      unfold entry_ok in H. unfold holds in Hel. cbn [in_dir] in Hel.
      rewrite at_entry_lookup in Hel.
      destruct (lookup dirName entries) as [child |]; [| discriminate].
      destruct (statSync child) as [stat |]; [| discriminate].
      cbn [bind] in Hel. now rewrite Hel in H.
  - (* some entry cannot *)
    assert (Hd : is_ok (JS.Array_filter
                          (fun f => stat <- in_dir (Dir entries) f statSync ;;
                                    Ok (isDirectory stat
                                        && negb (JS.Array_includes (excludeDirs config) f)))
                          (map fst entries)) = false).
    { rewrite Array_filter_is_ok. rewrite <- Hstat. apply forallb_pointwise.
      intros x. now destruct (in_dir (Dir entries) x statSync). }
    destruct (JS.Array_filter _ (map fst entries)); [discriminate Hd |]. cbn [bind is_ok].
    symmetry. apply Bool.not_true_iff_false. intros H.
    apply Bool.not_true_iff_false in Hstat. apply Hstat.
    rewrite forallb_forall in H. apply forallb_forall. intros x Hx.
    destruct (entry_ok_stat _ _ _ (H x Hx)) as (stat & ->). reflexivity.
Qed.

(* ================================================================= *)
(** ** What the collector returns *)

(** What a loop of appending passes returns: what each pass adds to an
    empty array, one after the other. *)
Lemma forEach_parts {A B : Type} (body : list B -> A -> Z -> result (list B))
      (arr : list A) :
  (forall st x i, In x arr ->
                  body st x i = (added <- body [] x 0%Z ;; Ok (st ++ added)%list)) ->
  forall from st out,
    JS.forEach body from arr st = Ok out ->
    exists parts,
      Forall2 (fun x part => body [] x 0%Z = Ok part) arr parts
      /\ out = (st ++ concat parts)%list.
Proof.
  induction arr as [| x arr IH]; intros Hbody from st out H.
  - inversion H; subst. exists []. split; [constructor | now rewrite app_nil_r].
  - cbn [JS.forEach] in H. rewrite (Hbody st x from (or_introl eq_refl)) in H.
    destruct (body [] x 0%Z) as [part |] eqn:E; cbn [bind] in H; [| discriminate].
    apply IH in H; [| intros st' y i Hy; apply Hbody; now right].
    destruct H as (parts & Hparts & ->).
    exists (part :: parts). split; [now constructor |].
    cbn [concat]. now rewrite app_assoc.
Qed.

Lemma collectable_nonempty (config : Config) (n : node) (segs : list string) :
  collectable config n segs -> segs <> [].
Proof. destruct segs; [contradiction | discriminate]. Qed.

Lemma collector_pass (config : Config) (entries : list (string * node))
      (dir : string) (st : list string) (file : string) :
  (stat <- in_dir (Dir entries) file statSync ;;
   if isDirectory stat then
     if negb (JS.Array_includes (excludeDirs config) file)
     then in_dir (Dir entries) file
            (fun child => getAllFiles child (Path.join dir file) st config)
     else Ok st
   else Ok (JS.push st (Path.join dir file)))
  = (added <- (stat <- in_dir (Dir entries) file statSync ;;
               if isDirectory stat then
                 if negb (JS.Array_includes (excludeDirs config) file)
                 then in_dir (Dir entries) file
                        (fun child => getAllFiles child (Path.join dir file) [] config)
                 else Ok []
               else Ok (JS.push [] (Path.join dir file))) ;;
     Ok (st ++ added)%list).
Proof.
  destruct (in_dir (Dir entries) file statSync) as [stat |]; cbn [bind]; [| reflexivity].
  destruct (isDirectory stat); [| reflexivity].
  destruct (negb _); [| cbn [bind]; now rewrite app_nil_r].
  cbn [in_dir]. rewrite !at_entry_lookup.
  destruct (lookup file entries) as [child |]; [| reflexivity].
  apply getAllFiles_appends_from_empty.
Qed.

Lemma Forall2_In_l {A B : Type} (R : A -> B -> Prop) (l : list A) (l' : list B) (x : A) :
  Forall2 R l l' -> In x l -> exists y, In y l' /\ R x y.
Proof.
  induction 1 as [| a b l l' Hab _ IH]; intros Hin; [contradiction |].
  destruct Hin as [<- | Hin]; [exists b; split; [now left | exact Hab] |].
  destruct (IH Hin) as (y & Hy & Hxy). exists y. split; [now right | exact Hxy].
Qed.

Lemma Forall2_In_r {A B : Type} (R : A -> B -> Prop) (l : list A) (l' : list B) (y : B) :
  Forall2 R l l' -> In y l' -> exists x, In x l /\ R x y.
Proof.
  induction 1 as [| a b l l' Hab _ IH]; intros Hin; [contradiction |].
  destruct Hin as [<- | Hin]; [exists a; split; [now left | exact Hab] |].
  destruct (IH Hin) as (x & Hx & Hxy). exists x. split; [now right | exact Hxy].
Qed.

(** What one pass of the collector adds for the entry [file], given
    what the collector adds below. *)
Lemma collector_part_collects (config : Config) (entries : list (string * node))
      (ds : list string) (dir file : string) (part : list string) :
  Forall valid_name ds -> denotes dir ds -> valid_name file ->
  (forall child added,
      In (file, child) entries ->
      getAllFiles child (Path.join dir file) [] config = Ok added ->
      forall q,
        In q added
        <-> exists segs,
            collectable config child segs
            /\ q = String.concat "/" ((ds ++ [file]) ++ segs)) ->
  (stat <- in_dir (Dir entries) file statSync ;;
   if isDirectory stat then
     if negb (JS.Array_includes (excludeDirs config) file)
     then in_dir (Dir entries) file
            (fun child => getAllFiles child (Path.join dir file) [] config)
     else Ok []
   else Ok (JS.push [] (Path.join dir file))) = Ok part ->
  forall q,
    In q part
    <-> exists rest,
        collectable config (Dir entries) (file :: rest)
        /\ q = String.concat "/" (ds ++ file :: rest).
Proof.
  intros Hds Hd Hfile Hsub Hpass q.
  apply bind_Ok in Hpass. destruct Hpass as (stat & Hstat & Hpass).
  apply in_dir_Ok in Hstat. destruct Hstat as (child & Hc & Hstat).
  pose proof (join_denotes dir file ds Hd Hds Hfile) as Hjoin.
  assert (Hpath : Path.join dir file = String.concat "/" (ds ++ [file])).
  { destruct Hjoin as [(_ & E) | (_ & E)]; [now destruct ds | exact E]. }
  cbn [collectable]. rewrite Hc.
  destruct child as [regular data | es | e | e]; cbn [statSync] in Hstat;
    inversion Hstat; subst stat; cbn [isDirectory] in Hpass.
  - (* a file *)
    inversion Hpass; subst part. cbn [JS.push app]. split.
    + intros [<- | []]. exists []. split; [eauto | exact Hpath].
    + intros (rest & Hrest & ->). destruct rest as [| r rest].
      * left. exact Hpath.
      * destruct Hrest as (Hdir & _). discriminate Hdir.
  - (* a directory that can be listed *)
    destruct (JS.Array_includes (excludeDirs config) file) eqn:Hex; cbn [negb] in Hpass.
    + inversion Hpass; subst part. split; [contradiction |].
      intros (rest & Hrest & _). destruct rest as [| r rest].
      * destruct Hrest as (regular & data & E). discriminate E.
      * destruct Hrest as (_ & E & _). discriminate E.
    + apply in_dir_Ok in Hpass. destruct Hpass as (child' & Hc' & Hpass).
      rewrite Hc in Hc'. inversion Hc'; subst child'. apply lookup_In in Hc.
      rewrite (Hsub _ _ Hc Hpass q). split.
      * intros (segs & Hsegs & ->). exists segs. split.
        -- destruct segs as [| s segs]; [contradiction |]. now repeat split.
        -- now rewrite <- app_assoc.
      * intros (rest & Hrest & ->). exists rest. split.
        -- destruct rest as [| r rest].
           ++ destruct Hrest as (regular & data & E). discriminate E.
           ++ now destruct Hrest as (_ & _ & Hrest).
        -- now rewrite <- app_assoc.
  - (* a directory that cannot be listed *)
    destruct (JS.Array_includes (excludeDirs config) file) eqn:Hex; cbn [negb] in Hpass.
    + inversion Hpass; subst part. split; [contradiction |].
      intros (rest & Hrest & _). destruct rest as [| r rest].
      * destruct Hrest as (regular & data & E). discriminate E.
      * destruct Hrest as (_ & E & _). discriminate E.
    + apply in_dir_Ok in Hpass. destruct Hpass as (child' & Hc' & Hpass).
      rewrite Hc in Hc'. inversion Hc'; subst child'. discriminate Hpass.
Qed.

(** What the collector adds for a directory reached through [ds]: the
    paths of the chains that [collectable] describes, and no other. *)
Lemma getAllFiles_collects (config : Config) (n : node) :
  forall ds dir added,
    valid_names n -> denotes dir ds -> Forall valid_name ds ->
    getAllFiles n dir [] config = Ok added ->
    forall p,
      In p added
      <-> exists segs, collectable config n segs /\ p = String.concat "/" (ds ++ segs).
Proof.
  induction n as [regular data | entries IH | e | e] using node_ind;
    intros ds dir added Hvn Hd Hds H p; try discriminate.
  apply valid_names_Dir in Hvn. destruct Hvn as (Hnames & Hchildren).
  rewrite Forall_forall in IH, Hnames, Hchildren.
  rewrite getAllFiles_Dir in H. unfold getAllFiles_body in H.
  apply forEach_parts in H; [| intros st x i _; apply collector_pass].
  destruct H as (parts & Hparts & ->). cbn [app]. rewrite in_concat.
  assert (Hpart : forall file part,
             In file (map fst entries) ->
             (stat <- in_dir (Dir entries) file statSync ;;
              if isDirectory stat then
                if negb (JS.Array_includes (excludeDirs config) file)
                then in_dir (Dir entries) file
                       (fun child => getAllFiles child (Path.join dir file) [] config)
                else Ok []
              else Ok (JS.push [] (Path.join dir file))) = Ok part ->
             forall q,
               In q part
               <-> exists rest,
                   collectable config (Dir entries) (file :: rest)
                   /\ q = String.concat "/" (ds ++ file :: rest)).
  { intros file part Hfile. apply collector_part_collects; auto.
    intros child added Hc Hadded.
    pose proof (IH _ Hc (ds ++ [file])%list (Path.join dir file) added) as Hi.
    cbn [snd] in Hi. apply Hi; auto.
    - apply (Hchildren _ Hc).
    - apply join_denotes; auto.
    - apply Forall_app. split; [exact Hds |]. constructor; [now apply Hnames | constructor]. }
  split.
  - intros (part & Hin & Hq).
    destruct (Forall2_In_r _ _ _ _ Hparts Hin) as (file & Hfile & Hpass).
    apply (Hpart file part Hfile Hpass) in Hq.
    destruct Hq as (rest & Hrest & ->). now exists (file :: rest).
  - intros (segs & Hsegs & ->). destruct segs as [| file rest]; [contradiction |].
    assert (Hfile : In file (map fst entries)).
    { cbn [collectable] in Hsegs.
      destruct (lookup file entries) eqn:E; [| contradiction].
      now apply lookup_name_In in E. }
    destruct (Forall2_In_l _ _ _ _ Hparts Hfile) as (part & Hin & Hpass).
    exists part. split; [exact Hin |].
    apply (Hpart file part Hfile Hpass). now exists rest.
Qed.

(* ================================================================= *)
(** ** No path is collected twice *)

Lemma collectable_valid (config : Config) (segs : list string) :
  forall n, valid_names n -> collectable config n segs -> Forall valid_name segs.
Proof.
  induction segs as [| name rest IH]; intros n Hvn H; [constructor |].
  destruct n as [regular data | entries | e | e]; cbn [collectable] in H; try contradiction.
  destruct (lookup name entries) as [child |] eqn:E; [| contradiction].
  apply valid_names_Dir in Hvn. destruct Hvn as (Hnames & Hchildren).
  rewrite Forall_forall in Hnames, Hchildren.
  constructor.
  - apply Hnames. now apply lookup_name_In in E.
  - destruct rest as [| r rest]; [constructor |].
    destruct H as (_ & _ & H). apply (IH child); [| exact H].
    apply (Hchildren _ (lookup_In _ _ _ E)).
Qed.




(* ================================================================= *)
(** ** The type of a file *)

Lemma split_nonempty (p : string) : Path.split p <> [].
Proof.
  destruct p as [| c p]; cbn [Path.split]; [discriminate |].
  destruct (Ascii.eqb c Path.slash); [discriminate |].
  destruct (Path.split p); discriminate.
Qed.

(** The pieces of two paths joined by a slash are the pieces of the
    one, then the pieces of the other. *)
Lemma split_app_slash (a b : string) :
  Path.split (a ++ "/" ++ b) = (Path.split a ++ Path.split b)%list.
Proof.
  induction a as [| c a IH]; [reflexivity |].
  change (String c a ++ "/" ++ b) with (String c (a ++ "/" ++ b)).
  cbn [Path.split]. rewrite IH.
  destruct (Ascii.eqb c Path.slash); [reflexivity |].
  pose proof (split_nonempty a) as Hne.
  destruct (Path.split a) as [| seg segs]; [now elim Hne | reflexivity].
Qed.

Lemma basename_of_name (name : string) :
  name <> "" -> has_slash name = false -> Path.basename name = name.
Proof.
  intros Hne Hs. unfold Path.basename. rewrite (split_one name Hs). cbn [filter].
  apply String.eqb_neq in Hne. now rewrite Hne.
Qed.

Lemma basename_below (dir name : string) :
  name <> "" -> has_slash name = false -> Path.basename (dir ++ "/" ++ name) = name.
Proof.
  intros Hne Hs. unfold Path.basename.
  rewrite split_app_slash, (split_one name Hs), filter_app. cbn [filter].
  apply String.eqb_neq in Hne. rewrite Hne. cbn [negb]. apply last_last.
Qed.

Lemma getFileType_below (dir name : string) (config : Config) :
  name <> "" -> has_slash name = false ->
  getFileType (dir ++ "/" ++ name) config = getFileType name config.
Proof.
  intros Hne Hs. unfold getFileType, Path.extname.
  now rewrite (basename_below dir name Hne Hs), (basename_of_name name Hne Hs).
Qed.

Lemma from_last_dot_None (s : string) :
  has_dot s = false -> Path.from_last_dot s = None.
Proof.
  induction s as [| c s IH]; [reflexivity |].
  cbn [has_dot Path.from_last_dot]. intros H. apply orb_false_iff in H.
  destruct H as (Hc & Hs). now rewrite (IH Hs), Hc.
Qed.

(** A name whose only dot is its first character has no extension. *)
Lemma extname_dotfile (rest : string) :
  has_slash rest = false -> has_dot rest = false -> Path.extname ("." ++ rest) = "".
Proof.
  intros Hs Hd. unfold Path.extname.
  rewrite basename_of_name; [| discriminate | exact Hs].
  change ("." ++ rest) with (String Path.dot rest).
  cbn [Path.from_last_dot]. rewrite (from_last_dot_None rest Hd).
  change (Ascii.eqb Path.dot Path.dot) with true. cbv iota.
  now rewrite String.eqb_refl.
Qed.

(* ================================================================= *)
(** ** The order of the entries *)

Lemma insert_sorted_swap (x y : string) (l : list string) :
  JS.insert_sorted x (JS.insert_sorted y l) = JS.insert_sorted y (JS.insert_sorted x l).
Proof.
  induction l as [| z l IH]; cbn [JS.insert_sorted].
  - destruct (JS.units_leb x y) eqn:Exy, (JS.units_leb y x) eqn:Eyx; try reflexivity.
    + now rewrite (units_leb_antisym _ _ Exy Eyx).
    + destruct (units_leb_total x y); congruence.
  - destruct (JS.units_leb x z) eqn:Exz, (JS.units_leb y z) eqn:Eyz; cbn [JS.insert_sorted].
    + rewrite Exz, Eyz.
      destruct (JS.units_leb x y) eqn:Exy, (JS.units_leb y x) eqn:Eyx; try reflexivity.
      * now rewrite (units_leb_antisym _ _ Exy Eyx).
      * destruct (units_leb_total x y); congruence.
    + rewrite Exz.
      destruct (JS.units_leb y x) eqn:Eyx.
      * rewrite (units_leb_trans _ _ _ Eyx Exz) in Eyz. discriminate.
      * cbn [JS.insert_sorted]. now rewrite Eyz.
    + rewrite Eyz.
      destruct (JS.units_leb x y) eqn:Exy.
      * rewrite (units_leb_trans _ _ _ Exy Eyz) in Exz. discriminate.
      * cbn [JS.insert_sorted]. now rewrite Exz.
    + rewrite Exz, Eyz. now rewrite IH.
Qed.

(** Sorting forgets the order the array came in. *)
Lemma Array_sort_Permutation (l l' : list string) :
  Permutation l l' -> JS.Array_sort l = JS.Array_sort l'.
Proof.
  unfold JS.Array_sort.
  induction 1 as [| x l l' _ IH | x y l | l l' l'' _ IH1 _ IH2]; cbn [fold_right].
  - reflexivity.
  - now rewrite IH.
  - apply insert_sorted_swap.
  - now rewrite IH1.
Qed.

Lemma filter_Permutation {A : Type} (p : A -> bool) (l l' : list A) :
  Permutation l l' -> Permutation (filter p l) (filter p l').
Proof.
  induction 1 as [| x l l' _ IH | x y l | l l' l'' _ IH1 _ IH2]; cbn [filter].
  - constructor.
  - destruct (p x); [now constructor | exact IH].
  - destruct (p x), (p y); try reflexivity. constructor.
  - now transitivity (filter p l').
Qed.

Lemma concat_Permutation {A : Type} (l l' : list (list A)) :
  Permutation l l' -> Permutation (concat l) (concat l').
Proof.
  induction 1 as [| x l l' _ IH | x y l | l l' l'' _ IH1 _ IH2]; cbn [concat].
  - constructor.
  - now apply Permutation_app_head.
  - rewrite !app_assoc. apply Permutation_app_tail, Permutation_app_comm.
  - now transitivity (concat l').
Qed.

Lemma concat_pointwise_Permutation {A : Type} (l l' : list (list A)) :
  Forall2 (@Permutation A) l l' -> Permutation (concat l) (concat l').
Proof.
  induction 1 as [| x y l l' Hxy _ IH]; cbn [concat]; [constructor |].
  now apply Permutation_app.
Qed.

(** The selection of the files to report forgets the order of
    collection. *)
Lemma selectFiles_Permutation (all all' : list string) (config : Config)
      (__filename : string) :
  Permutation all all' ->
  selectFiles all config __filename = selectFiles all' config __filename.
Proof.
  intros H. unfold selectFiles. now apply Array_sort_Permutation, filter_Permutation,
    filter_Permutation, filter_Permutation.
Qed.

Lemma lookup_listed (name : string) (entries : list (string * node)) :
  In name (map fst entries) -> exists child, lookup name entries = Some child.
Proof.
  induction entries as [| [n c] entries IH]; cbn [map fst lookup In]; [contradiction |].
  intros [-> | H].
  - rewrite String.eqb_refl. eauto.
  - destruct (n =? name); eauto.
Qed.

Lemma same_content_stat (n n' : node) : same_content n n' -> statSync n = statSync n'.
Proof. now destruct 1. Qed.

Lemma same_content_sym (n n' : node) : same_content n n' -> same_content n' n.
Proof.
  induction 1 as [n | es es' Hperm Hsame IH]; [constructor |].
  apply same_dir; [now symmetry |].
  intros name c' c Hc' Hc. now apply (IH name c c').
Qed.

(** An entry of the one directory, as the other directory has it. *)
Lemma same_content_entry (es es' : list (string * node)) (name : string) (child : node) :
  Permutation (map fst es) (map fst es') ->
  (forall name child child',
      lookup name es = Some child -> lookup name es' = Some child' ->
      same_content child child') ->
  lookup name es = Some child ->
  exists child', lookup name es' = Some child' /\ same_content child child'.
Proof.
  intros Hperm Hsame Hc.
  destruct (lookup_listed name es') as (child' & Hc').
  { apply (Permutation_in _ Hperm). now apply lookup_name_In in Hc. }
  exists child'. split; [exact Hc' |]. now apply (Hsame name).
Qed.

Lemma Array_filter_Ok_each {A : Type} (pred : A -> result bool) (arr kept : list A) :
  JS.Array_filter pred arr = Ok kept -> forall x, In x arr -> exists b, pred x = Ok b.
Proof.
  revert kept. induction arr as [| y arr IH]; intros kept H x Hx; [contradiction |].
  cbn [JS.Array_filter] in H.
  apply bind_Ok in H. destruct H as (keep & Hy & H).
  apply bind_Ok in H. destruct H as (rest & Hrest & _).
  destruct Hx as [<- | Hx]; [eauto | now apply (IH rest)].
Qed.

Lemma Array_filter_total {A : Type} (pred : A -> result bool) (arr : list A) :
  (forall x, In x arr -> exists b, pred x = Ok b) ->
  JS.Array_filter pred arr = Ok (filter (holds pred) arr).
Proof.
  induction arr as [| y arr IH]; intros H; [reflexivity |].
  cbn [JS.Array_filter filter]. unfold holds at 1.
  destruct (H y (or_introl eq_refl)) as (b & ->). cbn [bind].
  rewrite IH by (intros x Hx; apply H; now right). reflexivity.
Qed.

(** Filtering a reordered array with a predicate that answers the same
    returns the same elements, reordered. *)
Lemma Array_filter_Permutation {A : Type} (pred pred' : A -> result bool)
      (arr arr' kept : list A) :
  Permutation arr arr' ->
  (forall x, In x arr -> pred' x = pred x) ->
  JS.Array_filter pred arr = Ok kept ->
  exists kept', JS.Array_filter pred' arr' = Ok kept' /\ Permutation kept kept'.
Proof.
  intros Hperm Hext H.
  pose proof (Array_filter_Ok_each _ _ _ H) as Heach.
  apply Array_filter_Ok in H. subst kept.
  exists (filter (holds pred') arr'). split.
  - apply Array_filter_total. intros x Hx.
    apply (Permutation_in _ (Permutation_sym Hperm)) in Hx.
    rewrite (Hext x Hx). now apply Heach.
  - rewrite (filter_ext_in' (holds pred) (holds pred') arr).
    + now apply filter_Permutation.
    + intros x Hx. unfold holds. now rewrite Hext.
Qed.

Lemma forEach_Ok_mono {A S : Type} (body body' : S -> A -> Z -> result S) (arr : list A) :
  (forall st x i st', In x arr -> body st x i = Ok st' -> body' st x i = Ok st') ->
  forall from st out,
    JS.forEach body from arr st = Ok out -> JS.forEach body' from arr st = Ok out.
Proof.
  induction arr as [| x arr IH]; intros Hb from st out H; [exact H |].
  cbn [JS.forEach] in *. apply bind_Ok in H. destruct H as (st1 & H1 & H).
  rewrite (Hb _ _ _ _ (or_introl eq_refl) H1). cbn [bind].
  apply IH; [| exact H]. intros st' y i st'' Hy. apply Hb. now right.
Qed.

(** The renderer's body on a reordered listing. *)
Lemma generateTree_body_Permutation (files files' : list string)
      (stat stat' : string -> result Stats)
      (recur recur' : string -> string -> result (list string))
      (prefix : string) (config : Config) (__filename : string) (lines : list string) :
  Permutation files files' ->
  (forall f, In f files -> stat' f = stat f) ->
  (forall d p sub, In d files -> recur d p = Ok sub -> recur' d p = Ok sub) ->
  generateTree_body files stat recur prefix config __filename = Ok lines ->
  generateTree_body files' stat' recur' prefix config __filename = Ok lines.
Proof.
  intros Hperm Hstat Hrec H. unfold generateTree_body in *. cbv zeta in *.
  apply bind_Ok in H. destruct H as (dirs & Hd & H).
  apply bind_Ok in H. destruct H as (fileNames & Hf & H).
  apply bind_Ok in H. destruct H as (l1 & H1 & H).
  apply bind_Ok in H. destruct H as (l2 & H2 & H).
  assert (Hd' : exists dirs',
             JS.Array_filter
               (fun f => stat <- stat' f ;;
                         Ok (isDirectory stat
                             && negb (JS.Array_includes (excludeDirs config) f)))
               files' = Ok dirs'
             /\ Permutation dirs dirs').
  { apply (Array_filter_Permutation
             (fun f => stat <- stat f ;;
                       Ok (isDirectory stat
                           && negb (JS.Array_includes (excludeDirs config) f))) _ files);
      [exact Hperm | | exact Hd].
    intros f Hin. now rewrite Hstat. }
  assert (Hf' : exists fileNames',
             JS.Array_filter
               (fun f => stat <- stat' f ;;
                         Ok (isFile stat
                             && negb (JS.Array_includes (excludeFiles config) f)
                             && negb (f =? Path.basename __filename)))
               files' = Ok fileNames'
             /\ Permutation fileNames fileNames').
  { apply (Array_filter_Permutation
             (fun f => stat <- stat f ;;
                       Ok (isFile stat
                           && negb (JS.Array_includes (excludeFiles config) f)
                           && negb (f =? Path.basename __filename))) _ files);
      [exact Hperm | | exact Hf].
    intros f Hin. now rewrite Hstat. }
  destruct Hd' as (dirs' & Hd' & Pd). destruct Hf' as (fileNames' & Hf' & Pf).
  rewrite Hd'. cbn [bind]. rewrite Hf'. cbn [bind].
  rewrite <- (Array_sort_Permutation _ _ Pd), <- (Array_sort_Permutation _ _ Pf).
  rewrite H1. cbn [bind].
  erewrite forEach_Ok_mono; [ | | exact H2].
  - exact H.
  - intros st d i st' Hin Hpass. cbv beta in Hpass |- *.
    apply bind_Ok in Hpass. destruct Hpass as (sub & Hsub & Hpass).
    apply Array_filter_Ok in Hd. subst dirs.
    apply Array_sort_In, filter_In in Hin. destruct Hin as (Hin & _).
    now rewrite (Hrec _ _ _ Hin Hsub).
Qed.

(** The renderer on a directory whose entries come in another order. *)
Lemma generateTree_same_content (config : Config) (__filename : string) (n n' : node) :
  same_content n n' ->
  forall prefix lines,
    generateTree n prefix config __filename = Ok lines ->
    generateTree n' prefix config __filename = Ok lines.
Proof.
  induction 1 as [n | es es' Hperm Hsame IH]; intros prefix lines H; [exact H |].
  rewrite generateTree_Dir in *. revert H.
  apply generateTree_body_Permutation; [exact Hperm | |].
  - intros f Hin. destruct (lookup_listed f es Hin) as (c & Hc).
    destruct (same_content_entry es es' f c Hperm Hsame Hc) as (c' & Hc' & Hs).
    cbn [in_dir]. rewrite !at_entry_lookup, Hc, Hc'. symmetry. now apply same_content_stat.
  - intros d p sub _ Hsub.
    apply in_dir_Ok in Hsub. destruct Hsub as (c & Hc & Hsub).
    destruct (same_content_entry es es' d c Hperm Hsame Hc) as (c' & Hc' & _).
    cbn [in_dir]. rewrite at_entry_lookup, Hc'. now apply (IH d c c' Hc Hc').
Qed.

Lemma Forall2_pointwise {A B : Type} (R R' : A -> B -> Prop) (S : B -> B -> Prop)
      (l : list A) (parts : list B) :
  Forall2 R l parts ->
  (forall x y, In x l -> R x y -> exists y', R' x y' /\ S y y') ->
  exists parts', Forall2 R' l parts' /\ Forall2 S parts parts'.
Proof.
  induction 1 as [| x y l parts Hxy _ IH]; intros H.
  - exists []. split; constructor.
  - destruct (H x y (or_introl eq_refl) Hxy) as (y' & Hy' & Hs).
    destruct IH as (parts' & Hparts' & Hss); [intros a b Ha; apply H; now right |].
    exists (y' :: parts'). split; now constructor.
Qed.

Lemma Forall2_Permutation {A B : Type} (R : A -> B -> Prop) (l l' : list A) :
  Permutation l l' ->
  forall parts,
    Forall2 R l parts ->
    exists parts', Forall2 R l' parts' /\ Permutation parts parts'.
Proof.
  induction 1 as [| x l l' _ IH | x y l | l l' l'' _ IH1 _ IH2]; intros parts H.
  - inversion H; subst. exists []. split; constructor.
  - inversion H as [| ? b ? ps Hb Hps]; subst.
    destruct (IH ps Hps) as (ps' & Hps' & Hp).
    exists (b :: ps'). split; now constructor.
  - inversion H as [| ? b ? ps Hb Hps]; subst.
    inversion Hps as [| ? c ? qs Hc Hqs]; subst.
    exists (c :: b :: qs). split; [now repeat constructor | constructor].
  - destruct (IH1 parts H) as (ps' & Hps' & Hp).
    destruct (IH2 ps' Hps') as (ps'' & Hps'' & Hp').
    exists ps''. split; [exact Hps'' | now transitivity ps'].
Qed.

(** A loop of appending passes, from what each pass adds. *)
Lemma forEach_of_parts {A B : Type} (body : list B -> A -> Z -> result (list B))
      (arr : list A) :
  (forall st x i, In x arr ->
                  body st x i = (added <- body [] x 0%Z ;; Ok (st ++ added)%list)) ->
  forall parts,
    Forall2 (fun x part => body [] x 0%Z = Ok part) arr parts ->
    forall from st, JS.forEach body from arr st = Ok (st ++ concat parts)%list.
Proof.
  induction arr as [| x arr IH]; intros Hbody parts H from st;
    inversion H as [| ? part ? ps Hpart Hps]; subst.
  - cbn [JS.forEach concat]. now rewrite app_nil_r.
  - cbn [JS.forEach]. rewrite (Hbody st x from (or_introl eq_refl)), Hpart. cbn [bind].
    rewrite (IH (fun st' y i Hy => Hbody st' y i (or_intror Hy)) ps Hps).
    cbn [concat]. now rewrite app_assoc.
Qed.

(** The collector on a directory whose entries come in another order:
    the same paths, in another order. *)
Lemma getAllFiles_same_content (config : Config) (n n' : node) :
  same_content n n' ->
  forall dir all,
    getAllFiles n dir [] config = Ok all ->
    exists all', getAllFiles n' dir [] config = Ok all' /\ Permutation all all'.
Proof.
  induction 1 as [n | es es' Hperm Hsame IH]; intros dir all H; [now exists all |].
  rewrite getAllFiles_Dir in *. unfold getAllFiles_body in *.
  apply forEach_parts in H; [| intros st x i _; apply collector_pass].
  destruct H as (parts & Hparts & ->). cbn [app].
  apply (Forall2_pointwise _
           (fun x part =>
              (stat <- in_dir (Dir es') x statSync ;;
               if isDirectory stat then
                 if negb (JS.Array_includes (excludeDirs config) x)
                 then in_dir (Dir es') x
                        (fun child => getAllFiles child (Path.join dir x) [] config)
                 else Ok []
               else Ok (JS.push [] (Path.join dir x))) = Ok part)
           (@Permutation string)) in Hparts.
  - destruct Hparts as (parts1 & Hparts1 & Hp1).
    destruct (Forall2_Permutation _ _ _ Hperm _ Hparts1) as (parts' & Hparts' & Hp').
    exists (concat parts'). split.
    + rewrite (forEach_of_parts _ _ (fun st x i _ => collector_pass config es' dir st x)
                 parts' Hparts').
      reflexivity.
    + transitivity (concat parts1);
        [now apply concat_pointwise_Permutation | now apply concat_Permutation].
  - intros x part Hin Hpass. cbv beta in Hpass.
    apply bind_Ok in Hpass. destruct Hpass as (stat & Hstat & Hpass).
    apply in_dir_Ok in Hstat. destruct Hstat as (c & Hc & Hstat).
    destruct (same_content_entry es es' x c Hperm Hsame Hc) as (c' & Hc' & Hs).
    cbn [in_dir]. rewrite !at_entry_lookup, Hc'.
    rewrite <- (same_content_stat _ _ Hs), Hstat. cbn [bind].
    destruct (isDirectory stat); [| exists part; split; [exact Hpass | reflexivity]].
    destruct (negb (JS.Array_includes (excludeDirs config) x));
      [| exists part; split; [exact Hpass | reflexivity]].
    apply in_dir_Ok in Hpass. destruct Hpass as (c0 & Hc0 & Hpass).
    rewrite Hc in Hc0. inversion Hc0; subst c0.
    apply (IH x c c' Hc Hc'). exact Hpass.
Qed.

(** Following a path through a directory whose entries come in another
    order. *)
Lemma walk_same_content (segs : list string) :
  forall n n',
    same_content n n' ->
    match walk n segs, walk n' segs with
    | Ok m, Ok m' => same_content m m'
    | Throw e, Throw e' => e = e'
    | _, _ => False
    end.
Proof.
  induction segs as [| seg segs IH]; intros n n' H; [exact H |].
  destruct H as [n | es es' Hperm Hsame].
  - destruct (walk n (seg :: segs)); [constructor | reflexivity].
  - cbn [walk]. destruct (lookup seg es) as [c |] eqn:Hc.
    + destruct (same_content_entry es es' seg c Hperm Hsame Hc) as (c' & Hc' & Hs).
      rewrite Hc'. now apply IH.
    + destruct (lookup seg es') as [c' |] eqn:Hc'; [| reflexivity].
      apply lookup_name_In in Hc'.
      apply (Permutation_in _ (Permutation_sym Hperm)) in Hc'.
      destruct (lookup_listed seg es Hc') as (c & Hc0). congruence.
Qed.

Lemma readFileSync_same_content (n n' : node) (p : string) :
  same_content n n' -> readFileSync n p = readFileSync n' p.
Proof.
  intros H. unfold readFileSync.
  destruct (segments p) as [segs | e]; cbn [bind]; [| reflexivity].
  pose proof (walk_same_content segs n n' H) as Hw.
  destruct (walk n segs) as [m | e], (walk n' segs) as [m' | e'];
    try contradiction; cbn [bind]; [| now subst].
  now destruct Hw.
Qed.

Lemma report_of_same_content (n n' : node) (config : Config) (tree files : list string) :
  same_content n n' -> report_of n config tree files = report_of n' config tree files.
Proof.
  intros H. unfold report_of. do 2 f_equal.
  apply flat_map_ext. intros p. unfold fileBlock, processFile.
  now rewrite (readFileSync_same_content n n' p H).
Qed.

(** The assembler on a directory whose entries come in another order. *)
Lemma generateStructure_same_content (cwd cwd' : node) (options : Options)
      (__filename report : string) :
  same_content cwd cwd' ->
  generateStructure cwd options __filename = Ok report ->
  generateStructure cwd' options __filename = Ok report.
Proof.
  intros Hs H. apply generateStructure_Ok in H. cbv zeta in H.
  destruct H as (tree & all & Ht & Ha & ->).
  rewrite generateStructure_unrolled. cbv zeta.
  rewrite (generateTree_same_content _ _ _ _ Hs _ _ Ht). cbn [bind].
  destruct (getAllFiles_same_content _ _ _ Hs _ _ Ha) as (all' & Ha' & Hp).
  rewrite Ha'. cbn [bind].
  now rewrite (selectFiles_Permutation _ _ _ _ Hp), (report_of_same_content _ _ _ _ _ Hs).
Qed.

(* ================================================================= *)
(** ** The tree and the contents section *)

Lemma append_all_part {A : Type} (parts : list (result (list A))) (all : list A)
      (p : result (list A)) :
  append_all parts = Ok all -> In p parts -> exists x, p = Ok x /\ incl x all.
Proof.
  revert all. induction parts as [| q parts IH]; intros all H Hp; [contradiction |].
  cbn [append_all] in H. apply bind_Ok in H. destruct H as (x & -> & H).
  apply bind_Ok in H. destruct H as (rest & Hrest & H). inversion H; subst.
  destruct Hp as [<- | Hp].
  - exists x. split; [reflexivity | apply incl_appl, incl_refl].
  - destruct (IH rest Hrest Hp) as (y & -> & Hy).
    exists y. split; [reflexivity | now apply incl_appr].
Qed.

(** The last piece of a path made of entry names is its last name. *)
Lemma basename_concat (segs : list string) :
  segs <> [] -> Forall valid_name segs ->
  Path.basename (String.concat "/" segs) = last segs "".
Proof.
  intros Hne Hv. unfold Path.basename. rewrite (split_concat segs Hne Hv).
  assert (E : filter (fun s => negb (s =? "")) segs = segs).
  { clear Hne. induction Hv as [| x l (Hx & _) _ IH]; [reflexivity |].
    cbn [filter]. apply String.eqb_neq in Hx. rewrite Hx. cbn [negb]. now rewrite IH. }
  now rewrite E.
Qed.

Lemma append_all_split {A : Type} (parts : list (result (list A))) (all : list A)
      (p : result (list A)) :
  append_all parts = Ok all -> In p parts ->
  exists x before after, p = Ok x /\ all = (before ++ x ++ after)%list.
Proof.
  revert all. induction parts as [| q parts IH]; intros all H Hp; [contradiction |].
  cbn [append_all] in H. apply bind_Ok in H. destruct H as (x & -> & H).
  apply bind_Ok in H. destruct H as (rest & Hrest & H). inversion H; subst.
  destruct Hp as [<- | Hp].
  - exists x, [], rest. split; reflexivity.
  - destruct (IH rest Hrest Hp) as (y & before & after & -> & ->).
    exists y, (x ++ before)%list, after. split; [reflexivity |].
    now rewrite <- app_assoc.
Qed.

(** The renderer has the line of a regular file at the end of a chain
    the collector follows, where the chain puts it, unless the file's
    name is excluded or is the program's own. *)
Lemma generateTree_displayed (config : Config) (__filename : string) (segs : list string) :
  forall n prefix lines data,
    collectable config n segs ->
    walk n segs = Ok (File true data) ->
    JS.Array_includes (excludeFiles config) (last segs "") = false ->
    last segs "" <> Path.basename __filename ->
    generateTree n prefix config __filename = Ok lines ->
    displayed_in config __filename n prefix lines segs.
Proof.
  induction segs as [| name rest IH]; intros n prefix lines data Hc Hw Hex Hself H;
    [contradiction |].
  destruct n as [regular data0 | entries | e | e]; cbn [collectable] in Hc;
    try contradiction.
  destruct (lookup name entries) as [child |] eqn:E; [| contradiction].
  cbn [walk] in Hw. rewrite E in Hw.
  apply generateTree_Dir_Ok in H. cbv zeta in H. destruct H as (below & Hb & ->).
  destruct rest as [| r rest].
  - cbn [walk] in Hw. inversion Hw; subst child. cbn [last] in *.
    assert (Hin : In name
                    (JS.Array_sort
                       (filter (eligible_file (Dir entries) config __filename)
                          (map fst entries)))).
    { apply Array_sort_In, filter_In. split; [now apply lookup_name_In in E |].
      unfold eligible_file. cbn [in_dir]. rewrite at_entry_lookup, E.
      cbn [statSync isFile]. rewrite Hex.
      apply String.eqb_neq in Hself. now rewrite Hself. }
    match goal with
    | |- displayed_in _ _ _ _ (JS.map_indexed ?f _ _ ++ _)%list _ =>
        destruct (map_indexed_In f _ _ 0%Z Hin) as (i & Hi)
    end.
    cbv beta in Hi. unfold branch in Hi. cbn [displayed_in].
    eexists. apply in_or_app. left. exact Hi.
  - destruct Hc as (Hdir & Hnot & Hc).
    change (last (name :: r :: rest) "") with (last (r :: rest) "") in *.
    assert (Hin : In name
                    (JS.Array_sort
                       (filter (eligible_dir (Dir entries) config) (map fst entries)))).
    { apply Array_sort_In, filter_In. split; [now apply lookup_name_In in E |].
      unfold eligible_dir. cbn [in_dir]. rewrite at_entry_lookup, E.
      rewrite (statSync_directory _ Hdir). cbn [isDirectory]. now rewrite Hnot. }
    match type of Hb with
    | append_all (JS.map_indexed ?f _ _) = _ =>
        destruct (map_indexed_In f _ _ 0%Z Hin) as (i & Hi)
    end.
    destruct (append_all_split _ _ _ Hb Hi) as (part & before & after & Hpart & ->).
    cbv beta zeta in Hpart. apply bind_Ok in Hpart. destruct Hpart as (sub & Hsub & Hpart).
    inversion Hpart; subst part.
    apply in_dir_Ok in Hsub. destruct Hsub as (child' & Hc' & Hsub).
    rewrite E in Hc'. inversion Hc'; subst child'.
    unfold branch, indent in Hsub |- *.
    cbn [displayed_in]. rewrite E.
    eexists _, (_ ++ before)%list, sub, after.
    split; [| split; [exact Hsub | exact (IH child _ _ data Hc Hw Hex Hself Hsub)]].
    cbn [app]. now rewrite <- app_assoc.
Qed.

Lemma eligible_file_not_excluded (n : node) (config : Config) (__filename f : string) :
  eligible_file n config __filename f = true ->
  JS.Array_includes (excludeFiles config) f = false.
Proof.
  unfold eligible_file. destruct (in_dir n f statSync); [| discriminate].
  intros H. apply andb_true_iff in H. destruct H as (H & _).
  apply andb_true_iff in H. destruct H as (_ & H). now apply negb_true_iff in H.
Qed.

Lemma has_slash_label (dirName : string) : has_slash (dirName ++ "/") = true.
Proof.
  induction dirName as [| c d IH]; [reflexivity |].
  change (String c d ++ "/") with (String c (d ++ "/")).
  cbn [has_slash]. rewrite IH. apply orb_true_r.
Qed.

(** Every line of a tree is the line of a file whose name is not among
    the excluded files, or the line of a directory, which ends in a
    slash. *)
Lemma generateTree_line_kinds (config : Config) (__filename : string) (n : node) :
  forall levels lines,
    generateTree n (indentation levels) config __filename = Ok lines ->
    Forall (fun l =>
              exists levels' isLast name,
                l = indentation levels' ++ branch isLast ++ name
                /\ (JS.Array_includes (excludeFiles config) name = false
                    \/ has_slash name = true))
           lines.
Proof.
  induction n as [regular data | entries IH | e | e] using node_ind;
    intros levels lines H; try discriminate.
  apply generateTree_Dir_Ok in H. cbv zeta in H.
  destruct H as (below & Hb & ->).
  apply Forall_app. split; apply Forall_forall; intros l Hl.
  - apply In_map_indexed in Hl. destruct Hl as (file & i & Hin & ->).
    apply Array_sort_In, filter_In in Hin. destruct Hin as (_ & Hel).
    eexists levels, _, file. split; [reflexivity |].
    left. now apply eligible_file_not_excluded in Hel.
  - destruct (append_all_In _ _ _ Hb Hl) as (part & Hp & Hin).
    apply In_map_indexed in Hp. destruct Hp as (dirName & i & _ & Hp).
    symmetry in Hp. apply bind_Ok in Hp. destruct Hp as (sub & Hsub & Hp).
    inversion Hp; subst part; clear Hp.
    destruct Hin as [<- | Hin].
    + eexists levels, _, (dirName ++ "/"). split; [reflexivity |].
      right. apply has_slash_label.
    + apply in_dir_Ok in Hsub. destruct Hsub as (child & Hc & Hsub).
      apply lookup_In in Hc. rewrite Forall_forall in IH.
      specialize (IH _ Hc). simpl in IH.
      rewrite <- indentation_app in Hsub.
      specialize (IH _ _ Hsub). rewrite Forall_forall in IH. now apply IH.
Qed.

(* ================================================================= *)
(** ** What each function reads of the configuration *)

Lemma getAllFiles_config (config config' : Config) (n : node) :
  excludeDirs config = excludeDirs config' ->
  forall dir fileList,
    getAllFiles n dir fileList config = getAllFiles n dir fileList config'.
Proof.
  intros Hd. induction n as [regular data | entries IH | e | e] using node_ind;
    intros dir fileList; try reflexivity.
  rewrite !getAllFiles_Dir. unfold getAllFiles_body. rewrite Hd.
  apply forEach_ext. intros st file i _.
  destruct (in_dir (Dir entries) file statSync) as [stat |]; cbn [bind]; [| reflexivity].
  destruct (isDirectory stat); [| reflexivity].
  destruct (negb _); [| reflexivity].
  apply in_dir_ext. intros child Hc. rewrite Forall_forall in IH. apply (IH _ Hc).
Qed.

Lemma generateTree_config (config config' : Config) (__filename : string) (n : node) :
  excludeDirs config = excludeDirs config' ->
  excludeFiles config = excludeFiles config' ->
  forall prefix,
    generateTree n prefix config __filename = generateTree n prefix config' __filename.
Proof.
  intros Hd Hf. induction n as [regular data | entries IH | e | e] using node_ind;
    intros prefix; try reflexivity.
  rewrite !generateTree_Dir.
  rewrite (generateTree_body_ext _ _ _
             (fun dirName prefix' =>
                in_dir (Dir entries) dirName
                  (fun child => generateTree child prefix' config' __filename))
             prefix config __filename).
  - unfold generateTree_body. now rewrite Hd, Hf.
  - intros dirName prefix' _. apply in_dir_ext. intros child Hc.
    rewrite Forall_forall in IH. apply (IH _ Hc).
Qed.

(* ================================================================= *)
(** ** The files of the tree are collected *)

Lemma eligible_file_child (entries : list (string * node)) (config : Config)
      (__filename f : string) :
  eligible_file (Dir entries) config __filename f = true ->
  exists data, lookup f entries = Some (File true data).
Proof.
  unfold eligible_file. cbn [in_dir]. rewrite at_entry_lookup.
  destruct (lookup f entries) as [child |]; [| discriminate].
  destruct child as [regular data | es | e | e]; cbn [statSync isFile andb];
    try discriminate.
  destruct regular; [eauto | discriminate].
Qed.

Lemma eligible_dir_not_excluded (n : node) (config : Config) (f : string) :
  eligible_dir n config f = true -> JS.Array_includes (excludeDirs config) f = false.
Proof.
  unfold eligible_dir. destruct (in_dir n f statSync); [| discriminate].
  intros H. apply andb_true_iff in H. destruct H as (_ & H).
  now apply negb_true_iff in H.
Qed.

(** Every line of a tree is the line of a directory or the line of a
    regular file at the end of a chain the collector follows; the line
    is indented to the depth of the chain. *)
Lemma generateTree_line_chains (config : Config) (__filename : string) (n : node) :
  forall levels lines,
    generateTree n (indentation levels) config __filename = Ok lines ->
    Forall (fun l =>
              exists levels' isLast name,
                l = indentation levels' ++ branch isLast ++ name
                /\ ((exists dirName, name = dirName ++ "/")
                    \/ exists segs data,
                      collectable config n segs
                      /\ walk n segs = Ok (File true data)
                      /\ last segs "" = name
                      /\ List.length levels'
                         = (List.length levels + List.length segs - 1)%nat))
           lines.
Proof.
  induction n as [regular data | entries IH | e | e] using node_ind;
    intros levels lines H; try discriminate.
  apply generateTree_Dir_Ok in H. cbv zeta in H.
  destruct H as (below & Hb & ->).
  apply Forall_app. split; apply Forall_forall; intros l Hl.
  - apply In_map_indexed in Hl. destruct Hl as (file & i & Hin & ->).
    apply Array_sort_In, filter_In in Hin. destruct Hin as (_ & Hel).
    apply eligible_file_child in Hel. destruct Hel as (data & Hc).
    eexists levels, _, file. split; [reflexivity |].
    right. exists [file], data. cbn [collectable walk last List.length]. rewrite Hc.
    split; [eauto |]. split; [reflexivity |]. split; [reflexivity | lia].
  - destruct (append_all_In _ _ _ Hb Hl) as (part & Hp & Hin).
    apply In_map_indexed in Hp. destruct Hp as (dirName & i & Hdir & Hp).
    symmetry in Hp. apply bind_Ok in Hp. destruct Hp as (sub & Hsub & Hp).
    inversion Hp; subst part; clear Hp.
    destruct Hin as [<- | Hin].
    + eexists levels, _, (dirName ++ "/"). split; [reflexivity |]. left. now exists dirName.
    + apply Array_sort_In, filter_In in Hdir. destruct Hdir as (_ & Hel).
      apply eligible_dir_not_excluded in Hel.
      apply in_dir_Ok in Hsub. destruct Hsub as (child & Hc & Hsub).
      pose proof (lookup_In _ _ _ Hc) as Hchild. rewrite Forall_forall in IH.
      specialize (IH _ Hchild). cbn [snd] in IH.
      rewrite <- indentation_app in Hsub.
      assert (Hd : is_directory child = true).
      { destruct child; (reflexivity || discriminate Hsub). }
      specialize (IH _ _ Hsub). rewrite Forall_forall in IH.
      destruct (IH l Hin) as (levels' & isLast & name & -> & Hkind).
      exists levels', isLast, name. split; [reflexivity |].
      destruct Hkind as [Hkind | (segs & data & Hchain & Hw & Hlast & Hlen)];
        [now left | right].
      exists (dirName :: segs), data.
      destruct segs as [| s segs]; [contradiction |].
      cbn [collectable walk]. rewrite Hc.
      split; [now repeat split |]. split; [exact Hw |]. split; [exact Hlast |].
      rewrite Hlen, length_app. cbn [List.length]. lia.
Qed.

Lemma collectable_last_In (segs : list string) : segs <> [] -> In (last segs "") segs.
Proof.
  intros Hne. destruct (exists_last Hne) as (l & a & ->). rewrite last_last.
  apply in_or_app. right. now left.
Qed.

(* ================================================================= *)
(** ** Entries behind excluded directories *)

Lemma eligible_dir_entry (entries : list (string * node)) (config : Config)
      (dirName : string) :
  eligible_dir (Dir entries) config dirName = true ->
  exists child,
    lookup dirName entries = Some child
    /\ is_directory child = true
    /\ ~ In dirName (excludeDirs config).
Proof.
  unfold eligible_dir. cbn [in_dir]. rewrite at_entry_lookup.
  destruct (lookup dirName entries) as [child |]; [| discriminate].
  intros H. exists child. split; [reflexivity |].
  destruct child as [regular data | es | e | e];
    cbn [statSync isDirectory andb] in H; try discriminate;
    (split; [reflexivity | apply not_includes_In; now apply negb_true_iff in H]).
Qed.

(** Every line of a tree is the line of an entry that is reached
    through directories that are not excluded, and that is not an
    excluded directory itself. *)
Lemma generateTree_line_enters (config : Config) (__filename : string) (n : node) :
  forall levels lines,
    generateTree n (indentation levels) config __filename = Ok lines ->
    Forall (fun l =>
              exists levels' isLast segs m,
                Enters config n segs m
                /\ List.length levels' = (List.length levels + List.length segs - 1)%nat
                /\ l = indentation levels' ++ branch isLast ++ last segs ""
                       ++ (if is_directory m then "/" else ""))
           lines.
Proof.
  induction n as [regular data | entries IH | e | e] using node_ind;
    intros levels lines H; try discriminate.
  apply generateTree_Dir_Ok in H. cbv zeta in H.
  destruct H as (below & Hb & ->).
  apply Forall_app. split; apply Forall_forall; intros l Hl.
  - apply In_map_indexed in Hl. destruct Hl as (file & i & Hin & ->).
    apply Array_sort_In, filter_In in Hin. destruct Hin as (_ & Hel).
    apply eligible_file_child in Hel. destruct Hel as (data & Hc).
    eexists levels, _, [file], (File true data). split; [| split].
    + apply enters_entry; [exact Hc | discriminate].
    + cbn [List.length]. lia.
    + cbn [last is_directory]. now rewrite append_empty_r.
  - destruct (append_all_In _ _ _ Hb Hl) as (part & Hp & Hin).
    apply In_map_indexed in Hp. destruct Hp as (dirName & i & Hdir & Hp).
    symmetry in Hp. apply bind_Ok in Hp. destruct Hp as (sub & Hsub & Hp).
    inversion Hp; subst part; clear Hp.
    apply Array_sort_In, filter_In in Hdir. destruct Hdir as (_ & Hel).
    apply eligible_dir_entry in Hel. destruct Hel as (child & Hc & Hd & Hnot).
    destruct Hin as [<- | Hin].
    + eexists levels, _, [dirName], child. split; [| split].
      * now apply enters_entry.
      * cbn [List.length]. lia.
      * cbn [last]. now rewrite Hd.
    + apply in_dir_Ok in Hsub. destruct Hsub as (child' & Hc' & Hsub).
      rewrite Hc in Hc'. inversion Hc'; subst child'.
      pose proof (lookup_In _ _ _ Hc) as Hchild. rewrite Forall_forall in IH.
      specialize (IH _ Hchild). cbn [snd] in IH.
      rewrite <- indentation_app in Hsub.
      specialize (IH _ _ Hsub). rewrite Forall_forall in IH.
      destruct (IH l Hin) as (levels' & isLast & segs & m & He & Hlen & ->).
      exists levels', isLast, (dirName :: segs), m. split; [| split].
      * now apply (enters_below config entries dirName child).
      * rewrite Hlen, length_app. cbn [List.length]. lia.
      * destruct segs as [| s segs]; [inversion He | reflexivity].
Qed.

Lemma Enters_valid (config : Config) (n m : node) (segs : list string) :
  valid_names n -> Enters config n segs m -> Forall valid_name segs.
Proof.
  intros Hv H. induction H as [entries name child Hc _ | entries name child rest m Hc _ _ _ IH];
    apply valid_names_Dir in Hv; destruct Hv as (Hnames & Hchildren);
    rewrite Forall_forall in Hnames, Hchildren.
  - constructor; [| constructor]. apply Hnames. now apply lookup_name_In in Hc.
  - constructor.
    + apply Hnames. now apply lookup_name_In in Hc.
    + apply IH. apply (Hchildren _ (lookup_In _ _ _ Hc)).
Qed.

Lemma collectable_Enters (config : Config) (segs : list string) :
  forall n,
    collectable config n segs ->
    exists m, Enters config n segs m /\ is_directory m = false.
Proof.
  induction segs as [| name rest IH]; intros n H; [contradiction |].
  destruct n as [regular data | entries | e | e]; cbn [collectable] in H;
    try contradiction.
  destruct (lookup name entries) as [child |] eqn:E; [| contradiction].
  destruct rest as [| r rest].
  - destruct H as (regular & data & ->). exists (File regular data).
    split; [| reflexivity]. apply enters_entry; [exact E | discriminate].
  - destruct H as (Hd & Hnot & H). destruct (IH child H) as (m & He & Hm).
    exists m. split; [| exact Hm].
    apply (enters_below config entries name child); auto.
    now apply not_includes_In.
Qed.

Lemma label_injective (a b : string) : a ++ "/" = b ++ "/" -> a = b.
Proof.
  revert b. induction a as [| c a IH]; intros [| d b] H; cbn [append] in H.
  - reflexivity.
  - inversion H as [[Hc Hb]]. destruct b; discriminate.
  - inversion H as [[Hc Ha]]. destruct a; discriminate.
  - inversion H. f_equal. now apply IH.
Qed.

Lemma lookup_pruned_entry (config : Config) (entries : list (string * node))
      (name : string) (m : node) :
  lookup name (map (fun e => (fst e, prune config (snd e))) (filter (kept config) entries))
  = Some m ->
  exists child,
    In (name, child) entries /\ kept config (name, child) = true /\ m = prune config child.
Proof.
  intros H. apply lookup_In, in_map_iff in H. destruct H as ([n c] & E & Hin).
  cbn [fst snd] in E. inversion E; subst.
  apply filter_In in Hin. destruct Hin as (Hin & Hk). now exists c.
Qed.

Lemma is_directory_prune (config : Config) (n : node) :
  is_directory (prune config n) = is_directory n.
Proof. destruct n; reflexivity. Qed.

(** Nowhere in the pruned tree is there a directory called by a name of
    [excludeDirs]. *)
Lemma prune_has_no_excluded_directory (config : Config) (segs : list string) :
  forall n m,
    segs <> [] ->
    walk (prune config n) segs = Ok m ->
    is_directory m = true ->
    ~ In (last segs "") (excludeDirs config).
Proof.
  induction segs as [| name rest IH]; intros n m Hne Hw Hd; [now elim Hne |].
  destruct n as [regular data | entries | e | e]; try discriminate Hw.
  rewrite prune_Dir in Hw. cbn [walk] in Hw.
  destruct (lookup name _) as [c |] eqn:E; [| discriminate].
  apply lookup_pruned_entry in E. destruct E as (child & Hin & Hk & ->).
  destruct rest as [| r rest].
  - cbn [walk] in Hw. inversion Hw; subst m. rewrite is_directory_prune in Hd.
    cbn [last]. unfold kept in Hk. cbn [fst snd] in Hk. rewrite Hd in Hk.
    destruct (in_dec string_dec name (excludeDirs config)); [discriminate | assumption].
  - change (last (name :: r :: rest) "") with (last (r :: rest) "").
    apply (IH child m); [discriminate | exact Hw | exact Hd].
Qed.

(* ================================================================= *)
(** ** What an exception carries *)







(* ================================================================= *)
(** ** The properties *)

(** C1, as the program has it.  In a report, no line of the tree is the
    line of a file called as the program's own file, in whatever
    directory, and no block of the contents section has that name for
    its path, which is the path the collector gives the copy in the
    working directory. *)
Theorem own_file_is_left_out (cwd : node) (options : Options)
        (__filename report : string) :
  generateStructure cwd options __filename = Ok report ->
  let config := spread DEFAULT_CONFIG options in
  exists tree all,
    generateTree cwd "" config __filename = Ok tree
    /\ getAllFiles cwd "." [] config = Ok all
    /\ report = report_of cwd config tree (selectFiles all config __filename)
    /\ displays_file tree (Path.basename __filename) = false
    /\ ~ In (Path.basename __filename) (selectFiles all config __filename)
    /\ (valid_name (Path.basename __filename) ->
        Path.join "." (Path.basename __filename) = Path.basename __filename).
Proof.
  intros H config. report_parts H as tree all Ht Ha. fold config in Ht, Ha |- *.
  exists tree, all.
  split; [exact Ht |]. split; [exact Ha |]. split; [reflexivity |].
  split; [| split].
  - apply displays_file_false. now apply (generateTree_never_self config __filename cwd).
  - rewrite selectFiles_In. tauto.
  - apply join_dot.
Qed.


(** C3.  In a report, every line of the tree is the line of an entry
    that is reached from the working directory through directories not
    called by a name of [excludeDirs], and that is not such a directory
    itself: no line is the line of an excluded directory.  Every path
    the collector returns leads through such directories too, and no
    path that holds a name of [excludeDirs], as a piece or anywhere
    else, has a block in the contents section.  Altogether the tree, the
    collected paths and the report are those of the working directory
    once every directory called by a name of [excludeDirs] is removed
    from it with all it holds.  The working directory is one whose
    directories list no name twice and whose entries have names a
    directory entry can have. *)
Theorem excluded_directories_leave_no_trace (cwd : node) (options : Options)
        (__filename report : string) :
  unique_names cwd -> valid_names cwd ->
  generateStructure cwd options __filename = Ok report ->
  let config := spread DEFAULT_CONFIG options in
  exists tree all,
    generateTree cwd "" config __filename = Ok tree
    /\ getAllFiles cwd "." [] config = Ok all
    /\ report = report_of cwd config tree (selectFiles all config __filename)
    /\ (forall l,
           In l tree ->
           exists levels isLast segs m,
             Enters config cwd segs m
             /\ List.length segs = S (List.length levels)
             /\ l = indentation levels ++ branch isLast ++ last segs ""
                    ++ (if is_directory m then "/" else ""))
    /\ (forall l dirName,
           In l tree -> In dirName (excludeDirs config) ->
           line_name l <> dirName ++ "/")
    /\ (forall p,
           In p all ->
           exists segs m,
             Enters config cwd segs m /\ is_directory m = false
             /\ p = String.concat "/" segs)
    /\ (forall p dirName before after,
           In p (selectFiles all config __filename) ->
           In dirName (excludeDirs config) ->
           p <> before ++ dirName ++ after)
    /\ generateTree (prune config cwd) "" config __filename = Ok tree
    /\ getAllFiles (prune config cwd) "." [] config = Ok all
    /\ generateStructure (prune config cwd) options __filename = Ok report
    /\ (forall segs m,
           segs <> [] ->
           walk (prune config cwd) segs = Ok m ->
           is_directory m = true ->
           ~ In (last segs "") (excludeDirs config)).
Proof.
  intros Hu Hv H config.
  pose proof H as Hreport.
  report_parts H as tree all Ht Ha. fold config in Ht, Ha, Hreport |- *.
  exists tree, all.
  assert (Hlines : forall l,
             In l tree ->
             exists levels isLast segs m,
               Enters config cwd segs m
               /\ List.length segs = S (List.length levels)
               /\ l = indentation levels ++ branch isLast ++ last segs ""
                      ++ (if is_directory m then "/" else "")).
  { intros l Hl.
    pose proof (generateTree_line_enters config __filename cwd [] tree Ht) as Hall.
    rewrite Forall_forall in Hall.
    destruct (Hall l Hl) as (levels & isLast & segs & m & He & Hlen & ->).
    exists levels, isLast, segs, m. split; [exact He |]. split; [| reflexivity].
    cbn [List.length] in Hlen. destruct segs as [| s segs]; [inversion He |].
    cbn [List.length] in *. lia. }
  split; [exact Ht |]. split; [exact Ha |]. split; [reflexivity |].
  split; [exact Hlines |].
  split; [| split; [| split; [| split; [| split; [| split]]]]].
  - intros l dirName Hl Hd.
    destruct (Hlines l Hl) as (levels & isLast & segs & m & He & _ & ->).
    rewrite line_name_line. intros E.
    pose proof (Enters_valid config cwd m segs Hv He) as Hvs.
    assert (Hlast : valid_name (last segs "")).
    { rewrite Forall_forall in Hvs. apply Hvs, collectable_last_In.
      intros ->. inversion He. }
    destruct (is_directory m) eqn:Hm.
    + apply label_injective in E.
      assert (Hnot : ~ In (last segs "") (excludeDirs config)).
      { clear -He Hm. induction He as [entries name child _ Hnot
                                      | entries name child rest m _ _ _ He IH].
        - now apply Hnot.
        - destruct rest as [| r rest]; [inversion He | now apply IH]. }
      apply Hnot. now rewrite E.
    + rewrite append_empty_r in E.
      destruct Hlast as (_ & _ & _ & Hs). rewrite E, has_slash_label in Hs. discriminate.
  - intros p Hp.
    apply (getAllFiles_collects config cwd [] "." all Hv
             (or_introl (conj eq_refl eq_refl)) (Forall_nil _) Ha) in Hp.
    destruct Hp as (segs & Hc & ->). cbn [app].
    destruct (collectable_Enters config segs cwd Hc) as (m & He & Hm).
    now exists segs, m.
  - intros p dirName before after Hin Hd ->.
    apply selectFiles_In in Hin. destruct Hin as (_ & _ & Hex & _).
    assert (E : existsb (fun dir => JS.String_includes (before ++ dirName ++ after) dir)
                  (excludeDirs config) = true).
    { apply existsb_exists. exists dirName. split; [exact Hd |].
      apply String_includes_append. }
    congruence.
  - now rewrite (generateTree_prune config __filename cwd Hu).
  - now rewrite (getAllFiles_prune config cwd Hu).
  - unfold config in *. rewrite (generateStructure_prune cwd options __filename Hu).
    exact Hreport.
  - intros segs m. apply prune_has_no_excluded_directory.
Qed.


(** C5.  Once the tree is rendered and the files are collected, the
    assembler returns its report whatever reading the files does.  A
    text file whose read throws gets the block made of its [FILE:] line,
    the separator, the line [[ERROR READING FILE: <message>]] and the
    two blank lines; the files before and after it keep the blocks they
    have on their own. *)
Theorem read_failure_is_contained (cwd : node) (options : Options)
        (__filename : string) (tree all : list string) :
  let config := spread DEFAULT_CONFIG options in
  generateTree cwd "" config __filename = Ok tree ->
  getAllFiles cwd "." [] config = Ok all ->
  generateStructure cwd options __filename
  = Ok (report_of cwd config tree (selectFiles all config __filename))
  /\ forall before filePath after message,
      selectFiles all config __filename = (before ++ filePath :: after)%list ->
      getFileType filePath config = text ->
      readFileSync cwd filePath = Throw message ->
      report_of cwd config tree (selectFiles all config __filename)
      = JS.Array_join
          (preamble tree
           ++ flat_map (fileBlock cwd config) before
           ++ block_lines filePath ("[ERROR READING FILE: " ++ message ++ "]")
           ++ flat_map (fileBlock cwd config) after)%list
          LF.
Proof.
  intros config Ht Ha. split.
  - rewrite generateStructure_unrolled. cbv zeta. fold config.
    rewrite Ht, Ha. reflexivity.
  - intros before filePath after message E Htext Hread.
    unfold report_of. rewrite E, flat_map_app. cbn [flat_map].
    rewrite (fileBlock_error _ _ _ _ Htext Hread). reflexivity.
Qed.

(** C7, as the program has it.  With the program under its name, the
    default configuration, and a working directory that holds exactly
    the file [a.txt] with content [hi] and the empty directory [sub], in
    either order: the tree is the line of [a.txt] with the open glyph,
    then the line of [sub/] with the closing glyph; the collector lists
    the one path [a.txt]; the contents section is the one block whose
    first line is [FILE: a.txt] and whose content line is [hi]. *)
Theorem scenario_a_report (cwd : node) (__filename : string) :
  Path.basename __filename = "project-structure.js" ->
  cwd = Dir [("a.txt", File true (Ok "hi")); ("sub", Dir [])]
  \/ cwd = Dir [("sub", Dir []); ("a.txt", File true (Ok "hi"))] ->
  generateTree cwd "" DEFAULT_CONFIG __filename = Ok ["├── a.txt"; "└── sub/"]
  /\ getAllFiles cwd "." [] DEFAULT_CONFIG = Ok ["a.txt"]
  /\ generateStructure cwd no_options __filename
     = Ok (JS.Array_join
             ["====================================";
              "PROJECT STRUCTURE AND CONTENTS";
              "====================================";
              "";
              "PROJECT STRUCTURE:";
              "==================";
              "├── a.txt";
              "└── sub/";
              "";
              "FILE CONTENTS:";
              "==============";
              "";
              "FILE: a.txt";
              "----------------------------------------";
              "hi";
              "";
              ""]
             LF).
Proof.
  intros Hname Hcwd.
  assert (E : Path.basename __filename = Path.basename "project-structure.js")
    by (rewrite Hname; reflexivity).
  rewrite (generateTree_basename _ _ _ cwd E), (generateStructure_basename _ _ _ _ E).
  destruct Hcwd as [-> | ->]; repeat split; vm_compute; reflexivity.
Qed.


(** C9.  Under the default configuration, with a regular file
    [.gitignore] in the working directory: the tree of the report has
    the line of [.gitignore] at the top level, the collector does list
    the path [.gitignore], and the contents section has no block for it.
    The tree keeps it because [.gitignore] is not one of [excludeFiles];
    the contents section drops it because the excluded directory name
    [.git] is a substring of its path. *)
Theorem gitignore_shown_not_reported (entries : list (string * node))
        (data : result string) (__filename report : string) :
  lookup ".gitignore" entries = Some (File true data) ->
  Path.basename __filename <> ".gitignore" ->
  generateStructure (Dir entries) no_options __filename = Ok report ->
  exists tree all,
    generateTree (Dir entries) "" DEFAULT_CONFIG __filename = Ok tree
    /\ getAllFiles (Dir entries) "." [] DEFAULT_CONFIG = Ok all
    /\ report = report_of (Dir entries) DEFAULT_CONFIG tree
                  (selectFiles all DEFAULT_CONFIG __filename)
    /\ (In "├── .gitignore" tree \/ In "└── .gitignore" tree)
    /\ In ".gitignore" all
    /\ ~ In ".gitignore" (selectFiles all DEFAULT_CONFIG __filename)
    /\ JS.Array_includes (excludeFiles DEFAULT_CONFIG) ".gitignore" = false
    /\ In ".git" (excludeDirs DEFAULT_CONFIG)
    /\ JS.String_includes ".gitignore" ".git" = true.
Proof.
  intros Hlook Hself H. apply generateStructure_Ok in H.
  change (spread DEFAULT_CONFIG no_options) with DEFAULT_CONFIG in H.
  destruct H as (tree & all & Ht & Ha & ->). exists tree, all.
  split; [exact Ht |]. split; [exact Ha |]. split; [reflexivity |].
  split; [| split; [| split; [| split; [reflexivity | split; [simpl; tauto | reflexivity]]]]].
  - apply generateTree_Dir_Ok in Ht. cbv zeta in Ht. destruct Ht as (below & _ & ->).
    assert (Hin : In ".gitignore"
                    (JS.Array_sort
                       (filter (eligible_file (Dir entries) DEFAULT_CONFIG __filename)
                          (map fst entries)))).
    { apply Array_sort_In, filter_In. split; [now apply lookup_name_In in Hlook |].
      assert (E : (".gitignore" =? Path.basename __filename) = false)
        by (apply String.eqb_neq; congruence).
      unfold eligible_file. cbn [in_dir]. rewrite at_entry_lookup, Hlook.
      cbn [statSync isFile]. rewrite E. reflexivity. }
    match goal with
    | |- In _ (JS.map_indexed ?f _ _ ++ _)%list \/ _ =>
        destruct (map_indexed_In f _ _ 0%Z Hin) as (i & Hi)
    end.
    cbv beta in Hi. destruct (_ && _)%bool in Hi.
    + right. apply in_or_app. left. exact Hi.
    + left. apply in_or_app. left. exact Hi.
  - rewrite getAllFiles_Dir in Ha. unfold getAllFiles_body in Ha.
    apply (forEach_pass (@incl string)) with (x := ".gitignore") in Ha.
    + destruct Ha as (st1 & i & st2 & Hpass & Hincl).
      cbn [in_dir] in Hpass. rewrite at_entry_lookup, Hlook in Hpass.
      cbn [statSync bind isDirectory] in Hpass.
      inversion Hpass; subst st2. apply Hincl, in_or_app. right. now left.
    + apply incl_refl.
    + intros a b c. apply incl_tran.
    + intros st y i st' _. apply collector_pass_grows.
    + now apply lookup_name_In in Hlook.
  - rewrite selectFiles_In. intros (_ & _ & Hd & _). discriminate.
Qed.

(** C10, as the program has it.  The tree has no line for a file called
    as the program's own file, in whatever directory.  Of the collected
    paths, the contents section keeps exactly those that are not that
    name itself and hold no excluded directory name and no excluded
    file name as a substring: so a copy below the working directory,
    whose path is longer than its name, is reported as soon as its path
    passes the two substring filters, while the copy in the working
    directory, whose path is its name, never is. *)
Theorem self_exclusion_is_asymmetric (cwd : node) (options : Options)
        (__filename : string) (tree all : list string) :
  let config := spread DEFAULT_CONFIG options in
  generateTree cwd "" config __filename = Ok tree ->
  getAllFiles cwd "." [] config = Ok all ->
  displays_file tree (Path.basename __filename) = false
  /\ (forall p,
        In p all ->
        (In p (selectFiles all config __filename)
         <-> p <> Path.basename __filename
             /\ existsb (fun dir => JS.String_includes p dir) (excludeDirs config) = false
             /\ existsb (fun exFile => JS.String_includes p exFile) (excludeFiles config)
                = false))
  /\ (forall p,
        In p all ->
        Path.basename p = Path.basename __filename ->
        p <> Path.basename __filename ->
        existsb (fun dir => JS.String_includes p dir) (excludeDirs config) = false ->
        existsb (fun exFile => JS.String_includes p exFile) (excludeFiles config) = false ->
        In p (selectFiles all config __filename))
  /\ (valid_name (Path.basename __filename) ->
      Path.join "." (Path.basename __filename) = Path.basename __filename).
Proof.
  intros config Ht Ha. split; [| split; [| split]].
  - apply displays_file_false. now apply (generateTree_never_self config __filename cwd).
  - intros p Hp. rewrite selectFiles_In. tauto.
  - intros p Hp _ Hne Hd Hf. rewrite selectFiles_In. tauto.
  - apply join_dot.
Qed.

(* ================================================================= *)
(** ** Further properties *)

(** X1.  The collector only appends to the array it is given: called
    with any array, it returns that array followed by what it returns
    when called with the empty array, and it throws exactly when that
    call throws. *)
Theorem collector_appends_to_its_array (config : Config) (n : node) (dir : string)
        (fileList : list string) :
  getAllFiles n dir fileList config
  = (added <- getAllFiles n dir [] config ;; Ok (fileList ++ added)%list).
Proof. apply getAllFiles_appends_from_empty. Qed.

(** X2.  The prefix only indents: the lines the renderer returns for a
    directory under the prefix [outer ++ prefix] are the lines it
    returns under [prefix], each with [outer] in front, and it throws
    exactly when that call throws. *)
Theorem subtree_lines_carry_the_prefix (config : Config) (__filename : string)
        (n : node) (outer prefix : string) :
  generateTree n (outer ++ prefix) config __filename
  = (lines <- generateTree n prefix config __filename ;;
     Ok (map (append outer) lines)).
Proof. apply generateTree_under_prefix. Qed.

(** X3.  The renderer and the collector return on the same directories,
    whatever their other arguments: those where every entry of every
    directory the traversal reaches can be examined and every directory
    it goes into can be listed; the traversal goes into the directories
    whose name is not in [excludeDirs]. *)
Theorem traversals_return_together (config : Config) (__filename : string) (n : node)
        (prefix dir : string) (fileList : list string) :
  is_ok (generateTree n prefix config __filename) = traversable config n
  /\ is_ok (getAllFiles n dir fileList config) = traversable config n.
Proof.
  split; [apply generateTree_is_ok | apply getAllFiles_is_ok].
Qed.

(** X4.  The assembler returns a report exactly when the working
    directory can be traversed.  Once the renderer has returned, the
    collector returns too and the report is assembled; an exception of
    the assembler is always the exception of the renderer. *)
Theorem assembler_returns_when_renderer_does (cwd : node) (options : Options)
        (__filename : string) :
  let config := spread DEFAULT_CONFIG options in
  is_ok (generateStructure cwd options __filename) = traversable config cwd
  /\ (forall tree,
         generateTree cwd "" config __filename = Ok tree ->
         exists all,
           getAllFiles cwd "." [] config = Ok all
           /\ generateStructure cwd options __filename
              = Ok (report_of cwd config tree (selectFiles all config __filename)))
  /\ (forall e,
         generateStructure cwd options __filename = Throw e
         <-> generateTree cwd "" config __filename = Throw e).
Proof.
  intros config. rewrite generateStructure_unrolled. cbv zeta. fold config.
  pose proof (generateTree_is_ok config __filename cwd "") as Ht.
  pose proof (getAllFiles_is_ok config cwd "." []) as Ha.
  destruct (generateTree cwd "" config __filename) as [tree | e] eqn:Et;
    destruct (getAllFiles cwd "." [] config) as [all | e'] eqn:Ea;
    cbn [bind is_ok] in *; try congruence.
  - split; [exact Ht |]. split.
    + intros tree' E. inversion E; subst. now exists all.
    + intros e. split; discriminate.
  - split; [exact Ht |]. split; [discriminate |]. intros e0. split; intros E; inversion E; reflexivity.
Qed.

(** X5.  With the working directory as its directory and the empty
    array, the collector returns the paths of the files it can reach and
    no other path: a path is returned exactly when it is the names of a
    chain of entries, joined by slashes, that leads from the working
    directory through directories whose names are not in [excludeDirs]
    to an entry that is not a directory. *)
Theorem collected_paths_are_the_file_chains (cwd : node) (config : Config)
        (all : list string) :
  valid_names cwd ->
  getAllFiles cwd "." [] config = Ok all ->
  forall p,
    In p all <-> exists segs, collectable config cwd segs /\ p = String.concat "/" segs.
Proof.
  intros Hv H.
  apply (getAllFiles_collects config cwd [] "." all Hv); [now left | constructor | exact H].
Qed.


(** X7.  The report does not depend on the order in which the
    filesystem enumerates the entries of a directory: two working
    directories that list the same names with the same contents,
    directory by directory, give the same report, and the assembler
    returns on the one exactly when it returns on the other. *)
Theorem report_ignores_enumeration_order (cwd cwd' : node) (options : Options)
        (__filename : string) :
  same_content cwd cwd' ->
  forall report,
    generateStructure cwd options __filename = Ok report
    <-> generateStructure cwd' options __filename = Ok report.
Proof.
  intros Hs report. split.
  - now apply generateStructure_same_content.
  - now apply generateStructure_same_content, same_content_sym.
Qed.

(** X8.  The type of a file depends on the last piece of its path
    only: a path that ends in a slash and a name has the type of the
    name, whatever stands before the slash. *)
Theorem file_type_depends_on_name_only (dir name : string) (config : Config) :
  name <> "" -> has_slash name = false ->
  getFileType (dir ++ "/" ++ name) config = getFileType name config.
Proof.
  intros Hne Hs. now apply getFileType_below.
Qed.

(** X9.  A file whose name has one dot, in front, has no extension: it
    is binary in every directory, unless the empty string is one of
    [textExtensions].  Listing the whole name there, as the default
    configuration does for [.env] and [.gitignore], does not make it
    text. *)
Theorem dotfiles_are_binary (rest : string) (config : Config) :
  has_slash rest = false -> has_dot rest = false ->
  ~ In "" (textExtensions config) ->
  getFileType ("." ++ rest) config = binary
  /\ forall dir, getFileType (dir ++ "/" ++ "." ++ rest) config = binary.
Proof.
  intros Hs Hd Hempty.
  assert (Hb : getFileType ("." ++ rest) config = binary).
  { unfold getFileType. rewrite (extname_dotfile rest Hs Hd).
    change (JS.toLowerCase toLowerCase_beyond_ascii "") with "".
    destruct (JS.Array_includes (textExtensions config) "") eqn:E; [| reflexivity].
    apply Array_includes_In in E. contradiction. }
  split; [exact Hb |]. intros dir.
  rewrite getFileType_below; [exact Hb | discriminate | exact Hs].
Qed.

(** X11.  Every regular file of the contents section has its line in
    the tree, where its path puts it, unless it is called as the
    program's own file: the line of each directory of the path is in the
    lines of the directory before it, followed at once by its own lines,
    and the line of the file is in the lines of the last of them.  The
    working directory is one whose entries have names a directory entry
    can have. *)
Theorem reported_regular_files_are_displayed (cwd : node) (options : Options)
        (__filename report : string) :
  valid_names cwd ->
  generateStructure cwd options __filename = Ok report ->
  let config := spread DEFAULT_CONFIG options in
  exists tree all,
    generateTree cwd "" config __filename = Ok tree
    /\ getAllFiles cwd "." [] config = Ok all
    /\ report = report_of cwd config tree (selectFiles all config __filename)
    /\ forall p segs data,
        In p (selectFiles all config __filename) ->
        segments p = Ok segs ->
        walk cwd segs = Ok (File true data) ->
        Path.basename p <> Path.basename __filename ->
        p = String.concat "/" segs
        /\ displayed_in config __filename cwd "" tree segs.
Proof.
  intros Hv H config. report_parts H as tree all Ht Ha. fold config in Ht, Ha |- *.
  exists tree, all.
  split; [exact Ht |]. split; [exact Ha |]. split; [reflexivity |].
  intros p segs data Hin Hsegs Hw Hself.
  apply selectFiles_In in Hin. destruct Hin as (Hall & _ & _ & Hfiles).
  apply (getAllFiles_collects config cwd [] "." all Hv
           (or_introl (conj eq_refl eq_refl)) (Forall_nil _) Ha) in Hall.
  destruct Hall as (segs' & Hc & ->). cbn [app] in *.
  pose proof (collectable_nonempty _ _ _ Hc) as Hne.
  pose proof (collectable_valid config _ _ Hv Hc) as Hvs.
  rewrite (segments_denotes _ segs' Hne (or_intror (conj Hne eq_refl)) Hvs) in Hsegs.
  inversion Hsegs; subst segs. split; [reflexivity |].
  rewrite (basename_concat _ Hne Hvs) in *.
  assert (Hex : JS.Array_includes (excludeFiles config) (last segs' "") = false).
  { destruct (JS.Array_includes (excludeFiles config) (last segs' "")) eqn:E;
      [| reflexivity].
    assert (Hlast : In (last segs' "") (Path.split (String.concat "/" segs'))).
    { rewrite (split_concat segs' Hne Hvs). now apply collectable_last_In. }
    apply split_pieces in Hlast. destruct Hlast as (before & after & Hp).
    assert (Hsome : existsb (fun exFile => JS.String_includes (String.concat "/" segs') exFile)
                      (excludeFiles config) = true).
    { apply existsb_exists. exists (last segs' ""). split.
      - now apply Array_includes_In.
      - rewrite Hp at 1. apply String_includes_append. }
    congruence. }
  exact (generateTree_displayed config __filename segs' cwd "" tree data
           Hc Hw Hex Hself Ht).
Qed.

(** X12.  A name in [excludeFiles] leaves no trace in a report: the
    tree has no line for a file of that name, in whatever directory,
    and no path of the contents section has the name anywhere in it, so
    that a file whose name only contains an excluded name keeps its line
    in the tree and loses its block. *)
Theorem excluded_files_leave_no_trace (cwd : node) (options : Options)
        (__filename report : string) :
  generateStructure cwd options __filename = Ok report ->
  let config := spread DEFAULT_CONFIG options in
  exists tree all,
    generateTree cwd "" config __filename = Ok tree
    /\ getAllFiles cwd "." [] config = Ok all
    /\ report = report_of cwd config tree (selectFiles all config __filename)
    /\ forall name,
        In name (excludeFiles config) ->
        (has_slash name = false -> displays_file tree name = false)
        /\ forall p,
            In p (selectFiles all config __filename) ->
            JS.String_includes p name = false.
Proof.
  intros H config. report_parts H as tree all Ht Ha. fold config in Ht, Ha |- *.
  exists tree, all.
  split; [exact Ht |]. split; [exact Ha |]. split; [reflexivity |].
  intros name Hname. split.
  - intros Hs. apply displays_file_false. intros l Hl.
    apply (generateTree_line_kinds config __filename cwd []) in Ht.
    rewrite Forall_forall in Ht.
    destruct (Ht l Hl) as (levels & isLast & nm & -> & Hkind).
    rewrite line_name_line. intros ->.
    destruct Hkind as [Hkind | Hkind]; [| congruence].
    apply Array_includes_In in Hname. congruence.
  - intros p Hp. apply selectFiles_In in Hp. destruct Hp as (_ & _ & _ & Hfiles).
    destruct (JS.String_includes p name) eqn:E; [| reflexivity].
    assert (Hsome : existsb (fun exFile => JS.String_includes p exFile)
                      (excludeFiles config) = true).
    { apply existsb_exists. now exists name. }
    congruence.
Qed.

(** X13.  What the functions read of the configuration.  The collector
    reads [excludeDirs] only; the renderer reads [excludeDirs] and
    [excludeFiles] only; and the output file's name plays no part in
    the report: the assembler returns the same whatever [outputFile]
    the options carry. *)
Theorem output_name_plays_no_part (cwd : node) (options : Options) (config : Config)
        (__filename : string) :
  (forall n dir fileList files exts out,
      getAllFiles n dir fileList (mkConfig (excludeDirs config) files exts out)
      = getAllFiles n dir fileList config)
  /\ (forall n prefix exts out,
         generateTree n prefix
           (mkConfig (excludeDirs config) (excludeFiles config) exts out) __filename
         = generateTree n prefix config __filename)
  /\ (forall out,
         generateStructure cwd
           (mkOptions (opt_excludeDirs options) (opt_excludeFiles options)
              (opt_textExtensions options) out)
           __filename
         = generateStructure cwd options __filename).
Proof.
  split; [| split].
  - intros n dir fileList files exts out. now apply getAllFiles_config.
  - intros n prefix exts out. now apply generateTree_config.
  - intros out. rewrite !generateStructure_unrolled. cbv zeta.
    set (options' := mkOptions (opt_excludeDirs options) (opt_excludeFiles options)
                       (opt_textExtensions options) out).
    rewrite (generateTree_config (spread DEFAULT_CONFIG options')
               (spread DEFAULT_CONFIG options) __filename cwd eq_refl eq_refl).
    rewrite (getAllFiles_config (spread DEFAULT_CONFIG options')
               (spread DEFAULT_CONFIG options) cwd eq_refl).
    reflexivity.
Qed.

(** X14.  Every file of the tree is collected: a line of the tree is
    the line of a directory, which ends in a slash, or the line of a
    regular file whose path the collector returns; the last piece of
    that path is the name on the line, and the path has one more piece
    than the line has levels of indentation. *)
Theorem displayed_files_are_collected (cwd : node) (options : Options)
        (__filename report : string) :
  valid_names cwd ->
  generateStructure cwd options __filename = Ok report ->
  let config := spread DEFAULT_CONFIG options in
  exists tree all,
    generateTree cwd "" config __filename = Ok tree
    /\ getAllFiles cwd "." [] config = Ok all
    /\ report = report_of cwd config tree (selectFiles all config __filename)
    /\ forall l,
        In l tree ->
        exists levels isLast name,
          l = indentation levels ++ branch isLast ++ name
          /\ ((exists dirName, name = dirName ++ "/")
              \/ exists p segs data,
                  In p all
                  /\ segments p = Ok segs
                  /\ walk cwd segs = Ok (File true data)
                  /\ Path.basename p = name
                  /\ List.length segs = S (List.length levels)).
Proof.
  intros Hv H config. report_parts H as tree all Ht Ha. fold config in Ht, Ha |- *.
  exists tree, all.
  split; [exact Ht |]. split; [exact Ha |]. split; [reflexivity |].
  intros l Hl.
  pose proof (generateTree_line_chains config __filename cwd [] tree Ht) as Hlines.
  rewrite Forall_forall in Hlines.
  destruct (Hlines l Hl) as (levels & isLast & name & -> & Hkind).
  exists levels, isLast, name. split; [reflexivity |].
  destruct Hkind as [Hkind | (segs & data & Hc & Hw & Hlast & Hlen)]; [now left | right].
  pose proof (collectable_nonempty _ _ _ Hc) as Hne.
  pose proof (collectable_valid config _ _ Hv Hc) as Hvs.
  exists (String.concat "/" segs), segs, data.
  split; [| split; [| split; [exact Hw | split]]].
  - apply (getAllFiles_collects config cwd [] "." all Hv
             (or_introl (conj eq_refl eq_refl)) (Forall_nil _) Ha).
    now exists segs.
  - apply (segments_denotes _ segs Hne (or_intror (conj Hne eq_refl)) Hvs).
  - now rewrite (basename_concat _ Hne Hvs).
  - cbn [List.length] in Hlen. destruct segs; [now elim Hne |].
    cbn [List.length] in *. lia.
Qed.

(** X15.  In a report, a file of the contents section that is
    classified text and whose read returns a string has the block made
    of its [FILE:] line, the separator, that string and two blank lines.
    The block stands in one piece in the report, and without its
    [FILE:] line, its separator line and its two closing blank lines it
    is the string the read returned, character for character, a closing
    line feed included.  With entry names as a filesystem has them,
    that string is what reading the file at the end of the path
    gives. *)
Theorem text_block_round_trip (cwd : node) (options : Options)
        (__filename report : string) :
  generateStructure cwd options __filename = Ok report ->
  let config := spread DEFAULT_CONFIG options in
  exists tree all,
    generateTree cwd "" config __filename = Ok tree
    /\ getAllFiles cwd "." [] config = Ok all
    /\ report = report_of cwd config tree (selectFiles all config __filename)
    /\ forall filePath content,
      In filePath (selectFiles all config __filename) ->
      getFileType filePath config = text ->
      readFileSync cwd filePath = Ok content ->
      let block := JS.Array_join (fileBlock cwd config filePath) LF in
      fileBlock cwd config filePath = block_lines filePath content
      /\ (exists before after, report = before ++ block ++ after)
      /\ stripBlock filePath block = content
      /\ (valid_names cwd ->
          exists segs regular,
            segments filePath = Ok segs
            /\ walk cwd segs = Ok (File regular (Ok content))).
Proof.
  intros H config. report_parts H as tree all Ht Ha. fold config in Ht, Ha |- *.
  exists tree, all. split; [exact Ht |]. split; [exact Ha |]. split; [reflexivity |].
  intros filePath content Hin Htext Hread block.
  split; [now apply fileBlock_text |].
  split; [now apply report_keeps_block |].
  split.
  - unfold block. rewrite (fileBlock_text _ _ _ _ Htext Hread).
    apply stripBlock_block.
  - intros Hv. apply selectFiles_In in Hin. destruct Hin as (Hin & _).
    apply (collected_paths_lead_to_files cwd config all Hv Ha) in Hin.
    apply leads_to_file_read in Hin.
    destruct Hin as (segs & regular & data & Hs & Hw & Hdata).
    exists segs, regular. split; [exact Hs |]. congruence.
Qed.

End Program.

(** * The properties on sample runs

    The runs below use [Sample.beyond_ascii] for the lowercasing of
    strings beyond ASCII.  Every name in the samples is ASCII, so the
    choice plays no part in them. *)

(** C1 as stated fails: the report of an earlier run, left in the
    working directory under the configured output name, has its line in
    the tree and its block in the contents section. *)
Lemma old_report_is_reported :
  outputFile DEFAULT_CONFIG = "project-structure.txt"
  /\ generateTree Sample.with_old_report "" DEFAULT_CONFIG Sample.script
     = Ok ["└── project-structure.txt"]
  /\ displays_file ["└── project-structure.txt"] (outputFile DEFAULT_CONFIG) = true
  /\ generateStructure Sample.beyond_ascii Sample.with_old_report no_options Sample.script
     = Ok (JS.Array_join
             (preamble ["└── project-structure.txt"]
              ++ block_lines (outputFile DEFAULT_CONFIG) "old report")%list
             LF).
Proof. repeat split; vm_compute; reflexivity. Qed.

Lemma own_file_is_left_out_witness :
  generateStructure Sample.beyond_ascii Sample.with_copies no_options Sample.script
  = Ok (report_of Sample.beyond_ascii Sample.with_copies DEFAULT_CONFIG ["└── lib/"] ["lib/project-structure.js"])
  /\ exists tree all,
      generateTree Sample.with_copies "" DEFAULT_CONFIG Sample.script = Ok tree
      /\ getAllFiles Sample.with_copies "." [] DEFAULT_CONFIG = Ok all
      /\ report_of Sample.beyond_ascii Sample.with_copies DEFAULT_CONFIG ["└── lib/"] ["lib/project-structure.js"]
         = report_of Sample.beyond_ascii Sample.with_copies DEFAULT_CONFIG tree
             (selectFiles all DEFAULT_CONFIG Sample.script)
      /\ displays_file tree (Path.basename Sample.script) = false
      /\ ~ In (Path.basename Sample.script) (selectFiles all DEFAULT_CONFIG Sample.script)
      /\ (valid_name (Path.basename Sample.script) ->
          Path.join "." (Path.basename Sample.script) = Path.basename Sample.script).
Proof.
  split; [vm_compute; reflexivity |].
  apply (own_file_is_left_out Sample.beyond_ascii Sample.with_copies no_options Sample.script).
  vm_compute; reflexivity.
Defined.


Lemma excluded_directories_leave_no_trace_witness :
  unique_names Sample.project /\ valid_names Sample.project
  /\ In "node_modules" (excludeDirs DEFAULT_CONFIG)
  /\ walk Sample.project ["node_modules"; "x.js"] = Ok (File true (Ok "x"))
  /\ generateStructure Sample.beyond_ascii Sample.project no_options Sample.script
     = Ok (report_of Sample.beyond_ascii Sample.project DEFAULT_CONFIG
             ["├── .gitignore"; "├── README.MD"; "├── gone.txt"; "├── logo.png";
              "├── z.txt"; "└── src/"; "    └── main.js"]
             ["README.MD"; "gone.txt"; "logo.png"; "src/main.js"; "z.txt"])
  /\ exists tree all,
      generateTree Sample.project "" DEFAULT_CONFIG Sample.script = Ok tree
      /\ getAllFiles Sample.project "." [] DEFAULT_CONFIG = Ok all
      /\ report_of Sample.beyond_ascii Sample.project DEFAULT_CONFIG
           ["├── .gitignore"; "├── README.MD"; "├── gone.txt"; "├── logo.png";
            "├── z.txt"; "└── src/"; "    └── main.js"]
           ["README.MD"; "gone.txt"; "logo.png"; "src/main.js"; "z.txt"]
         = report_of Sample.beyond_ascii Sample.project DEFAULT_CONFIG tree
             (selectFiles all DEFAULT_CONFIG Sample.script)
      /\ (forall l,
             In l tree ->
             exists levels isLast segs m,
               Enters DEFAULT_CONFIG Sample.project segs m
               /\ List.length segs = S (List.length levels)
               /\ l = indentation levels ++ branch isLast ++ last segs ""
                      ++ (if is_directory m then "/" else ""))
      /\ (forall l dirName,
             In l tree -> In dirName (excludeDirs DEFAULT_CONFIG) ->
             line_name l <> dirName ++ "/")
      /\ (forall p,
             In p all ->
             exists segs m,
               Enters DEFAULT_CONFIG Sample.project segs m /\ is_directory m = false
               /\ p = String.concat "/" segs)
      /\ (forall p dirName before after,
             In p (selectFiles all DEFAULT_CONFIG Sample.script) ->
             In dirName (excludeDirs DEFAULT_CONFIG) ->
             p <> before ++ dirName ++ after)
      /\ generateTree (prune DEFAULT_CONFIG Sample.project) "" DEFAULT_CONFIG Sample.script
         = Ok tree
      /\ getAllFiles (prune DEFAULT_CONFIG Sample.project) "." [] DEFAULT_CONFIG = Ok all
      /\ generateStructure Sample.beyond_ascii (prune DEFAULT_CONFIG Sample.project) no_options Sample.script
         = Ok (report_of Sample.beyond_ascii Sample.project DEFAULT_CONFIG
                 ["├── .gitignore"; "├── README.MD"; "├── gone.txt"; "├── logo.png";
                  "├── z.txt"; "└── src/"; "    └── main.js"]
                 ["README.MD"; "gone.txt"; "logo.png"; "src/main.js"; "z.txt"])
      /\ (forall segs m,
             segs <> [] ->
             walk (prune DEFAULT_CONFIG Sample.project) segs = Ok m ->
             is_directory m = true ->
             ~ In (last segs "") (excludeDirs DEFAULT_CONFIG)).
Proof.
  assert (Hu : unique_names Sample.project).
  { simpl. repeat (split; try exact I);
      repeat (constructor; [simpl; intuition discriminate |]); constructor. }
  assert (Hv : valid_names Sample.project).
  { simpl. repeat (split; try exact I);
      repeat (constructor; [repeat split; discriminate |]); constructor. }
  split; [exact Hu |]. split; [exact Hv |].
  split; [simpl; tauto |]. split; [reflexivity |].
  assert (Hr : generateStructure Sample.beyond_ascii Sample.project no_options Sample.script
               = Ok (report_of Sample.beyond_ascii Sample.project DEFAULT_CONFIG
                       ["├── .gitignore"; "├── README.MD"; "├── gone.txt"; "├── logo.png";
                        "├── z.txt"; "└── src/"; "    └── main.js"]
                       ["README.MD"; "gone.txt"; "logo.png"; "src/main.js"; "z.txt"]))
    by (vm_compute; reflexivity).
  split; [exact Hr |].
  exact (excluded_directories_leave_no_trace Sample.beyond_ascii Sample.project no_options Sample.script _
           Hu Hv Hr).
Defined.


Lemma read_failure_is_contained_witness :
  generateTree Sample.project "" DEFAULT_CONFIG Sample.script = Ok Sample.project_tree
  /\ getAllFiles Sample.project "." [] DEFAULT_CONFIG
     = Ok [".gitignore"; "README.MD"; "logo.png"; "gone.txt"; "z.txt"; "src/main.js"]
  /\ readFileSync Sample.project "gone.txt"
     = Throw "ENOENT: no such file or directory, open 'gone.txt'"
  /\ generateStructure Sample.beyond_ascii Sample.project no_options Sample.script
     = Ok (JS.Array_join
             (preamble Sample.project_tree
              ++ block_lines "README.MD" ("# title" ++ LF)
              ++ block_lines "gone.txt"
                   "[ERROR READING FILE: ENOENT: no such file or directory, open 'gone.txt']"
              ++ block_lines "logo.png" "[BINARY FILE - CONTENT NOT DISPLAYED]"
              ++ block_lines "src/main.js" "main"
              ++ block_lines "z.txt" "last")%list
             LF).
Proof.
  assert (Ht : generateTree Sample.project "" (spread DEFAULT_CONFIG no_options) Sample.script
               = Ok Sample.project_tree)
    by (vm_compute; reflexivity).
  assert (Ha : getAllFiles Sample.project "." [] (spread DEFAULT_CONFIG no_options)
               = Ok [".gitignore"; "README.MD"; "logo.png"; "gone.txt"; "z.txt"; "src/main.js"])
    by (vm_compute; reflexivity).
  assert (Hr : readFileSync Sample.project "gone.txt"
               = Throw "ENOENT: no such file or directory, open 'gone.txt'")
    by (vm_compute; reflexivity).
  split; [exact Ht |]. split; [exact Ha |]. split; [exact Hr |].
  destruct (read_failure_is_contained Sample.beyond_ascii Sample.project no_options Sample.script _ _ Ht Ha)
    as (Hreport & Hblock).
  rewrite Hreport.
  rewrite (Hblock ["README.MD"] "gone.txt" ["logo.png"; "src/main.js"; "z.txt"] _
             eq_refl eq_refl Hr).
  reflexivity.
Defined.

(** C6.  The program lowercases the extension of the file and not the
    extensions it is configured with.  With [.R] among the text
    extensions, the file [analysis.R] has its extension in
    [textExtensions] and can be read, and its block holds the
    placeholder, not its content; with [.r] there instead, the block
    holds the content. *)
Lemma capital_extension_is_stubbed :
  In (Path.extname "analysis.R")
     (textExtensions (spread DEFAULT_CONFIG Sample.r_options))
  /\ readFileSync Sample.r_project "analysis.R" = Ok "x <- 1"
  /\ generateStructure Sample.beyond_ascii Sample.r_project Sample.r_options Sample.script
     = Ok (JS.Array_join
             (preamble ["└── analysis.R"]
              ++ block_lines "analysis.R" "[BINARY FILE - CONTENT NOT DISPLAYED]")%list
             LF)
  /\ generateStructure Sample.beyond_ascii Sample.r_project
       (mkOptions None None (Some [".js"; ".md"; ".r"]) None) Sample.script
     = Ok (JS.Array_join
             (preamble ["└── analysis.R"] ++ block_lines "analysis.R" "x <- 1")%list
             LF).
Proof.
  split; [vm_compute; tauto |]. repeat split; vm_compute; reflexivity.
Qed.

(** C7 as stated fails: in scenario A the block is headed
    [FILE: a.txt]; [FILE: ./a.txt] is nowhere in the report. *)
Lemma scenario_a_path_has_no_dot :
  getAllFiles Sample.scenario_a "." [] DEFAULT_CONFIG = Ok ["a.txt"]
  /\ exists report,
      generateStructure Sample.beyond_ascii Sample.scenario_a no_options Sample.script = Ok report
      /\ JS.String_includes report "FILE: ./a.txt" = false
      /\ JS.String_includes report ("FILE: a.txt" ++ LF) = true.
Proof.
  split; [vm_compute; reflexivity |].
  eexists. split; [vm_compute; reflexivity |]. split; vm_compute; reflexivity.
Qed.

Lemma scenario_a_report_witness :
  Path.basename Sample.script = "project-structure.js"
  /\ generateTree Sample.scenario_a "" DEFAULT_CONFIG Sample.script
     = Ok ["├── a.txt"; "└── sub/"]
  /\ getAllFiles Sample.scenario_a "." [] DEFAULT_CONFIG = Ok ["a.txt"].
Proof.
  split; [reflexivity |].
  destruct (scenario_a_report Sample.beyond_ascii Sample.scenario_a Sample.script eq_refl (or_introl eq_refl))
    as (Ht & Ha & _).
  split; [exact Ht | exact Ha].
Defined.


Lemma gitignore_shown_not_reported_witness :
  lookup ".gitignore"
    [(".gitignore", File true (Ok "ignored")); ("a.txt", File true (Ok "hi"))]
  = Some (File true (Ok "ignored"))
  /\ Path.basename Sample.script <> ".gitignore"
  /\ generateStructure Sample.beyond_ascii
       (Dir [(".gitignore", File true (Ok "ignored")); ("a.txt", File true (Ok "hi"))])
       no_options Sample.script
     = Ok (report_of Sample.beyond_ascii
             (Dir [(".gitignore", File true (Ok "ignored")); ("a.txt", File true (Ok "hi"))])
             DEFAULT_CONFIG ["├── .gitignore"; "└── a.txt"] ["a.txt"])
  /\ exists tree all,
      (In "├── .gitignore" tree \/ In "└── .gitignore" tree)
      /\ In ".gitignore" all
      /\ ~ In ".gitignore" (selectFiles all DEFAULT_CONFIG Sample.script).
Proof.
  assert (Hself : Path.basename Sample.script <> ".gitignore") by (vm_compute; discriminate).
  assert (Hrun : generateStructure Sample.beyond_ascii
                   (Dir [(".gitignore", File true (Ok "ignored"));
                         ("a.txt", File true (Ok "hi"))])
                   no_options Sample.script
                 = Ok (report_of Sample.beyond_ascii
                         (Dir [(".gitignore", File true (Ok "ignored"));
                               ("a.txt", File true (Ok "hi"))])
                         DEFAULT_CONFIG ["├── .gitignore"; "└── a.txt"] ["a.txt"]))
    by (vm_compute; reflexivity).
  split; [reflexivity |]. split; [exact Hself |]. split; [exact Hrun |].
  destruct (gitignore_shown_not_reported Sample.beyond_ascii
              [(".gitignore", File true (Ok "ignored")); ("a.txt", File true (Ok "hi"))]
              (Ok "ignored") Sample.script _ eq_refl Hself Hrun)
    as (tree & all & _ & _ & _ & Ht & Ha & Hs & _).
  exists tree, all. auto.
Defined.

(** C10 as stated fails: a copy of the program below [.github] is
    collected and has no block, its path holding the excluded name
    [.git]. *)
Lemma github_copy_is_not_reported :
  getAllFiles Sample.with_github_copy "." [] DEFAULT_CONFIG
  = Ok [".github/project-structure.js"]
  /\ Path.basename ".github/project-structure.js" = Path.basename Sample.script
  /\ selectFiles [".github/project-structure.js"] DEFAULT_CONFIG Sample.script = []
  /\ generateStructure Sample.beyond_ascii Sample.with_github_copy no_options Sample.script
     = Ok (JS.Array_join (preamble ["└── .github/"]) LF).
Proof. repeat split; vm_compute; reflexivity. Qed.

Lemma self_exclusion_is_asymmetric_witness :
  generateTree Sample.with_copies "" DEFAULT_CONFIG Sample.script = Ok ["└── lib/"]
  /\ getAllFiles Sample.with_copies "." [] DEFAULT_CONFIG
     = Ok ["project-structure.js"; "lib/project-structure.js"]
  /\ displays_file ["└── lib/"] (Path.basename Sample.script) = false
  /\ In "lib/project-structure.js"
       (selectFiles ["project-structure.js"; "lib/project-structure.js"]
          DEFAULT_CONFIG Sample.script)
  /\ ~ In "project-structure.js"
       (selectFiles ["project-structure.js"; "lib/project-structure.js"]
          DEFAULT_CONFIG Sample.script).
Proof.
  assert (Ht : generateTree Sample.with_copies "" (spread DEFAULT_CONFIG no_options)
                 Sample.script = Ok ["└── lib/"]) by (vm_compute; reflexivity).
  assert (Ha : getAllFiles Sample.with_copies "." [] (spread DEFAULT_CONFIG no_options)
               = Ok ["project-structure.js"; "lib/project-structure.js"])
    by (vm_compute; reflexivity).
  split; [exact Ht |]. split; [exact Ha |].
  destruct (self_exclusion_is_asymmetric Sample.beyond_ascii Sample.with_copies no_options Sample.script _ _ Ht Ha)
    as (Htree & Hiff & Hcopy & _).
  split; [exact Htree |]. split.
  - apply Hcopy; [simpl; tauto | reflexivity | discriminate | reflexivity | reflexivity].
  - intros Hin. apply Hiff in Hin; [| simpl; tauto].
    destruct Hin as (Hne & _). now apply Hne.
Defined.

Lemma assembler_returns_when_renderer_does_witness :
  traversable DEFAULT_CONFIG Sample.project = true
  /\ generateTree Sample.project "" DEFAULT_CONFIG Sample.script = Ok Sample.project_tree
  /\ exists all,
      getAllFiles Sample.project "." [] DEFAULT_CONFIG = Ok all
      /\ generateStructure Sample.beyond_ascii Sample.project no_options Sample.script
         = Ok (report_of Sample.beyond_ascii Sample.project DEFAULT_CONFIG Sample.project_tree
                 (selectFiles all DEFAULT_CONFIG Sample.script)).
Proof.
  split; [reflexivity |].
  assert (Ht : generateTree Sample.project "" DEFAULT_CONFIG Sample.script
               = Ok Sample.project_tree) by (vm_compute; reflexivity).
  split; [exact Ht |].
  destruct (assembler_returns_when_renderer_does Sample.beyond_ascii Sample.project no_options Sample.script)
    as (_ & Hreturns & _).
  exact (Hreturns _ Ht).
Defined.

Lemma collected_paths_are_the_file_chains_witness :
  valid_names Sample.project
  /\ getAllFiles Sample.project "." [] DEFAULT_CONFIG
     = Ok [".gitignore"; "README.MD"; "logo.png"; "gone.txt"; "z.txt"; "src/main.js"]
  /\ forall p,
      In p [".gitignore"; "README.MD"; "logo.png"; "gone.txt"; "z.txt"; "src/main.js"]
      <-> exists segs,
          collectable DEFAULT_CONFIG Sample.project segs /\ p = String.concat "/" segs.
Proof.
  assert (Hv : valid_names Sample.project).
  { simpl. repeat (split; try exact I);
      repeat (constructor; [repeat split; discriminate |]); constructor. }
  split; [exact Hv |].
  assert (Ha : getAllFiles Sample.project "." [] DEFAULT_CONFIG
               = Ok [".gitignore"; "README.MD"; "logo.png"; "gone.txt"; "z.txt";
                     "src/main.js"]) by (vm_compute; reflexivity).
  split; [exact Ha |].
  exact (collected_paths_are_the_file_chains Sample.project DEFAULT_CONFIG _ Hv Ha).
Defined.


Lemma report_ignores_enumeration_order_witness :
  same_content More.listed More.relisted
  /\ generateStructure Sample.beyond_ascii More.listed no_options Sample.script
     = Ok (report_of Sample.beyond_ascii More.listed DEFAULT_CONFIG
             ["├── main.js"; "└── docs/"; "    ├── api.md"; "    └── usage.md"]
             ["docs/api.md"; "docs/usage.md"; "main.js"])
  /\ generateStructure Sample.beyond_ascii More.relisted no_options Sample.script
     = Ok (report_of Sample.beyond_ascii More.listed DEFAULT_CONFIG
             ["├── main.js"; "└── docs/"; "    ├── api.md"; "    └── usage.md"]
             ["docs/api.md"; "docs/usage.md"; "main.js"]).
Proof.
  assert (Hs : same_content More.listed More.relisted).
  { apply same_dir; [apply perm_swap |].
    intros name c c'. cbn [lookup].
    destruct (String.eqb_spec "main.js" name) as [E1 | _];
      destruct (String.eqb_spec "docs" name) as [E2 | _];
      try congruence; intros H1 H2; inversion H1; inversion H2; subst;
      try apply same_node.
    apply same_dir; [apply perm_swap |].
    intros name' d d'. unfold More.docs, More.docs'. cbn [lookup].
    destruct (String.eqb_spec "usage.md" name') as [E3 | _];
      destruct (String.eqb_spec "api.md" name') as [E4 | _];
      try congruence; intros H3 H4; inversion H3; inversion H4; subst;
      apply same_node. }
  split; [exact Hs |].
  assert (Hr : generateStructure Sample.beyond_ascii More.listed no_options Sample.script
               = Ok (report_of Sample.beyond_ascii More.listed DEFAULT_CONFIG
                       ["├── main.js"; "└── docs/"; "    ├── api.md"; "    └── usage.md"]
                       ["docs/api.md"; "docs/usage.md"; "main.js"]))
    by (vm_compute; reflexivity).
  split; [exact Hr |].
  apply (report_ignores_enumeration_order Sample.beyond_ascii More.listed More.relisted
           no_options Sample.script Hs).
  exact Hr.
Defined.

Lemma file_type_depends_on_name_only_witness :
  "Makefile" <> "" /\ has_slash "Makefile" = false
  /\ getFileType Sample.beyond_ascii ("build.js" ++ "/" ++ "Makefile") DEFAULT_CONFIG
     = getFileType Sample.beyond_ascii "Makefile" DEFAULT_CONFIG.
Proof.
  assert (Hne : "Makefile" <> "") by discriminate.
  split; [exact Hne |]. split; [reflexivity |].
  exact (file_type_depends_on_name_only Sample.beyond_ascii "build.js" "Makefile" DEFAULT_CONFIG Hne eq_refl).
Defined.

Lemma dotfiles_are_binary_witness :
  has_slash "gitignore" = false /\ has_dot "gitignore" = false
  /\ ~ In "" (textExtensions DEFAULT_CONFIG)
  /\ In ".gitignore" (textExtensions DEFAULT_CONFIG)
  /\ getFileType Sample.beyond_ascii ("." ++ "gitignore") DEFAULT_CONFIG = binary
  /\ forall dir, getFileType Sample.beyond_ascii (dir ++ "/" ++ "." ++ "gitignore") DEFAULT_CONFIG = binary.
Proof.
  assert (He : ~ In "" (textExtensions DEFAULT_CONFIG)).
  { simpl. intuition discriminate. }
  split; [reflexivity |]. split; [reflexivity |]. split; [exact He |].
  split; [simpl; tauto |].
  exact (dotfiles_are_binary Sample.beyond_ascii "gitignore" DEFAULT_CONFIG eq_refl eq_refl He).
Defined.

Lemma reported_regular_files_are_displayed_witness :
  valid_names Sample.project
  /\ generateStructure Sample.beyond_ascii Sample.project no_options Sample.script
     = Ok (report_of Sample.beyond_ascii Sample.project DEFAULT_CONFIG Sample.project_tree Sample.project_files)
  /\ exists tree all,
      generateTree Sample.project "" DEFAULT_CONFIG Sample.script = Ok tree
      /\ getAllFiles Sample.project "." [] DEFAULT_CONFIG = Ok all
      /\ report_of Sample.beyond_ascii Sample.project DEFAULT_CONFIG Sample.project_tree Sample.project_files
         = report_of Sample.beyond_ascii Sample.project DEFAULT_CONFIG tree
             (selectFiles all DEFAULT_CONFIG Sample.script)
      /\ forall p segs data,
          In p (selectFiles all DEFAULT_CONFIG Sample.script) ->
          segments p = Ok segs ->
          walk Sample.project segs = Ok (File true data) ->
          Path.basename p <> Path.basename Sample.script ->
          p = String.concat "/" segs
          /\ displayed_in DEFAULT_CONFIG Sample.script Sample.project "" tree segs.
Proof.
  assert (Hv : valid_names Sample.project).
  { simpl. repeat (split; try exact I);
      repeat (constructor; [repeat split; discriminate |]); constructor. }
  split; [exact Hv |].
  assert (Hr : generateStructure Sample.beyond_ascii Sample.project no_options Sample.script
               = Ok (report_of Sample.beyond_ascii Sample.project DEFAULT_CONFIG Sample.project_tree
                       Sample.project_files)) by (vm_compute; reflexivity).
  split; [exact Hr |].
  exact (reported_regular_files_are_displayed Sample.beyond_ascii Sample.project no_options Sample.script _
           Hv Hr).
Defined.

Lemma excluded_files_leave_no_trace_witness :
  generateStructure Sample.beyond_ascii More.with_lockfile no_options Sample.script
  = Ok (report_of Sample.beyond_ascii More.with_lockfile DEFAULT_CONFIG
          ["├── index.js"; "└── notes.env.md"] ["index.js"])
  /\ exists tree all,
      generateTree More.with_lockfile "" DEFAULT_CONFIG Sample.script = Ok tree
      /\ getAllFiles More.with_lockfile "." [] DEFAULT_CONFIG = Ok all
      /\ report_of Sample.beyond_ascii More.with_lockfile DEFAULT_CONFIG
           ["├── index.js"; "└── notes.env.md"] ["index.js"]
         = report_of Sample.beyond_ascii More.with_lockfile DEFAULT_CONFIG tree
             (selectFiles all DEFAULT_CONFIG Sample.script)
      /\ forall name,
          In name (excludeFiles DEFAULT_CONFIG) ->
          (has_slash name = false -> displays_file tree name = false)
          /\ forall p,
              In p (selectFiles all DEFAULT_CONFIG Sample.script) ->
              JS.String_includes p name = false.
Proof.
  assert (Hr : generateStructure Sample.beyond_ascii More.with_lockfile no_options Sample.script
               = Ok (report_of Sample.beyond_ascii More.with_lockfile DEFAULT_CONFIG
                       ["├── index.js"; "└── notes.env.md"] ["index.js"]))
    by (vm_compute; reflexivity).
  split; [exact Hr |].
  exact (excluded_files_leave_no_trace Sample.beyond_ascii More.with_lockfile no_options Sample.script _ Hr).
Defined.

Lemma displayed_files_are_collected_witness :
  valid_names Sample.project
  /\ generateStructure Sample.beyond_ascii Sample.project no_options Sample.script
     = Ok (report_of Sample.beyond_ascii Sample.project DEFAULT_CONFIG Sample.project_tree Sample.project_files)
  /\ exists tree all,
      generateTree Sample.project "" DEFAULT_CONFIG Sample.script = Ok tree
      /\ getAllFiles Sample.project "." [] DEFAULT_CONFIG = Ok all
      /\ report_of Sample.beyond_ascii Sample.project DEFAULT_CONFIG Sample.project_tree Sample.project_files
         = report_of Sample.beyond_ascii Sample.project DEFAULT_CONFIG tree
             (selectFiles all DEFAULT_CONFIG Sample.script)
      /\ forall l,
          In l tree ->
          exists levels isLast name,
            l = indentation levels ++ branch isLast ++ name
            /\ ((exists dirName, name = dirName ++ "/")
                \/ exists p segs data,
                    In p all
                    /\ segments p = Ok segs
                    /\ walk Sample.project segs = Ok (File true data)
                    /\ Path.basename p = name
                    /\ List.length segs = S (List.length levels)).
Proof.
  assert (Hv : valid_names Sample.project).
  { simpl. repeat (split; try exact I);
      repeat (constructor; [repeat split; discriminate |]); constructor. }
  split; [exact Hv |].
  assert (Hr : generateStructure Sample.beyond_ascii Sample.project no_options Sample.script
               = Ok (report_of Sample.beyond_ascii Sample.project DEFAULT_CONFIG Sample.project_tree
                       Sample.project_files)) by (vm_compute; reflexivity).
  split; [exact Hr |].
  exact (displayed_files_are_collected Sample.beyond_ascii Sample.project no_options Sample.script _ Hv Hr).
Defined.

Lemma text_block_round_trip_witness :
  generateStructure Sample.beyond_ascii Sample.project no_options Sample.script
  = Ok (report_of Sample.beyond_ascii Sample.project DEFAULT_CONFIG Sample.project_tree Sample.project_files)
  /\ In "README.MD" Sample.project_files
  /\ getFileType Sample.beyond_ascii "README.MD" DEFAULT_CONFIG = text
  /\ readFileSync Sample.project "README.MD" = Ok ("# title" ++ LF)
  /\ exists tree all,
      generateTree Sample.project "" DEFAULT_CONFIG Sample.script = Ok tree
      /\ getAllFiles Sample.project "." [] DEFAULT_CONFIG = Ok all
      /\ report_of Sample.beyond_ascii Sample.project DEFAULT_CONFIG Sample.project_tree Sample.project_files
         = report_of Sample.beyond_ascii Sample.project DEFAULT_CONFIG tree
             (selectFiles all DEFAULT_CONFIG Sample.script)
      /\ forall filePath content,
        In filePath (selectFiles all DEFAULT_CONFIG Sample.script) ->
        getFileType Sample.beyond_ascii filePath DEFAULT_CONFIG = text ->
        readFileSync Sample.project filePath = Ok content ->
        fileBlock Sample.beyond_ascii Sample.project DEFAULT_CONFIG filePath = block_lines filePath content
        /\ (exists before after,
               report_of Sample.beyond_ascii Sample.project DEFAULT_CONFIG Sample.project_tree
                 Sample.project_files
               = before
                 ++ JS.Array_join (fileBlock Sample.beyond_ascii Sample.project DEFAULT_CONFIG filePath) LF
                 ++ after)
        /\ stripBlock filePath
             (JS.Array_join (fileBlock Sample.beyond_ascii Sample.project DEFAULT_CONFIG filePath) LF)
           = content
        /\ (valid_names Sample.project ->
            exists segs regular,
              segments filePath = Ok segs
              /\ walk Sample.project segs = Ok (File regular (Ok content))).
Proof.
  assert (Hr : generateStructure Sample.beyond_ascii Sample.project no_options Sample.script
               = Ok (report_of Sample.beyond_ascii Sample.project DEFAULT_CONFIG Sample.project_tree
                       Sample.project_files)) by (vm_compute; reflexivity).
  split; [exact Hr |]. split; [simpl; tauto |].
  split; [reflexivity |]. split; [vm_compute; reflexivity |].
  exact (text_block_round_trip Sample.beyond_ascii Sample.project no_options Sample.script _ Hr).
Defined.
